(** * EI_subspace_RNN: the sparse sign-constrained weight codec, the
    initializer, the Kalman E-step, the weight objectives with their
    gradients and diagnostics, and the EM loop of [src/EI_subspace_RNN.py],
    embedded in Rocq.

    Python integers are [Z]; Python lists and the leading axis of numpy
    arrays are [list]s read with stdpp's lookup; numpy float64 scalars are
    either IEEE binary64 values ([spec_float] at precision 53) or the elements
    of an exact field, through the [Scalar] interface below; exceptions are
    the left summand of [result]. *)

From Stdlib Require Import ZArith Bool Lia SpecFloat QArith Qcanon Ring.
From stdpp Require Import base tactics option numbers list gmap.

Open Scope Z_scope.

(** ** Exceptions and the result monad *)

Inductive exn : Type :=
| IndexError            (* subscript outside a list or an array axis *)
| ValueError            (* np.unravel_index outside the shape; int(nan) *)
| OverflowError         (* int(inf); an int too large for a float *)
| UnboundLocalError     (* a local read before any assignment *)
| LinAlgError           (* np.linalg.inv on a singular matrix *)
| WeightsLengthMismatch (* Exception('Values of weights do not match in length ...') *)
| IndicesBeyondShape.   (* Exception('Indices of non-zero values go beyond possible shape') *)

Definition result (A : Type) : Type := (exn + A)%type.

Definition ret {A : Type} (a : A) : result A := inr a.

Definition raise {A : Type} (e : exn) : result A := inl e.

Definition bind {A B : Type} (m : result A) (k : A → result B) : result B :=
  match m with
  | inl e => inl e
  | inr a => k a
  end.

Notation "'let*' x := m 'in' k" := (bind m (λ x, k))
  (at level 10, x pattern, m at level 100, k at level 200).

(** [for ind in idx: s = body(ind, s)], stopping at the first exception. *)
Fixpoint for_each {I S : Type} (idx : list I) (body : I → S → result S) (s : S)
  : result S :=
  match idx with
  | [] => ret s
  | i :: rest => let* s' := body i s in for_each rest body s'
  end.

(** [[f(x) for x in l]], stopping at the first exception. *)
Fixpoint map_result {A B : Type} (f : A → result B) (l : list A) : result (list B) :=
  match l with
  | [] => ret []
  | x :: rest => let* y := f x in let* ys := map_result f rest in ret (y :: ys)
  end.

(** Python's [range(n)] as list positions; empty when [n <= 0]. *)
Definition range (n : Z) : list nat := seq 0 (Z.to_nat n).

(** [l[i]] for a non-negative position. *)
Definition subscript {A : Type} (l : list A) (i : nat) : result A :=
  match l !! i with
  | Some x => ret x
  | None => raise IndexError
  end.

(** ** IEEE binary64 and Python's int/float conversions *)

Definition prec : Z := 53.
Definition emax : Z := 1024.

(** Python's implicit [float(n)] for an int operand of a float operation. *)
Definition float_of_int (n : Z) : result spec_float :=
  match binary_normalize prec emax n 0 false with
  | S754_infinity _ => raise OverflowError
  | x => ret x
  end.

(** Python's [int(x)]: truncation towards zero. *)
Definition int_of_float (x : spec_float) : result Z :=
  match x with
  | S754_zero _ => ret 0
  | S754_nan => raise ValueError
  | S754_infinity _ => raise OverflowError
  | S754_finite s m e =>
      let a := Z.shiftl (Z.pos m) e in
      ret (if s then - a else a)
  end.

Definition float_1_0 : spec_float := S754_finite false 4503599627370496 (-52).
Definition float_0_75 : spec_float := S754_finite false 6755399441055744 (-53).
Definition float_0_25 : spec_float := S754_finite false 4503599627370496 (-54).

(** ** Scalars and matrices

    The codec writes, negates and compares float64 values; [Scalar] is that
    interface.  [numeq] is numpy's [==], [le] and [lt] its [<=] and [<]. *)

Class Scalar (F : Type) : Type := {
  zero : F;
  opp : F → F;
  numeq : F → F → Prop;
  le : F → F → Prop;
  lt : F → F → Prop;
}.

(** The sign laws the codec's properties rest on.  They hold of IEEE
    binary64 (with its two zeros, infinities and NaN) and of any ordered
    field; no rounding is involved. *)
Class DaleLaws (F : Type) `{Scalar F} : Prop := {
  opp_involutive (x : F) : opp (opp x) = x;
  numeq_zero_zero : numeq zero zero;
  numeq_zero_sym (x : F) : numeq x zero → numeq zero x;
  numeq_zero_opp (x : F) : numeq x zero → numeq (opp x) zero;
  numeq_zero_le (x : F) : numeq x zero → le zero x ∧ le x zero;
  numeq_refl_signed (x : F) : le zero x ∨ le x zero → numeq x x;
  le_zero_opp (x : F) : le x zero → le zero (opp x);
  lt_zero_nonzero (x : F) : le zero x → ¬ numeq x zero → lt zero x;
  lt_zero_opp (x : F) : lt zero x → lt (opp x) zero;
  lt_zero_asym (x : F) : lt zero x → ¬ lt x zero;
  numeq_zero_decided (x : F) : numeq x zero ∨ ¬ numeq x zero;
}.

(** float64 as IEEE binary64. *)
#[global] Instance binary64_scalar : Scalar spec_float := {
  zero := S754_zero false;
  opp := SFopp;
  numeq x y := SFeqb x y = true;
  le x y := SFleb x y = true;
  lt x y := SFltb x y = true;
}.

(** A 2-D array as the list of its rows. *)
Abbreviation matrix F := (list (list F)).

(** [np.zeros((rows, cols))] and [np.zeros((n, 1))] with its unit axis
    dropped; numpy refuses a negative dimension with ValueError. *)
Definition np_zeros {F : Type} `{Scalar F} (rows cols : Z) : result (matrix F) :=
  if bool_decide (rows < 0 ∨ cols < 0) then raise ValueError
  else ret (replicate (Z.to_nat rows) (replicate (Z.to_nat cols) zero)).

Definition np_zeros_column {F : Type} `{Scalar F} (n : Z) : result (list F) :=
  if bool_decide (n < 0) then raise ValueError
  else ret (replicate (Z.to_nat n) zero).

(** The entry at row [r], column [c], when inside the shape. *)
Definition entry {F : Type} (W : matrix F) (r c : nat) : option F :=
  W !! r ≫= (.!! c).

(** numpy's reading of a subscript [i] on an axis of length [len]: negative
    subscripts count from the end, anything else outside is IndexError. *)
Definition np_index (len : nat) (i : Z) : result nat :=
  if bool_decide (0 ≤ i < Z.of_nat len) then ret (Z.to_nat i)
  else if bool_decide (- Z.of_nat len ≤ i < 0) then ret (Z.to_nat (Z.of_nat len + i))
  else raise IndexError.

(** [l[i]] read and [l[i] = v] written, for an axis of an array. *)
Definition get_item {A : Type} (l : list A) (i : Z) : result A :=
  let* k := np_index (length l) i in subscript l k.

Definition set_item {A : Type} (l : list A) (i : Z) (v : A) : result (list A) :=
  let* k := np_index (length l) i in ret (<[k := v]> l).

(** [W[r, c]] read and [W[r, c] = v] written. *)
Definition get_entry {F : Type} (W : matrix F) (r c : Z) : result F :=
  let* row := get_item W r in get_item row c.

Definition set_entry {F : Type} (W : matrix F) (r c : Z) (v : F) : result (matrix F) :=
  let* row := get_item W r in
  let* row' := set_item row c v in
  set_item W r row'.

(** [W] has shape [(n, n)]. *)
Definition square {F : Type} (n : nat) (W : matrix F) : Prop :=
  length W = n ∧ Forall (λ row, length row = n) W.

(** ** The constructor: topology and sign classes *)

Record EI_subspace_RNN (F : Type) : Type := {
  N_e : Z;
  N_i : Z;
  sparsity : spec_float;
  J : matrix F;
  K : Z;
  N : Z;
  N_weights : Z;
  w_ind : list Z;
  w_ind_unravel : list (Z * Z);
  w_ind_pos : list Z;
  w_ind_neg : list Z;
}.

Arguments N_e {F} _.
Arguments N_i {F} _.
Arguments sparsity {F} _.
Arguments J {F} _.
Arguments K {F} _.
Arguments N {F} _.
Arguments N_weights {F} _.
Arguments w_ind {F} _.
Arguments w_ind_unravel {F} _.
Arguments w_ind_pos {F} _.
Arguments w_ind_neg {F} _.

(** [self.N_weights = int(sparsity * self.N ** 2)]. *)
Definition compute_N_weights (sparsity : spec_float) (N : Z) : result Z :=
  let* n2 := float_of_int (N ^ 2) in
  int_of_float (SFmul prec emax sparsity n2).

(** Lines 29-31: the flat indices [N * i + i] of the diagonal. *)
Definition diagonal_indices (N : Z) : list Z :=
  (λ i, N * i + i) <$> seqZ 0 N.

(** Lines 36-42.  [rand] is what is left of the drawn array from position
    [i] on; reading past its end is IndexError. *)
Fixpoint draw_while (rand : list Z) (w_ind : list Z) (count target : Z)
  : result (list Z) :=
  if bool_decide (count < target) then
    match rand with
    | [] => raise IndexError
    | r :: rand' =>
        if bool_decide (r ∉ w_ind)
        then draw_while rand' (w_ind ++ [r]) (count + 1) target
        else draw_while rand' w_ind count target
    end
  else ret w_ind.

(** [np.unravel_index(idx, (rows, cols))] in C order. *)
Definition unravel_index (rows cols idx : Z) : result (Z * Z) :=
  if bool_decide (0 ≤ idx < rows * cols)
  then ret (idx `div` cols, idx `mod` cols)
  else raise ValueError.

(** Lines 48-52: one turn of the sign-class loop. *)
Definition classify_step (N_e : Z) (w_ind : list Z) (w_ind_unravel : list (Z * Z))
  (ind : nat) (classes : list Z * list Z) : result (list Z * list Z) :=
  let* rc := subscript w_ind_unravel ind in
  if bool_decide (rc.2 ≤ N_e - 1) then
    let* x := subscript w_ind ind in ret (classes.1 ++ [x], classes.2)
  else if bool_decide (N_e ≤ rc.2) then
    let* x := subscript w_ind ind in ret (classes.1, classes.2 ++ [x])
  else ret classes.

Section Constructor.
Context {F : Type}.

(** [Generator(PCG64(seed)).integers(low, high, size=size)]: numpy's seeded
    stream is taken as a parameter; nothing is assumed of it. *)
Variable integers : Z → Z → Z → Z → list Z.

Definition __init__ (N_e N_i : Z) (sparsity : spec_float) (J : matrix F) (seed : Z)
  : result (EI_subspace_RNN F) :=
  let N := N_e + N_i in
  let* N_weights := compute_N_weights sparsity N in
  let w_ind := diagonal_indices N in
  let rand := integers seed 0 (N * N) (2 * N_weights + N) in
  let* w_ind := draw_while rand w_ind 0 (N_weights - N) in
  let* w_ind_unravel := map_result (unravel_index N N) w_ind in
  let* classes := for_each (range N_weights) (classify_step N_e w_ind w_ind_unravel) ([], []) in
  ret {| N_e := N_e; N_i := N_i; sparsity := sparsity; J := J;
         K := Z.of_nat (length J); N := N; N_weights := N_weights;
         w_ind := w_ind; w_ind_unravel := w_ind_unravel;
         w_ind_pos := classes.1; w_ind_neg := classes.2 |}.

End Constructor.

(** A stand-in stream: [seed], [seed + 1], ... reduced into [[low, high)]. *)
Definition counting_integers (seed low high size : Z) : list Z :=
  (λ k, low + (seed + k) `mod` (high - low)) <$> seqZ 0 size.

(** What every constructed instance satisfies. *)
Record topology_ok {F : Type} (self : EI_subspace_RNN F) : Prop := {
  ok_N_e : 0 < N_e self;
  ok_N_i : 0 < N_i self;
  ok_N : N self = N_e self + N_i self;
  ok_N_weights : compute_N_weights (sparsity self) (N self) = inr (N_weights self);
  ok_length : Z.of_nat (length (w_ind self)) = Z.max (N self) (N_weights self);
  ok_diagonal : take (Z.to_nat (N self)) (w_ind self) = diagonal_indices (N self);
  ok_NoDup : NoDup (w_ind self);
  ok_drawn : ∀ x, x ∈ drop (Z.to_nat (N self)) (w_ind self) → x ∉ diagonal_indices (N self);
  ok_unravel : Forall2 (λ x rc, 0 ≤ x < N self * N self
                  ∧ rc = (x `div` N self, x `mod` N self)) (w_ind self) (w_ind_unravel self);
  ok_pos : w_ind_pos self
    = filter (λ x, x `mod` N self ≤ N_e self - 1) (take (Z.to_nat (N_weights self)) (w_ind self));
  ok_neg : w_ind_neg self
    = filter (λ x, N_e self ≤ x `mod` N self) (take (Z.to_nat (N_weights self)) (w_ind self));
  ok_K : K self = Z.of_nat (length (J self));
}.

(** ** The weight codec *)

Section Codec.
Context {F : Type} `{Scalar F}.

(** Lines 58-64: one turn of the decoding loop. *)
Definition build_step (self : EI_subspace_RNN F) (w : list F) (ind : nat) (W : matrix F)
  : result (matrix F) :=
  let* x := subscript (w_ind self) ind in
  if bool_decide (x ∈ w_ind_pos self) then
    let* v := subscript w ind in
    let* rc := subscript (w_ind_unravel self) ind in
    set_entry W rc.1 rc.2 v
  else if bool_decide (x ∈ w_ind_neg self) then
    let* v := subscript w ind in
    let* rc := subscript (w_ind_unravel self) ind in
    set_entry W rc.1 rc.2 (opp v)
  else raise IndicesBeyondShape.

Definition build_full_weight_matrix (self : EI_subspace_RNN F) (w : list F)
  : result (matrix F) :=
  let* W := np_zeros (N self) (N self) in
  if bool_decide (Z.of_nat (length w) ≠ N_weights self) then raise WeightsLengthMismatch
  else for_each (range (N_weights self)) (build_step self w) W.

(** Lines 128-132: one turn of the encoding loop. *)
Definition extract_step (self : EI_subspace_RNN F) (W : matrix F) (ind : nat) (w : list F)
  : result (list F) :=
  let* x := subscript (w_ind self) ind in
  if bool_decide (x ∈ w_ind_pos self) then
    let* rc := subscript (w_ind_unravel self) ind in
    let* v := get_entry W rc.1 rc.2 in
    set_item w (Z.of_nat ind) v
  else if bool_decide (x ∈ w_ind_neg self) then
    let* rc := subscript (w_ind_unravel self) ind in
    let* v := get_entry W rc.1 rc.2 in
    set_item w (Z.of_nat ind) (opp v)
  else ret w.

Definition get_nonzero_weight_vector (self : EI_subspace_RNN F) (W : matrix F)
  : result (list F) :=
  let* w := np_zeros_column (N_weights self) in
  for_each (range (N_weights self)) (extract_step self W) w.

(** The indices both loops visit: the first [N_weights] of [w_ind]. *)
Definition active_indices (self : EI_subspace_RNN F) : list Z :=
  take (Z.to_nat (N_weights self)) (w_ind self).

(** Row and column of flat index [x], as [np.unravel_index] gives them. *)
Definition row_of (self : EI_subspace_RNN F) (x : Z) : nat := Z.to_nat (x `div` N self).

Definition col_of (self : EI_subspace_RNN F) (x : Z) : nat := Z.to_nat (x `mod` N self).

(** The value stored for magnitude [v] at flat index [x]: [v] in an
    excitatory column, [- v] in an inhibitory one. *)
Definition dale_sign (self : EI_subspace_RNN F) (x : Z) (v : F) : F :=
  if bool_decide (x `mod` N self ≤ N_e self - 1) then v else opp v.

(** The matrix after the first [k] turns of the decoding loop on [w]: the
    signed value at the position of every index visited so far, [zero] at
    every position not visited yet. *)
Definition decoded (self : EI_subspace_RNN F) (w : list F) (k : nat) (W : matrix F) : Prop :=
  square (Z.to_nat (N self)) W
  ∧ (∀ ind x v, (ind < k)%nat → w_ind self !! ind = Some x → w !! ind = Some v →
       entry W (row_of self x) (col_of self x) = Some (dale_sign self x v))
  ∧ (∀ r c, (r < Z.to_nat (N self))%nat → (c < Z.to_nat (N self))%nat →
       (∀ ind x, (ind < k)%nat → w_ind self !! ind = Some x →
          (row_of self x, col_of self x) ≠ (r, c)) →
       entry W r c = Some zero).

(** The vector after the first [k] turns of the encoding loop on [W]. *)
Definition encoded (self : EI_subspace_RNN F) (W : matrix F) (k : nat) (w : list F) : Prop :=
  length w = Z.to_nat (N_weights self)
  ∧ ∀ ind x, (ind < k)%nat → w_ind self !! ind = Some x →
      ∃ v, entry W (row_of self x) (col_of self x) = Some v
           ∧ w !! ind = Some (dale_sign self x v).

End Codec.

(** ** The E-step: Kalman filter and smoother

    numpy's linear-algebra kernels and the helper of [utils] (not in this
    file of the repository) are parameters: nothing is assumed of them, so
    what is proved holds for floating-point and exact arithmetic alike. *)

(** The input dict [b = {0: ..., 1: ...}], read with a bool as key. *)
Record drive (F : Type) : Type := { b_0 : matrix F; b_1 : matrix F }.

Arguments b_0 {F} _.
Arguments b_1 {F} _.

Definition drive_at {F : Type} (b : drive F) (key : bool) : matrix F :=
  if key then b_1 b else b_0 b.

(** [mu, mu_prior, V, V_prior]: one block per time step. *)
Record filter_arrays (F : Type) : Type := {
  mu : list (matrix F);
  mu_prior : list (matrix F);
  V : list (matrix F);
  V_prior : list (matrix F);
}.

Arguments mu {F} _.
Arguments mu_prior {F} _.
Arguments V {F} _.
Arguments V_prior {F} _.

(** [m, cov, cov_next]. *)
Record smoother_arrays (F : Type) : Type := {
  m : list (matrix F);
  cov : list (matrix F);
  cov_next : list (matrix F);
}.

Arguments m {F} _.
Arguments cov {F} _.
Arguments cov_next {F} _.

(** [np.zeros((T, rows, cols))] as [T] blocks; ValueError on a negative
    dimension. *)
Definition np_zeros_blocks {F : Type} `{Scalar F} (T rows cols : Z)
  : result (list (matrix F)) :=
  if bool_decide (T < 0 ∨ rows < 0 ∨ cols < 0) then raise ValueError
  else ret (replicate (Z.to_nat T) (replicate (Z.to_nat rows) (replicate (Z.to_nat cols) zero))).

(** Python's [range(start, stop)] and [range(start, stop, -1)]. *)
Definition range_up (start stop : Z) : list Z := seqZ start (stop - start).

Definition range_down (start stop : Z) : list Z :=
  reverse (seqZ (stop + 1) (start - stop)).

Section Kalman.
Context {F : Type} `{Scalar F}.

Variable matmul : matrix F → matrix F → matrix F.      (* [X @ Y] *)
Variable madd : matrix F → matrix F → matrix F.        (* [X + Y] *)
Variable msub : matrix F → matrix F → matrix F.        (* [X - Y] *)
Variable transpose : matrix F → matrix F.              (* [X.T] *)
Variable inv : matrix F → result (matrix F).           (* [np.linalg.inv(X)] *)
Variable build_dynamics_matrix_A : matrix F → matrix F → matrix F.
Variable np_diag_scaled_ones : F → Z → matrix F.       (* [np.diag(s * np.ones((N)))] *)

Infix "×" := matmul (at level 40, left associativity).
Infix "⊞" := madd (at level 50, left associativity).
Infix "⊟" := msub (at level 50, left associativity).

(** Line 139. *)
Definition build_dynamics_covariance (self : EI_subspace_RNN F) (s : F) : matrix F :=
  J self × np_diag_scaled_ones s (N self) × transpose (J self).

(** Lines 255-256, the prior update at time [t]. *)
Definition filter_predict (A Q : matrix F) (b : drive F) (t_s t : Z)
  (st : filter_arrays F) : result (filter_arrays F) :=
  let* mu_last := get_item (mu st) (t - 1) in
  let* mu_prior' :=
    set_item (mu_prior st) t (A × mu_last ⊞ drive_at b (bool_decide (t_s ≤ t - 1))) in
  let* V_last := get_item (V st) (t - 1) in
  let* V_prior' := set_item (V_prior st) t (A × V_last × transpose A ⊞ Q) in
  ret {| mu := mu st; mu_prior := mu_prior'; V := V st; V_prior := V_prior' |}.

(** Lines 250-251 and, word for word, 259-260: the filter update at time
    [t], reading [V_prior[t]], [mu_prior[t]] and [y[t]]. *)
Definition filter_update (C_ d R : matrix F) (y : list (matrix F)) (t : Z)
  (st : filter_arrays F) : result (filter_arrays F) :=
  let* R_inv := inv R in
  let* V_prior_t := get_item (V_prior st) t in
  let* V_prior_inv := inv V_prior_t in
  let* V_t := inv (transpose C_ × R_inv × C_ ⊞ V_prior_inv) in
  let* V' := set_item (V st) t V_t in
  let* V_t := get_item V' t in
  let* R_inv := inv R in
  let* y_t := get_item y t in
  let* V_prior_t := get_item (V_prior st) t in
  let* V_prior_inv := inv V_prior_t in
  let* mu_prior_t := get_item (mu_prior st) t in
  let* mu' :=
    set_item (mu st) t
      (V_t × (transpose C_ × R_inv × (y_t ⊟ d) ⊞ V_prior_inv × mu_prior_t)) in
  ret {| mu := mu'; mu_prior := mu_prior st; V := V'; V_prior := V_prior st |}.

(** Lines 231-262. *)
Definition Kalman_filter_E_step (self : EI_subspace_RNN F) (y : list (matrix F))
  (w : list F) (b : drive F) (s : F) (mu0 Q0 C_ d R : matrix F)
  : result (filter_arrays F) :=
  let* W := build_full_weight_matrix self w in
  let A := build_dynamics_matrix_A W (J self) in
  let Q := build_dynamics_covariance self s in
  let T := Z.of_nat (length y) in
  let t_s := T `div` 2 in
  let* mu := np_zeros_blocks T (K self) 1 in
  let* mu_prior := np_zeros_blocks T (K self) 1 in
  let* V := np_zeros_blocks T (K self) (K self) in
  let* V_prior := np_zeros_blocks T (K self) (K self) in
  let* mu_prior := set_item mu_prior 0 mu0 in
  let* V_prior := set_item V_prior 0 Q0 in
  let* st := filter_update C_ d R y 0
               {| mu := mu; mu_prior := mu_prior; V := V; V_prior := V_prior |} in
  for_each (range_up 1 T)
    (λ t st, let* st := filter_predict A Q b t_s t st in filter_update C_ d R y t st)
    st.

(** Lines 280-285, the backward step at time [t]. *)
Definition smoother_step (A : matrix F) (f : filter_arrays F) (t : Z)
  (st : smoother_arrays F) : result (smoother_arrays F) :=
  let* V_t := get_item (V f) t in
  let* V_prior_next := get_item (V_prior f) (t + 1) in
  let* V_prior_inv := inv V_prior_next in
  let L := V_t × transpose A × V_prior_inv in
  let* mu_t := get_item (mu f) t in
  let* m_next := get_item (m st) (t + 1) in
  let* mu_prior_next := get_item (mu_prior f) (t + 1) in
  let* m' := set_item (m st) t (mu_t ⊞ L × (m_next ⊟ mu_prior_next)) in
  let* V_t := get_item (V f) t in
  let* cov_next_t := get_item (cov st) (t + 1) in
  let* V_prior_next := get_item (V_prior f) (t + 1) in
  let* cov' :=
    set_item (cov st) t (V_t ⊞ L × (cov_next_t ⊟ V_prior_next) × transpose L) in
  let* cov_next_t := get_item cov' (t + 1) in
  let* cov_next' := set_item (cov_next st) t (L × cov_next_t) in
  ret {| m := m'; cov := cov'; cov_next := cov_next' |}.

(** Lines 264-287. *)
Definition Kalman_smoother_E_step (self : EI_subspace_RNN F) (A : matrix F)
  (f : filter_arrays F) : result (smoother_arrays F) :=
  let T := Z.of_nat (length (mu f)) in
  let* m := np_zeros_blocks T (K self) 1 in
  let* cov := np_zeros_blocks T (K self) (K self) in
  let* cov_next := np_zeros_blocks (T - 1) (K self) (K self) in
  let* mu_last := get_item (mu f) (-1) in
  let* m := set_item m (-1) mu_last in
  let* V_last := get_item (V f) (-1) in
  let* cov := set_item cov (-1) V_last in
  for_each (range_down (T - 2) (-1)) (smoother_step A f)
    {| m := m; cov := cov; cov_next := cov_next |}.

(** *** What the recursions are, in the words of the specification *)

(** The information-form update: [V_t = (C_^T R^-1 C_ + V_prior^-1)^-1] and
    [mu_t = V_t (C_^T R^-1 (y_t - d) + V_prior^-1 mu_prior)], every inverse
    being defined. *)
Definition information_update (C_ d R y_t mu_prior_t V_prior_t V_t mu_t : matrix F) : Prop :=
  ∃ R_inv V_prior_inv,
    inv R = inr R_inv ∧ inv V_prior_t = inr V_prior_inv
    ∧ inv (transpose C_ × R_inv × C_ ⊞ V_prior_inv) = inr V_t
    ∧ mu_t = V_t × (transpose C_ × R_inv × (y_t ⊟ d) ⊞ V_prior_inv × mu_prior_t).

(** [tau(t) = 1] iff [t - 1 >= floor(T / 2)]. *)
Definition tau (T t : nat) : bool := bool_decide (Z.of_nat T `div` 2 ≤ Z.of_nat t - 1).

(** The filter's recursion over a trial of [T] steps. *)
Definition filter_recursion (A Q : matrix F) (b : drive F) (mu0 Q0 C_ d R : matrix F)
  (y : list (matrix F)) (f : filter_arrays F) : Prop :=
  let T := length y in
  length (mu f) = T ∧ length (mu_prior f) = T
  ∧ length (V f) = T ∧ length (V_prior f) = T
  ∧ mu_prior f !! 0%nat = Some mu0
  ∧ V_prior f !! 0%nat = Some Q0
  ∧ (∀ t, (t + 1 < T)%nat →
       ∃ mu_t V_t, mu f !! t = Some mu_t ∧ V f !! t = Some V_t
         ∧ mu_prior f !! (t + 1)%nat = Some (A × mu_t ⊞ drive_at b (tau T (t + 1)))
         ∧ V_prior f !! (t + 1)%nat = Some (A × V_t × transpose A ⊞ Q))
  ∧ (∀ t, (t < T)%nat →
       ∃ y_t mu_prior_t V_prior_t V_t mu_t,
         y !! t = Some y_t ∧ mu_prior f !! t = Some mu_prior_t
         ∧ V_prior f !! t = Some V_prior_t ∧ V f !! t = Some V_t ∧ mu f !! t = Some mu_t
         ∧ information_update C_ d R y_t mu_prior_t V_prior_t V_t mu_t).

(** The same, for the time steps below [k] only: what holds after the loop
    has handled the times [0 .. k - 1]. *)
Definition filter_recursion_upto (k : nat) (A Q : matrix F) (b : drive F)
  (mu0 Q0 C_ d R : matrix F) (y : list (matrix F)) (f : filter_arrays F) : Prop :=
  let T := length y in
  length (mu f) = T ∧ length (mu_prior f) = T
  ∧ length (V f) = T ∧ length (V_prior f) = T
  ∧ mu_prior f !! 0%nat = Some mu0
  ∧ V_prior f !! 0%nat = Some Q0
  ∧ (∀ t, (t + 1 < k)%nat →
       ∃ mu_t V_t, mu f !! t = Some mu_t ∧ V f !! t = Some V_t
         ∧ mu_prior f !! (t + 1)%nat = Some (A × mu_t ⊞ drive_at b (tau T (t + 1)))
         ∧ V_prior f !! (t + 1)%nat = Some (A × V_t × transpose A ⊞ Q))
  ∧ (∀ t, (t < k)%nat →
       ∃ y_t mu_prior_t V_prior_t V_t mu_t,
         y !! t = Some y_t ∧ mu_prior f !! t = Some mu_prior_t
         ∧ V_prior f !! t = Some V_prior_t ∧ V f !! t = Some V_t ∧ mu f !! t = Some mu_t
         ∧ information_update C_ d R y_t mu_prior_t V_prior_t V_t mu_t).

(** Two sets of filter arrays of [T] blocks that agree below [k]. *)
Definition filter_arrays_agree (T k : nat) (f g : filter_arrays F) : Prop :=
  length (mu f) = T ∧ length (mu_prior f) = T ∧ length (V f) = T ∧ length (V_prior f) = T
  ∧ ∀ t, (t < k)%nat →
      mu f !! t = mu g !! t ∧ mu_prior f !! t = mu_prior g !! t
      ∧ V f !! t = V g !! t ∧ V_prior f !! t = V_prior g !! t.



End Kalman.

(** ** The EM loop

    The closed-form M-step (lines 289-341) and the objective, gradient and
    loss triple of the weights (lines 380-485) enter [fit_EM] through their
    results only, and [scipy.optimize.minimize] is not part of the
    repository: all are parameters of the loop. *)

(** [b, s, mu0, Q0, C_, d, R]. *)
Record closed_forms (F : Type) : Type := {
  cf_b : drive F;
  cf_s : F;
  cf_mu0 : matrix F;
  cf_Q0 : matrix F;
  cf_C_ : matrix F;
  cf_d : matrix F;
  cf_R : matrix F;
}.

Arguments cf_b {F} _.
Arguments cf_s {F} _.
Arguments cf_mu0 {F} _.
Arguments cf_Q0 {F} _.
Arguments cf_C_ {F} _.
Arguments cf_d {F} _.
Arguments cf_R {F} _.

(** [m, cov, cov_next] over all trials. *)
Record e_statistics (F : Type) : Type := {
  s_m : list (list (matrix F));
  s_cov : list (list (matrix F));
  s_cov_next : list (list (matrix F));
}.

Arguments s_m {F} _.
Arguments s_cov {F} _.
Arguments s_cov_next {F} _.

(** [np.zeros((U, T, rows, cols))]. *)
Definition np_zeros_trials {F : Type} `{Scalar F} (U T rows cols : Z)
  : result (list (list (matrix F))) :=
  if bool_decide (U < 0 ∨ T < 0 ∨ rows < 0 ∨ cols < 0) then raise ValueError
  else ret (replicate (Z.to_nat U) (replicate (Z.to_nat T)
              (replicate (Z.to_nat rows) (replicate (Z.to_nat cols) zero)))).

(** The bounds [[(0, np.inf)] * n]: a lower bound and no upper bound. *)
Definition nonnegative_bounds {F : Type} `{Scalar F} (n : nat) : list (F * option F) :=
  replicate n (zero, None).


Section EM.
Context {F : Type} `{Scalar F}.

Variable matmul : matrix F → matrix F → matrix F.
Variable madd : matrix F → matrix F → matrix F.
Variable msub : matrix F → matrix F → matrix F.
Variable transpose : matrix F → matrix F.
Variable inv : matrix F → result (matrix F).
Variable build_dynamics_matrix_A : matrix F → matrix F → matrix F.
Variable np_diag_scaled_ones : F → Z → matrix F.

Variable closed_form_M_step :
  EI_subspace_RNN F → list (list (matrix F)) → list F → e_statistics F
  → result (closed_forms F).
Variable check_loss_weights :
  EI_subspace_RNN F → list F → drive F → F → e_statistics F → result (F * F * F).
Variable loss_weights_M_step :
  EI_subspace_RNN F → list F → F → drive F → e_statistics F → F → F → result F.
Variable gradient_weights_M_step :
  EI_subspace_RNN F → list F → F → drive F → e_statistics F → F → F → result (list F).

(** [minimize(fun, x0, jac=jac, method='L-BFGS-B', bounds=bounds).x]. *)
Variable minimize :
  (list F → result F) → list F → (list F → result (list F)) → list (F * option F)
  → result (list F).

(** Lines 508-509 and 526-527: the E-step of trial [u].  The smoother
    builds its arrays with [np.zeros] from the same [T] and [K] as the slots
    they are assigned to. *)
Definition E_step_trial (self : EI_subspace_RNN F) (y : list (list (matrix F)))
  (w : list F) (p : closed_forms F) (A : matrix F) (u : nat) (st : e_statistics F)
  : result (e_statistics F) :=
  let* y_u := subscript y u in
  let* f := Kalman_filter_E_step matmul madd msub transpose inv build_dynamics_matrix_A
              np_diag_scaled_ones self y_u w (cf_b p) (cf_s p) (cf_mu0 p) (cf_Q0 p)
              (cf_C_ p) (cf_d p) (cf_R p) in
  let* sm := Kalman_smoother_E_step matmul madd msub transpose inv self A f in
  let* m' := set_item (s_m st) (Z.of_nat u) (m sm) in
  let* cov' := set_item (s_cov st) (Z.of_nat u) (cov sm) in
  let* cov_next' := set_item (s_cov_next st) (Z.of_nat u) (cov_next sm) in
  ret {| s_m := m'; s_cov := cov'; s_cov_next := cov_next' |}.

(** Lines 501-509 and, again, 517-527: the E-step over all trials. *)
Definition E_step (self : EI_subspace_RNN F) (y : list (list (matrix F)))
  (w : list F) (p : closed_forms F) : result (e_statistics F) :=
  let U := Z.of_nat (length y) in
  let T := Z.of_nat (length (default [] (head y))) in
  let* W := build_full_weight_matrix self w in
  let A := build_dynamics_matrix_A W (J self) in
  let* m := np_zeros_trials U T (K self) 1 in
  let* cov := np_zeros_trials U T (K self) (K self) in
  let* cov_next := np_zeros_trials U (T - 1) (K self) (K self) in
  for_each (range U) (E_step_trial self y w p A)
    {| s_m := m; s_cov := cov; s_cov_next := cov_next |}.

(** The three loss terms as a row of the trace. *)
Definition loss_row (l : F * F * F) : list F := [l.1.1; l.1.2; l.2].

(** Lines 517-539 without the write into the trace: one EM iteration, from
    the weights and parameters it starts with to those it ends with and the
    loss row evaluated after its M-step. *)
Definition EM_iteration (self : EI_subspace_RNN F) (y : list (list (matrix F)))
  (init_w : list F) (alpha beta : F) (wp : list F * closed_forms F)
  : result (list F * closed_forms F * list F) :=
  let* stats := E_step self y wp.1 wp.2 in
  let* p := closed_form_M_step self y wp.1 stats in
  let opt_fun := λ w_flattened,
    loss_weights_M_step self w_flattened (cf_s p) (cf_b p) stats alpha beta in
  let opt_grad := λ w_flattened,
    gradient_weights_M_step self w_flattened (cf_s p) (cf_b p) stats alpha beta in
  let bounds := nonnegative_bounds (length init_w) in
  let* w := minimize opt_fun wp.1 opt_grad bounds in
  let* l := check_loss_weights self w (cf_b p) (cf_s p) stats in
  ret (w, p, loss_row l).

(** Lines 487-541.  The result is [(loss_W, w, (b, s, mu0, Q0, C_, d, R))]. *)
Definition fit_EM (self : EI_subspace_RNN F) (y : list (list (matrix F)))
  (init_w : list F) (init : closed_forms F) (alpha beta : F) (max_iter : Z)
  : result (matrix F * list F * closed_forms F) :=
  let* stats := E_step self y init_w init in
  let* loss_W := np_zeros (max_iter + 1) 3 in
  let* l := check_loss_weights self init_w (cf_b init) (cf_s init) stats in
  let* loss_W := set_item loss_W 0 (loss_row l) in
  let* final :=
    for_each (range max_iter)
      (λ iter st,
         let* next := EM_iteration self y init_w alpha beta st.1 in
         let* loss_W := set_item st.2 (Z.of_nat iter + 1) next.2 in
         ret (next.1, loss_W))
      ((init_w, init), loss_W) in
  ret (final.2, final.1.1, final.1.2).

(** *** The loop in the words of the specification: a fixed number of
    iterations, each feeding the next, whatever the losses are. *)
Fixpoint EM_iterations (self : EI_subspace_RNN F) (y : list (list (matrix F)))
  (init_w : list F) (alpha beta : F) (n : nat) (wp : list F * closed_forms F)
  : result (list F * closed_forms F * matrix F) :=
  match n with
  | O => ret (wp, [])
  | S n' =>
      let* next := EM_iteration self y init_w alpha beta wp in
      let* rest := EM_iterations self y init_w alpha beta n' next.1 in
      ret (rest.1, next.2 :: rest.2)
  end.

End EM.

(** ** Dense arithmetic and the weight objectives

    For the objectives the arithmetic itself matters.  [Arith] adds numpy's
    scalar operations to [Scalar]; the array operations below are built from
    them.  [ExactLaws] says the scalars form a commutative ring: arithmetic
    without rounding, which float64 only approximates. *)

Class Arith (F : Type) `{Scalar F} : Type := {
  one : F;
  half : F;                     (* the literal [0.5] *)
  fadd : F → F → F;
  fsub : F → F → F;
  fmul : F → F → F;
  fdiv : F → F → F;
}.

Class ExactLaws (F : Type) `{Arith F} : Prop := {
  exact_ring : ring_theory zero one fadd fmul fsub opp (@eq F);
}.

Declare Scope arith_scope.
Delimit Scope arith_scope with A.
Infix "+" := fadd : arith_scope.
Infix "-" := fsub : arith_scope.
Infix "*" := fmul : arith_scope.
Infix "/" := fdiv : arith_scope.

Section Dense.
Context {F : Type} `{Arith F}.

(** The sum of a vector, right to left. *)
Definition np_sum (v : list F) : F := foldr fadd zero v.

Definition dot (u v : list F) : F := np_sum (zip_with fmul u v).

Definition ncols (X : matrix F) : nat :=
  match X with
  | [] => 0
  | row :: _ => length row
  end.

Definition column (X : matrix F) (j : nat) : list F :=
  (λ row, default zero (row !! j)) <$> X.

(** [X.T]. *)
Definition np_transpose (X : matrix F) : matrix F := column X <$> seq 0 (ncols X).

(** [X @ Y] on operands whose shapes agree. *)
Definition np_matmul (X Y : matrix F) : matrix F :=
  (λ row, dot row <$> np_transpose Y) <$> X.

(** [X + Y] and [X - Y] on equal shapes. *)
Definition np_add (X Y : matrix F) : matrix F := zip_with (zip_with fadd) X Y.

Definition np_subtract (X Y : matrix F) : matrix F := zip_with (zip_with fsub) X Y.

(** [a * X], [a + X] and [X + a] for a scalar [a]. *)
Definition np_scale (a : F) (X : matrix F) : matrix F :=
  (λ row : list F, fmul a <$> row) <$> X.

(** [X / a] for a scalar [a]. *)
Definition np_divide (X : matrix F) (a : F) : matrix F :=
  (λ row : list F, (λ x, fdiv x a) <$> row) <$> X.

Definition scalar_plus (a : F) (X : matrix F) : matrix F :=
  (λ row : list F, fadd a <$> row) <$> X.

Definition plus_scalar (X : matrix F) (a : F) : matrix F :=
  (λ row : list F, (λ x, fadd x a) <$> row) <$> X.

(** [np.trace(X)]. *)
Definition np_trace (X : matrix F) : F :=
  np_sum (imap (λ i row, default zero (row !! i)) X).

(** [np.identity(n)] and [np.ones((rows, cols))]. *)
Definition np_identity (n : Z) : matrix F :=
  (λ i, (λ j, if bool_decide (i = j) then one else zero) <$> seq 0 (Z.to_nat n))
    <$> seq 0 (Z.to_nat n).

Definition np_ones (rows cols : Z) : matrix F :=
  replicate (Z.to_nat rows) (replicate (Z.to_nat cols) one).

(** [np.sum(blocks, axis=(0, 1))] for blocks of shape [(K, K)]. *)
Definition sum_blocks (K : Z) (blocks : list (list (matrix F))) : result (matrix F) :=
  let* acc := np_zeros K K in
  ret (foldl np_add acc (concat blocks)).

End Dense.

Section Objectives.
Context {F : Type} `{Arith F}.

Variable inv : matrix F → result (matrix F).            (* [np.linalg.inv] *)
Variable pinv : matrix F → matrix F.                    (* [np.linalg.pinv] *)
Variable build_dynamics_matrix_A : matrix F → matrix F → matrix F.

Infix "×" := np_matmul (at level 40, left associativity).
Infix "⊞" := np_add (at level 50, left associativity).
Infix "⊟" := np_subtract (at level 50, left associativity).

(** [w_flattened.reshape((self.N_weights, 1))]. *)
Definition reshape_column (self : EI_subspace_RNN F) (w_flattened : list F)
  : result (list F) :=
  if bool_decide (Z.of_nat (length w_flattened) = N_weights self) then ret w_flattened
  else raise ValueError.

(** [Jpinv_aux = J @ W @ (np.identity(N) - np.linalg.pinv(J) @ J)]. *)
Definition Jpinv_aux (self : EI_subspace_RNN F) (W : matrix F) : matrix F :=
  J self × W × (np_identity (N self) ⊟ pinv (J self) × J self).

(** [0.5 * alpha * np.trace(Jpinv_aux @ Jpinv_aux.T)], the same expression
    at lines 355, 409, 451 and 482. *)
Definition alpha_term (self : EI_subspace_RNN F) (W : matrix F) (alpha : F) : F :=
  (half * alpha * np_trace (Jpinv_aux self W × np_transpose (Jpinv_aux self W)))%A.

(** [0.5 * beta * np.ones((N,1)).T @ W.T @ W @ np.ones((N,1))], the same
    expression at lines 356 and 410: [*] and [@] associate to the left, so
    the scalar multiplies the row of ones first. *)
Definition beta_term (self : EI_subspace_RNN F) (W : matrix F) (beta : F) : matrix F :=
  np_scale (half * beta)%A (np_transpose (np_ones (N self) 1))
    × np_transpose W × W × np_ones (N self) 1.

(** Lines 343-359. *)
Definition loss_weights_target_LDS (self : EI_subspace_RNN F) (w_flattened : list F)
  (A_target : matrix F) (zeta alpha beta gamma : F) : result F :=
  let* w := reshape_column self w_flattened in
  let* W := build_full_weight_matrix self w in
  let A := build_dynamics_matrix_A W (J self) in
  let res := A ⊟ A_target in
  let loss_W := (half * zeta * np_trace (res × np_transpose res))%A in
  let loss_W := (loss_W + alpha_term self W alpha)%A in
  let loss_W := scalar_plus loss_W (beta_term self W beta) in
  let loss_W := plus_scalar loss_W (half * gamma * np_trace (W × np_transpose W))%A in
  get_entry loss_W 0 0.

(** Lines 396-398, one turn of the inner loop; the accumulators are
    [(M1_T1, M_next, aux)]. *)
Definition statistics_step (b : drive F) (t_s : Z) (m : list (list (matrix F)))
  (u t : nat) (acc : matrix F * matrix F * matrix F)
  : result (matrix F * matrix F * matrix F) :=
  let* m_u := subscript m u in
  let* m_ut := subscript m_u t in
  let M1_T1 := acc.1.1 ⊞ m_ut × np_transpose m_ut in
  let* m_next := subscript m_u (S t) in
  let M_next := acc.1.2 ⊞ m_ut × np_transpose m_next in
  let aux := acc.2 ⊞ drive_at b (bool_decide (t_s ≤ Z.of_nat t)) × np_transpose m_ut in
  ret (M1_T1, M_next, aux).

(** Lines 388-398 (and again 422-432, 461-471): the statistics of the
    latent transition. *)
Definition transition_statistics (self : EI_subspace_RNN F) (b : drive F)
  (m cov cov_next : list (list (matrix F)))
  : result (matrix F * matrix F * matrix F) :=
  let U := Z.of_nat (length m) in
  let T := Z.of_nat (length (default [] (head m))) in
  let t_s := T `div` 2 in
  let* aux := np_zeros (K self) (K self) in
  let* M1_T1 :=
    sum_blocks (K self) ((λ trial : list (matrix F), take (length trial - 1) trial) <$> cov) in
  let* M_next := sum_blocks (K self) cov_next in
  for_each (range U)
    (λ u acc, for_each (range (T - 1)) (statistics_step b t_s m u) acc)
    (M1_T1, M_next, aux).

(** Lines 404-406: the negative complete-data log-likelihood term. *)
Definition likelihood_term (A J_aux : matrix F) (s : F)
  (stats : matrix F * matrix F * matrix F) : F :=
  let loss_W := (opp one / s * opp (np_trace (np_transpose A × J_aux × stats.2)))%A in
  let loss_W :=
    (loss_W - one / s * opp half * np_trace (np_transpose A × J_aux × A × stats.1.1))%A in
  (loss_W - one / s * np_trace (J_aux × A × stats.1.2))%A.

(** Lines 380-412. *)
Definition loss_weights_M_step (self : EI_subspace_RNN F) (w_flattened : list F)
  (s : F) (b : drive F) (m cov cov_next : list (list (matrix F))) (alpha beta : F)
  : result F :=
  let* W := build_full_weight_matrix self w_flattened in
  let A := build_dynamics_matrix_A W (J self) in
  let* stats := transition_statistics self b m cov cov_next in
  let* J_aux := inv (J self × np_transpose (J self)) in
  let loss_W := likelihood_term A J_aux s stats in
  let loss_W := (loss_W + alpha_term self W alpha)%A in
  let loss_W := scalar_plus loss_W (beta_term self W beta) in
  get_entry loss_W 0 0.

End Objectives.

(** ** Concrete instances *)

(** What the constructor returns for [N_e = N_i = 1], [sparsity = 0.25]:
    [N_weights = int(0.25 * 4) = 1] and the while loop is never entered. *)
Definition sparse_pair : EI_subspace_RNN spec_float :=
  {| N_e := 1; N_i := 1; sparsity := float_0_25; J := []; K := 0; N := 2;
     N_weights := 1; w_ind := [0; 3]; w_ind_unravel := [(0, 0); (1, 1)];
     w_ind_pos := [0]; w_ind_neg := [] |}.

(** A diagonal matrix with Dale's signs for [sparse_pair]. *)
Definition W_pair : matrix spec_float :=
  [[float_1_0; zero]; [zero; SFopp float_1_0]].

(** A matrix supported on the six indices [0; 4; 8; 5; 6; 7] drawn for
    [N_e = 1], [N_i = 2], [sparsity = 0.75], with Dale's signs. *)
Definition W_triple : matrix spec_float :=
  [[float_1_0; zero; zero];
   [zero; SFopp float_0_25; SFopp float_1_0];
   [float_0_75; SFopp float_0_75; SFopp float_1_0]].

(** float64 arithmetic, and exact rational arithmetic. *)
#[global] Instance binary64_arith : Arith spec_float := {
  one := float_1_0;
  half := S754_finite false 4503599627370496 (-53);
  fadd := SFadd prec emax;
  fsub := SFsub prec emax;
  fmul := SFmul prec emax;
  fdiv := SFdiv prec emax;
}.

#[global] Instance rational_scalar : Scalar Qc := {
  zero := 0%Qc;
  opp := Qcopp;
  numeq x y := x = y;
  le := Qcle;
  lt := Qclt;
}.

#[global] Instance rational_arith : Arith Qc := {
  one := 1%Qc;
  half := Q2Qc (1 # 2);
  fadd := Qcplus;
  fsub := Qcminus;
  fmul := Qcmult;
  fdiv := Qcdiv;
}.

(** [np.linalg.inv] on arrays of shape [(1, 1)], given the test for a zero
    pivot. *)
Definition inv_1x1 {F : Type} `{Arith F} (is_zero : F → bool) (X : matrix F)
  : result (matrix F) :=
  match X with
  | [[a]] => if is_zero a then raise LinAlgError else ret [[fdiv one a]]
  | _ => raise LinAlgError
  end.

Definition float_is_zero (a : spec_float) : bool := SFeqb a zero.

Definition rational_is_zero (a : Qc) : bool := bool_decide (a = 0%Qc).

(** The reduction [A = J W J^+] the specification names for
    [utils.build_dynamics_matrix_A], with [J^+ = J^T] (orthonormal rows). *)
Definition reduce_to_latent_dynamics {F : Type} `{Arith F} (W J : matrix F) : matrix F :=
  np_matmul (np_matmul J W) (np_transpose J).

(** [np.diag(s * np.ones((N)))]. *)
Definition diag_scaled_ones {F : Type} `{Arith F} (s : F) (N : Z) : matrix F :=
  np_scale s (np_identity N).

(** A trial of two scalar observations and its parameters, in float64. *)
Definition J_float : matrix spec_float := [[float_1_0; zero; zero]].

Definition y_float : list (matrix spec_float) := [[[float_1_0]]; [[float_0_75]]].

Definition b_float : drive spec_float := {| b_0 := [[float_0_25]]; b_1 := [[float_1_0]] |}.

(** Filter arrays of two steps, in float64. *)
Definition f_float : filter_arrays spec_float :=
  {| mu := [[[float_0_75]]; [[float_1_0]]];
     mu_prior := [[[float_0_25]]; [[float_0_75]]];
     V := [[[float_0_25]]; [[float_0_25]]];
     V_prior := [[[float_1_0]]; [[float_0_75]]] |}.

(** A network of two units with one latent dimension, in rationals. *)
Definition J_rational : matrix Qc := [[1%Qc; 0%Qc]].

Definition b_rational : drive Qc := {| b_0 := [[1%Qc]]; b_1 := [[Q2Qc 2]] |}.

Definition m_rational : list (list (matrix Qc)) := [[[[1%Qc]]; [[Q2Qc 2]]]].

Definition cov_rational : list (list (matrix Qc)) := [[[[1%Qc]]; [[1%Qc]]]].

Definition cov_next_rational : list (list (matrix Qc)) := [[[[Q2Qc (1 # 2)]]]].

(** ** The initializer, in float64

    [generate_stable_weights] mixes the constructor's [sparsity] (a Python
    float) into the weights, so the initializer is modelled on float64
    itself.  [np.sqrt] and the divisions are IEEE: a zero divisor gives an
    infinity or NaN (with a warning), not an exception.  The pseudo-inverse,
    the target objective's value, gradient and loss triple and scipy's
    optimizer are parameters. *)

(** Lines 67-79.  [1 - self.sparsity] is [1.0 - sparsity]; [np.sqrt(self.N)]
    takes the float of the int [N]. *)
Definition generate_stable_weights (self : EI_subspace_RNN spec_float) (R : spec_float)
  : result (list spec_float) :=
  let prod := SFmul prec emax (sparsity self) (SFsub prec emax float_1_0 (sparsity self)) in
  let w0 := SFdiv prec emax R (SFsqrt prec emax prod) in
  let* w := np_zeros_column (N_weights self) in
  let* n := float_of_int (N self) in
  ret ((λ _ : spec_float, SFdiv prec emax w0 (SFsqrt prec emax n)) <$> w).

(** [w_all[ind, :] = w] for a row of [n] slots: numpy broadcasts a vector
    of one entry and refuses any other length but [n]. *)
Definition broadcast_row {F : Type} (n : Z) (w : list F) : result (list F) :=
  if bool_decide (Z.of_nat (length w) = n) then ret w
  else match w with
       | [x] => ret (replicate (Z.to_nat n) x)
       | _ => raise ValueError
       end.


(** No entry is negative (an entry may be NaN), and every entry is [>= 0]. *)
Definition never_negative (w : list spec_float) : Prop := Forall (λ x, ¬ lt x zero) w.


Section Initializer.

Abbreviation float := spec_float.

Variable pinv : matrix float → matrix float.
Variable check_loss_weights_LDS :
  EI_subspace_RNN float → list float → matrix float → result (float * float * float).
Variable loss_weights_target_LDS :
  EI_subspace_RNN float → list float → matrix float → float → float → float → float
  → result float.
Variable gradient_weights_target_LDS :
  EI_subspace_RNN float → list float → matrix float → float → float → float → float
  → result (list float).
Variable minimize :
  (list float → result float) → list float → (list float → result (list float))
  → list (float * option float) → result (list float).

Infix "×" := np_matmul (at level 40, left associativity).
Infix "⊞" := np_add (at level 50, left associativity).
Infix "⊟" := np_subtract (at level 50, left associativity).

(** Lines 91-100, one turn of the alternating projection: the new [w0] and
    [W0].  [@] and [/] associate to the left, so the division by [N] applies
    to the product with both vectors of ones.  The turn is reached only
    after [build_full_weight_matrix] has built a matrix of shape [(N, N)]. *)
Definition projection_step (self : EI_subspace_RNN float) (JpJ W0 : matrix float)
  : result (list float * matrix float) :=
  let eye := np_identity (N self) in
  let W0 := JpJ × W0 × JpJ ⊞ (eye ⊟ JpJ) × W0 × (eye ⊟ JpJ) in
  let* n := float_of_int (N self) in
  let W0 := W0 ⊟ np_divide (W0 × np_ones (N self) 1 × np_ones 1 (N self)) n in
  let* w := get_nonzero_weight_vector self W0 in
  let w0 := SFabs <$> w in
  let* W0 := build_full_weight_matrix self w0 in
  ret (w0, W0).

(** Lines 88-100: stage 1 and the fifty turns of stage 2. *)
Definition alternating_projection (self : EI_subspace_RNN float) (R : float)
  : result (list float * matrix float) :=
  let* w0 := generate_stable_weights self R in
  let* W0 := build_full_weight_matrix self w0 in
  let JpJ := pinv (J self) × J self in
  for_each (range 50) (λ _ st, projection_step self JpJ st.2) (w0, W0).

(** Lines 109-119, one turn of the refinement loop on
    [(w_old, w, loss_W, w_all)]; [w] is unbound before the first turn. *)
Definition refinement_step (self : EI_subspace_RNN float) (A_target : matrix float)
  (zeta_alpha_beta_gamma_list : list (float * float * float * float)) (w0 : list float)
  (ind : nat) (st : list float * option (list float) * matrix float * matrix float)
  : result (list float * option (list float) * matrix float * matrix float) :=
  let '(w_old, _, loss_W, w_all) := st in
  let* q := subscript zeta_alpha_beta_gamma_list ind in
  let '(zeta, alpha, beta, gamma) := q in
  let* l := check_loss_weights_LDS self w_old A_target in
  let* loss_W := set_item loss_W (Z.of_nat ind) (loss_row l) in
  let opt_fun := λ w_flattened,
    loss_weights_target_LDS self w_flattened A_target zeta alpha beta gamma in
  let opt_grad := λ w_flattened,
    gradient_weights_target_LDS self w_flattened A_target zeta alpha beta gamma in
  let bounds := nonnegative_bounds (length w0) in
  let* w := minimize opt_fun w_old opt_grad bounds in
  let* row := broadcast_row (N_weights self) w in
  let* w_all := set_item w_all (Z.of_nat ind) row in
  ret (w, Some w, loss_W, w_all).

(** Lines 81-124.  The result is [(W0, W, loss_W, w_all)]. *)
Definition generate_or_initialize_weights_from_dynamics_LDS
  (self : EI_subspace_RNN float) (A_target : matrix float) (R : float)
  (zeta_alpha_beta_gamma_list : list (float * float * float * float))
  : result (matrix float * matrix float * matrix float * matrix float) :=
  let* projected := alternating_projection self R in
  let w0 := projected.1 in
  let W0 := projected.2 in
  let n := Z.of_nat (length zeta_alpha_beta_gamma_list) in
  let* w_all := np_zeros n (N_weights self) in
  let* loss_W := np_zeros (n + 1) 3 in
  let* st :=
    for_each (range n) (refinement_step self A_target zeta_alpha_beta_gamma_list w0)
      (w0, None, loss_W, w_all) in
  match st.1.1.2 with
  | None => raise UnboundLocalError
  | Some w =>
      let* l := check_loss_weights_LDS self w A_target in
      let* loss_W := set_item st.1.2 (-1) (loss_row l) in
      let* W := build_full_weight_matrix self w in
      ret (W0, W, loss_W, st.2)
  end.

End Initializer.

(** ** Instances for the EM loop and the initializer *)

(** What the constructor returns for [N_e = 1], [N_i = 2], [sparsity = 0.75],
    [J = J_float] and the counting stream from 5. *)
Definition dense_triple : EI_subspace_RNN spec_float :=
  {| N_e := 1; N_i := 2; sparsity := float_0_75; J := J_float; K := 1; N := 3;
     N_weights := 6; w_ind := [0; 4; 8; 5; 6; 7];
     w_ind_unravel := [(0, 0); (1, 1); (2, 2); (1, 2); (2, 0); (2, 1)];
     w_ind_pos := [0; 6]; w_ind_neg := [4; 8; 5; 7] |}.

Definition parameters_float : closed_forms spec_float :=
  {| cf_b := b_float; cf_s := float_1_0; cf_mu0 := [[float_0_25]]; cf_Q0 := [[float_1_0]];
     cf_C_ := [[float_1_0]]; cf_d := [[float_0_25]]; cf_R := [[float_1_0]] |}.

(** An optimizer that only moves its starting point into a box of lower
    bounds; it refuses any other box, and bounds that do not match the
    starting point in number. *)
Definition clip (x : spec_float) (bd : spec_float * option spec_float) : spec_float :=
  if SFleb bd.1 x then x else bd.1.

Definition minimize_by_clipping (fn : list spec_float → result spec_float)
  (x0 : list spec_float) (jac : list spec_float → result (list spec_float))
  (bounds : list (spec_float * option spec_float)) : result (list spec_float) :=
  if bool_decide (length x0 = length bounds)
       && forallb (λ bd, SFleb bd.1 bd.1 && bool_decide (bd.2 = None)) bounds
  then ret (zip_with clip x0 bounds)
  else raise ValueError.

(** An M-step that returns [parameters_float], and objectives that are
    constant. *)
Definition M_step_float (self : EI_subspace_RNN spec_float)
  (y : list (list (matrix spec_float))) (w : list spec_float)
  (stats : e_statistics spec_float) : result (closed_forms spec_float) :=
  ret parameters_float.

Definition check_loss_float (self : EI_subspace_RNN spec_float) (w : list spec_float)
  (b : drive spec_float) (s : spec_float) (stats : e_statistics spec_float)
  : result (spec_float * spec_float * spec_float) :=
  ret (s, zero, zero).

Definition loss_float (self : EI_subspace_RNN spec_float) (w : list spec_float)
  (s : spec_float) (b : drive spec_float) (stats : e_statistics spec_float)
  (alpha beta : spec_float) : result spec_float :=
  ret zero.

Definition gradient_float (self : EI_subspace_RNN spec_float) (w : list spec_float)
  (s : spec_float) (b : drive spec_float) (stats : e_statistics spec_float)
  (alpha beta : spec_float) : result (list spec_float) :=
  ret (replicate (length w) zero).

Definition check_loss_LDS_float (self : EI_subspace_RNN spec_float) (w : list spec_float)
  (A_target : matrix spec_float) : result (spec_float * spec_float * spec_float) :=
  ret (zero, zero, zero).

Definition loss_LDS_float (self : EI_subspace_RNN spec_float) (w : list spec_float)
  (A_target : matrix spec_float) (zeta alpha beta gamma : spec_float) : result spec_float :=
  ret zero.

Definition gradient_LDS_float (self : EI_subspace_RNN spec_float) (w : list spec_float)
  (A_target : matrix spec_float) (zeta alpha beta gamma : spec_float)
  : result (list spec_float) :=
  ret (replicate (length w) zero).

(** The literal [0.85]. *)
Definition float_0_85 : spec_float := S754_finite false 7656119366529843 (-53).


(** Smoothed statistics of one trial of two steps, and a small noise
    scale [s = 2 ** -60], in float64. *)
Definition m_float : list (list (matrix spec_float)) := [[[[float_1_0]]; [[float_0_75]]]].

Definition cov_float : list (list (matrix spec_float)) := [[[[float_1_0]]; [[float_1_0]]]].

Definition cov_next_float : list (list (matrix spec_float)) := [[[[float_0_25]]]].

Definition float_2_pow_minus_60 : spec_float := S754_finite false 4503599627370496 (-112).

Definition float_3_0 : spec_float := S754_finite false 6755399441055744 (-51).

(** ** Notions used to state further properties *)

(** The distinct values of the drawn array that the index list does not
    hold yet. *)
Definition fresh_values (rand w_ind : list Z) : gset Z :=
  list_to_set rand ∖ list_to_set w_ind.

(** A stream that draws the same value every time. *)
Definition constant_integers (value : Z) (seed low high size : Z) : list Z :=
  replicate (Z.to_nat size) value.

(** ** The loss diagnostics and the gradients *)

Section Diagnostics.
Context {F : Type} `{Arith F}.

Variable inv : matrix F → result (matrix F).            (* [np.linalg.inv] *)
Variable pinv : matrix F → matrix F.                    (* [np.linalg.pinv] *)
Variable build_dynamics_matrix_A : matrix F → matrix F → matrix F.

Infix "×" := np_matmul (at level 40, left associativity).
Infix "⊞" := np_add (at level 50, left associativity).
Infix "⊟" := np_subtract (at level 50, left associativity).

(** [- X]. *)
Definition np_negative (X : matrix F) : matrix F := (λ row : list F, opp <$> row) <$> X.

(** [0.5 * np.ones((N,1)).T @ W.T @ W @ np.ones((N,1))], lines 452 and 483:
    a [1 x 1] array. *)
Definition row_sum_energy (self : EI_subspace_RNN F) (W : matrix F) : matrix F :=
  np_scale half (np_transpose (np_ones (N self) 1)) × np_transpose W × W × np_ones (N self) 1.

(** Lines 443-454. *)
Definition check_loss_weights_LDS (self : EI_subspace_RNN F) (w_flattened : list F)
  (A_target : matrix F) : result (F * F * F) :=
  let* w := reshape_column self w_flattened in
  let* W := build_full_weight_matrix self w in
  let A := build_dynamics_matrix_A W (J self) in
  let res := A ⊟ A_target in
  let Jpinv_aux := Jpinv_aux pinv self W in
  let loss1_W := (half * np_trace (res × np_transpose res))%A in
  let loss2_W := (half * np_trace (Jpinv_aux × np_transpose Jpinv_aux))%A in
  let loss3_W := row_sum_energy self W in
  let* loss3 := get_entry loss3_W 0 0 in
  ret (loss1_W, loss2_W, loss3).

(** Lines 456-485. *)
Definition check_loss_weights (self : EI_subspace_RNN F) (w_flattened : list F)
  (b : drive F) (s : F) (m cov cov_next : list (list (matrix F))) : result (F * F * F) :=
  let* w := reshape_column self w_flattened in
  let* W := build_full_weight_matrix self w in
  let A := build_dynamics_matrix_A W (J self) in
  let* stats := transition_statistics self b m cov cov_next in
  let* J_aux := inv (J self × np_transpose (J self)) in
  let Jpinv_aux := Jpinv_aux pinv self W in
  let loss1_W := likelihood_term A J_aux s stats in
  let loss2_W := (half * np_trace (Jpinv_aux × np_transpose Jpinv_aux))%A in
  let loss3_W := row_sum_energy self W in
  let* loss3 := get_entry loss3_W 0 0 in
  ret (loss1_W, loss2_W, loss3).

(** [alpha * self.J.T @ Jpinv_aux + beta * W @ ones @ ones.T], added to the
    gradient at lines 373-374 and 438-439: [*] and [@] associate to the
    left, so each scalar multiplies the first factor. *)
Definition penalty_gradient (self : EI_subspace_RNN F) (W : matrix F) (alpha beta : F)
  (grad_W : matrix F) : matrix F :=
  let grad_W := grad_W ⊞ np_scale alpha (np_transpose (J self)) × Jpinv_aux pinv self W in
  grad_W ⊞ np_scale beta W × np_ones (N self) 1 × np_transpose (np_ones (N self) 1).

(** Lines 361-377. *)
Definition gradient_weights_target_LDS (self : EI_subspace_RNN F) (w_flattened : list F)
  (A_target : matrix F) (zeta alpha beta gamma : F) : result (list F) :=
  let* w := reshape_column self w_flattened in
  let* W := build_full_weight_matrix self w in
  let A := build_dynamics_matrix_A W (J self) in
  let res := A ⊟ A_target in
  let grad_W := np_scale zeta (np_transpose (J self)) × res × np_transpose (pinv (J self)) in
  let grad_W := penalty_gradient self W alpha beta grad_W in
  let grad_W := grad_W ⊞ np_scale gamma W in
  get_nonzero_weight_vector self grad_W.

(** Lines 414-441.  [-1/s] is [(-1) / s], and
    [- aux - A @ M1_T1 + M_next.T] is [((- aux) - A @ M1_T1) + M_next.T]. *)
Definition gradient_weights_M_step (self : EI_subspace_RNN F) (w_flattened : list F)
  (s : F) (b : drive F) (m cov cov_next : list (list (matrix F))) (alpha beta : F)
  : result (list F) :=
  let* W := build_full_weight_matrix self w_flattened in
  let A := build_dynamics_matrix_A W (J self) in
  let* stats := transition_statistics self b m cov cov_next in
  let* J_aux := inv (J self × np_transpose (J self)) in
  let M1_T1 := stats.1.1 in
  let M_next := stats.1.2 in
  let aux := stats.2 in
  let grad_W :=
    np_scale (opp one / s)%A (np_transpose (J self)) × J_aux
      × (np_negative aux ⊟ A × M1_T1 ⊞ np_transpose M_next)
      × np_transpose (pinv (J self)) in
  let grad_W := penalty_gradient self W alpha beta grad_W in
  get_nonzero_weight_vector self grad_W.

End Diagnostics.

(** What the constructor returns for [N_e = N_i = 1], [sparsity = 1.0],
    [J = J_rational] and the counting stream from 0. *)
Definition full_pair_rational : EI_subspace_RNN Qc :=
  {| N_e := 1; N_i := 1; sparsity := float_1_0; J := J_rational; K := 1; N := 2;
     N_weights := 4; w_ind := [0; 3; 1; 2];
     w_ind_unravel := [(0, 0); (1, 1); (0, 1); (1, 0)];
     w_ind_pos := [0; 2]; w_ind_neg := [3; 1] |}.

(** ** The noise covariance of the network *)

(** [np.diag(v)] for a vector [v]. *)
Definition np_diag {F : Type} `{Scalar F} (v : list F) : matrix F :=
  imap (λ i x, <[i := x]> (replicate (length v) zero)) v.

(** Line 136, [np.diag(s * np.ones((self.N)))], as a function of [s] and
    [N]. *)
Definition build_network_covariance {F : Type} `{Arith F} (s : F) (N : Z) : matrix F :=
  np_diag (fmul s <$> replicate (Z.to_nat N) one).

(** * Proofs *)

(** ** The result monad *)

Lemma bind_inr {A B : Type} (m : result A) (k : A → result B) (b : B) :
  bind m k = inr b ↔ ∃ a, m = inr a ∧ k a = inr b.
Proof.
  destruct m as [e|a]; simpl; split.
  - discriminate.
  - intros (a & Ha & _). discriminate.
  - eauto.
  - intros (a' & Ha & Hk). by simplify_eq.
Qed.

Lemma bind_inl {A B : Type} (m : result A) (k : A → result B) (e : exn) :
  bind m k = inl e ↔ m = inl e ∨ ∃ a, m = inr a ∧ k a = inl e.
Proof.
  destruct m as [e'|a]; simpl; split.
  - intros [= ->]. by left.
  - intros [[= ->]|(a & Ha & _)]; [done | discriminate].
  - eauto.
  - intros [Hm|(a' & Ha & Hk)]; [discriminate | by simplify_eq].
Qed.

Lemma subscript_inr {A : Type} (l : list A) (i : nat) (x : A) :
  subscript l i = inr x ↔ l !! i = Some x.
Proof. unfold subscript. destruct (l !! i); simpl; unfold ret, raise; naive_solver. Qed.

(** ** Facts about the constructor *)

Lemma for_each_app {I S : Type} (l1 l2 : list I) (body : I → S → result S) (s : S) :
  for_each (l1 ++ l2) body s = let* s' := for_each l1 body s in for_each l2 body s'.
Proof.
  revert s. induction l1 as [|i l1 IH]; intros s; simpl; [done|].
  destruct (body i s) as [e|s1]; simpl; [done | apply IH].
Qed.

Lemma range_S (n : nat) : range (Z.of_nat (S n)) = range (Z.of_nat n) ++ [n].
Proof. unfold range. rewrite !Nat2Z.id. by rewrite seq_S. Qed.

Lemma range_nat (n : Z) : range n = range (Z.of_nat (Z.to_nat n)).
Proof. unfold range. by rewrite Nat2Z.id. Qed.

Lemma map_result_inr {A B : Type} (f : A → result B) (l : list A) (ys : list B) :
  map_result f l = inr ys ↔ Forall2 (λ x y, f x = inr y) l ys.
Proof.
  revert ys. induction l as [|x l IH]; intros ys; simpl.
  - unfold ret. split.
    + intros [= <-]. constructor.
    + intros Hnil. by inversion Hnil.
  - rewrite bind_inr. split.
    + intros (y & Hy & Hrest). apply bind_inr in Hrest as (ys' & Hys' & [= <-]).
      constructor; [done | by apply IH].
    + intros Hcons. inversion Hcons as [|? y ? ys' Hy Hrest]; subst.
      exists y. split; [done|]. apply bind_inr. exists ys'. split; [by apply IH | done].
Qed.

Lemma length_diagonal_indices (n : Z) : length (diagonal_indices n) = Z.to_nat n.
Proof. unfold diagonal_indices. by rewrite length_fmap, length_seqZ. Qed.

Lemma elem_of_diagonal_indices (n x : Z) :
  x ∈ diagonal_indices n ↔ ∃ i, 0 ≤ i < n ∧ x = n * i + i.
Proof.
  unfold diagonal_indices. rewrite list_elem_of_fmap. split.
  - intros (i & -> & Hi). apply elem_of_seqZ in Hi. exists i. split; [lia | done].
  - intros (i & Hi & ->). exists i. split; [done|]. apply elem_of_seqZ. lia.
Qed.

Lemma NoDup_diagonal_indices (n : Z) : NoDup (diagonal_indices n).
Proof.
  unfold diagonal_indices. apply NoDup_fmap_2_strong; [|apply NoDup_seqZ].
  intros i j Hi Hj Heq. apply elem_of_seqZ in Hi, Hj. nia.
Qed.

(** What a completed run of the while loop appended. *)
Lemma draw_while_inr (rand w : list Z) (count target : Z) (w' : list Z) :
  draw_while rand w count target = inr w' →
  ∃ extra, w' = w ++ extra
    ∧ Z.of_nat (length extra) = Z.max 0 (target - count)
    ∧ (NoDup w → NoDup w')
    ∧ ∀ x, x ∈ extra → (x ∉ w) ∧ (x ∈ rand).
Proof.
  revert w count. induction rand as [|r rand IH]; intros w count; simpl.
  - case_bool_decide as Hlt; [discriminate|]. intros [= <-].
    exists []. rewrite app_nil_r. simpl. split_and!; [done | lia | done |].
    intros x Hx. by apply elem_of_nil in Hx.
  - case_bool_decide as Hlt.
    + case_bool_decide as Hnew.
      * intros Hrun. apply IH in Hrun as (extra & Hw' & Hlen & Hnodup & Hin).
        exists (r :: extra). rewrite <- app_assoc in Hw'. simpl in Hw'.
        split_and!; [done | simpl length; lia | |].
        -- intros Hw. apply Hnodup. apply NoDup_app. split_and!; [done | | apply NoDup_singleton].
           intros x Hx Hxr. apply list_elem_of_singleton in Hxr. by subst.
        -- intros x Hx. apply elem_of_cons in Hx as [->|Hx].
           ++ split; [done | left].
           ++ apply Hin in Hx as [Hxw Hxr]. split; [|by right].
              intros Hxw'. apply Hxw. apply elem_of_app. by left.
      * intros Hrun. apply IH in Hrun as (extra & Hw' & Hlen & Hnodup & Hin).
        exists extra. split_and!; [done | lia | done |].
        intros x Hx. apply Hin in Hx as [Hxw Hxr]. split; [done | by right].
    + intros [= <-]. exists []. rewrite app_nil_r. simpl.
      split_and!; [done | lia | done |].
      intros x Hx. by apply elem_of_nil in Hx.
Qed.

Lemma draw_while_done (rand w : list Z) (count target : Z) :
  target ≤ count → draw_while rand w count target = inr w.
Proof. intros Hle. destruct rand; simpl; by rewrite bool_decide_eq_false_2 by lia. Qed.

(** The sign-class loop keeps, of the first [n] indices, those of each
    column class, in order. *)
Lemma classify_inr (N_e cols : Z) (w_ind : list Z) (unr : list (Z * Z)) (n : nat)
  (classes : list Z * list Z) :
  Forall2 (λ x rc, rc.2 = x `mod` cols) w_ind unr →
  for_each (range (Z.of_nat n)) (classify_step N_e w_ind unr) ([], []) = inr classes →
  classes.1 = filter (λ x, x `mod` cols ≤ N_e - 1) (take n w_ind)
  ∧ classes.2 = filter (λ x, N_e ≤ x `mod` cols) (take n w_ind).
Proof.
  intros Hunr. revert classes. induction n as [|n IH]; intros classes.
  - simpl. intros [= <-]. by rewrite take_0.
  - rewrite range_S, for_each_app. intros Hrun.
    apply bind_inr in Hrun as (mid & Hmid & Hstep).
    apply IH in Hmid as [Hpos Hneg]. simpl in Hstep.
    apply bind_inr in Hstep as (classes' & Hstep & [= <-]).
    unfold classify_step in Hstep.
    apply bind_inr in Hstep as (rc & Hrc & Hstep). apply subscript_inr in Hrc.
    destruct (Forall2_lookup_r _ _ _ _ _ Hunr Hrc) as (x & Hx & Hcol).
    rewrite (take_S_r _ _ _ Hx), !filter_app.
    assert (Hsub : subscript w_ind n = inr x) by by apply subscript_inr.
    rewrite Hsub in Hstep. simpl in Hstep. rewrite Hcol in Hstep.
    case_bool_decide as Hexc.
    + injection Hstep as <-. simpl. rewrite Hpos, Hneg.
      rewrite (filter_cons_True _ x) by done.
      rewrite (filter_cons_False (λ y, N_e ≤ y `mod` cols) x) by lia.
      by rewrite !filter_nil, app_nil_r.
    + case_bool_decide as Hinh; [|lia].
      injection Hstep as <-. simpl. rewrite Hpos, Hneg.
      rewrite (filter_cons_False _ x) by done.
      rewrite (filter_cons_True (λ y, N_e ≤ y `mod` cols) x) by done.
      by rewrite !filter_nil, app_nil_r.
Qed.

Lemma __init___ok {F : Type} (integers : Z → Z → Z → Z → list Z) (N_e0 N_i0 : Z)
  (sparsity0 : spec_float) (J0 : matrix F) (seed : Z) (self : EI_subspace_RNN F) :
  0 < N_e0 → 0 < N_i0 →
  __init__ integers N_e0 N_i0 sparsity0 J0 seed = inr self →
  topology_ok self
  ∧ N_e self = N_e0 ∧ N_i self = N_i0 ∧ sparsity self = sparsity0 ∧ J self = J0.
Proof.
  intros He Hi Hinit. unfold __init__ in Hinit.
  apply bind_inr in Hinit as (nw & Hnw & Hinit).
  apply bind_inr in Hinit as (wi & Hdraw & Hinit).
  apply bind_inr in Hinit as (unr & Hunr & Hinit).
  apply bind_inr in Hinit as (classes & Hcls & [= <-]).
  apply draw_while_inr in Hdraw as (extra & -> & Hlen & Hnodup & Hextra).
  apply map_result_inr in Hunr.
  assert (Hunr' : Forall2 (λ x rc, 0 ≤ x < (N_e0 + N_i0) * (N_e0 + N_i0)
      ∧ rc = (x `div` (N_e0 + N_i0), x `mod` (N_e0 + N_i0)))
      (diagonal_indices (N_e0 + N_i0) ++ extra) unr).
  { eapply Forall2_impl; [exact Hunr|]. intros x rc Hrc. unfold unravel_index in Hrc.
    case_bool_decide; [|discriminate]. by injection Hrc as <-. }
  rewrite range_nat in Hcls.
  apply (classify_inr _ (N_e0 + N_i0)) in Hcls as [Hpos Hneg].
  2:{ eapply Forall2_impl; [exact Hunr'|]. by intros x rc [_ ->]. }
  split; [|done]. constructor; simpl; try done.
  - rewrite length_app, length_diagonal_indices. lia.
  - by rewrite take_app_length' by by rewrite length_diagonal_indices.
  - apply Hnodup, NoDup_diagonal_indices.
  - intros x. rewrite drop_app_length' by by rewrite length_diagonal_indices.
    intros Hx. by apply Hextra in Hx as [Hx _].
Qed.

Lemma off_diagonal (n x : Z) :
  0 < n → 0 ≤ x < n * n → x ∉ diagonal_indices n → x `div` n ≠ x `mod` n.
Proof.
  intros Hn Hx Hnot Heq. apply Hnot, elem_of_diagonal_indices.
  exists (x `mod` n). split; [apply Z.mod_pos_bound; lia|].
  rewrite <- Heq at 1. apply Z.div_mod. lia.
Qed.

(** C1, as amended.  Whenever the constructor returns (the while loop found
    enough fresh values before the end of the drawn array), [N_weights] is
    [int(sparsity * N ** 2)] (truncation), the index list starts with the [N]
    diagonal indices, has no repetition and stays inside the [N * N] shape;
    when [N <= N_weights] it has exactly [N_weights] entries, the
    [N_weights - N] after the diagonal being off the diagonal; when
    [N_weights < N] it is the diagonal alone.  For [N_e = 4], [N_i = 2],
    [sparsity = 1.0] it has 36 entries, the 6 diagonal ones among them. *)
Theorem topology_index_list {F : Type} (integers : Z → Z → Z → Z → list Z)
  (N_e0 N_i0 : Z) (sparsity0 : spec_float) (J0 : matrix F) (seed : Z)
  (self : EI_subspace_RNN F) :
  0 < N_e0 → 0 < N_i0 →
  __init__ integers N_e0 N_i0 sparsity0 J0 seed = inr self →
  N self = N_e0 + N_i0
  ∧ compute_N_weights sparsity0 (N self) = inr (N_weights self)
  ∧ take (Z.to_nat (N self)) (w_ind self) = diagonal_indices (N self)
  ∧ NoDup (w_ind self)
  ∧ (∀ x, x ∈ w_ind self → 0 ≤ x < N self * N self)
  ∧ (N self ≤ N_weights self →
       Z.of_nat (length (w_ind self)) = N_weights self
       ∧ Z.of_nat (length (drop (Z.to_nat (N self)) (w_ind self))) = N_weights self - N self
       ∧ ∀ x, x ∈ drop (Z.to_nat (N self)) (w_ind self) → x `div` N self ≠ x `mod` N self)
  ∧ (N_weights self < N self → w_ind self = diagonal_indices (N self))
  ∧ (N_e0 = 4 → N_i0 = 2 → sparsity0 = float_1_0 →
       N_weights self = 36 ∧ length (w_ind self) = 36%nat
       ∧ ∀ i, 0 ≤ i < 6 → 6 * i + i ∈ w_ind self).
Proof.
  intros He Hi Hinit.
  destruct (__init___ok _ _ _ _ _ _ _ He Hi Hinit) as (Hok & HNe & HNi & Hsp & _).
  destruct Hok as [_ _ HN Hnw Hlen Hdiag Hnodup Hdrawn Hunr _ _ _].
  rewrite HNe, HNi in HN. rewrite Hsp in Hnw.
  assert (Hrange : ∀ x, x ∈ w_ind self → 0 ≤ x < N self * N self).
  { intros x Hx. apply list_elem_of_lookup in Hx as [i Hi'].
    by destruct (Forall2_lookup_l _ _ _ _ _ Hunr Hi') as (rc & _ & Hx & _). }
  split_and!; try done.
  - intros Hle. split_and!.
    + lia.
    + rewrite length_drop. lia.
    + intros x Hx. apply off_diagonal; [lia | | by apply Hdrawn].
      apply Hrange. rewrite <- (take_drop (Z.to_nat (N self)) (w_ind self)).
      apply elem_of_app. by right.
  - intros Hlt. rewrite <- Hdiag. symmetry. apply take_ge. lia.
  - intros -> -> ->.
    assert (Hfull : compute_N_weights float_1_0 (4 + 2) = inr 36) by (vm_compute; reflexivity).
    rewrite HN, Hfull in Hnw. injection Hnw as Hnw.
    split_and!; [done | lia |].
    intros i Hi6. assert (Hmem : 6 * i + i ∈ diagonal_indices (N self)).
    { apply elem_of_diagonal_indices. exists i. rewrite HN. split; [lia | done]. }
    rewrite <- Hdiag in Hmem. apply elem_of_take in Hmem as (k & Hk & _).
    by apply list_elem_of_lookup_2 in Hk.
Qed.

(** The constructor returns on the counting stream for the 4 + 2 network at
    full density, and the theorem applies to what it returns. *)
Lemma topology_index_list_witness :
  ∃ self : EI_subspace_RNN unit,
    __init__ counting_integers 4 2 float_1_0 [] 0 = inr self
    ∧ Z.of_nat (length (w_ind self)) = 36 ∧ NoDup (w_ind self).
Proof.
  eexists. split; [vm_compute; reflexivity|].
  pose proof (topology_index_list (F := unit) counting_integers 4 2 float_1_0 [] 0 _
    ltac:(lia) ltac:(lia) ltac:(vm_compute; reflexivity)) as (_ & _ & _ & Hnodup & _ & Hfull & _).
  split; [|exact Hnodup].
  apply Hfull. vm_compute. discriminate.
Defined.

(** C1 as stated fails.  With [N_e = N_i = 1] and [sparsity = 0.25] the
    constructor returns, whatever the stream, with [N_weights = 1] and the two
    diagonal indices in [w_ind]: two entries, not [N_weights].  And
    [int(0.75 * 3 ** 2)] is 6 where rounding 6.75 gives 7. *)
Lemma topology_index_list_counterexample :
  (∀ (integers : Z → Z → Z → Z → list Z) (seed : Z),
     ∃ self : EI_subspace_RNN unit,
       __init__ integers 1 1 float_0_25 [] seed = inr self
       ∧ N_weights self = 1 ∧ w_ind self = [0; 3]
       ∧ Z.of_nat (length (w_ind self)) ≠ N_weights self)
  ∧ compute_N_weights float_0_75 (1 + 2) = inr 6.
Proof.
  split; [|by vm_compute].
  intros integers seed. eexists. split.
  - unfold __init__.
    assert (Hnw : compute_N_weights float_0_25 (1 + 1) = inr 1) by (vm_compute; reflexivity).
    rewrite Hnw. simpl bind. rewrite draw_while_done by lia. reflexivity.
  - simpl. split_and!; [done | done | lia].
Qed.

(** ** Arrays *)

Lemma for_each_range_inv {S : Type} (P : nat → S → Prop) (n : nat)
  (body : nat → S → result S) (s : S) :
  P 0%nat s →
  (∀ k st, (k < n)%nat → P k st → ∃ st', body k st = inr st' ∧ P (Datatypes.S k) st') →
  ∃ s', for_each (range (Z.of_nat n)) body s = inr s' ∧ P n s'.
Proof.
  intros H0 Hstep. induction n as [|n IH].
  - exists s. by split.
  - destruct IH as (mid & Hmid & HP); [intros k st Hk; apply Hstep; lia|].
    destruct (Hstep n mid) as (s' & Hs' & HP'); [lia | done |].
    exists s'. split; [|done].
    rewrite range_S, for_each_app, Hmid. simpl. by rewrite Hs'.
Qed.

Lemma np_index_inr (len : nat) (i : nat) :
  (i < len)%nat → np_index len (Z.of_nat i) = inr i.
Proof.
  intros Hi. unfold np_index. rewrite bool_decide_eq_true_2 by lia.
  unfold ret. by rewrite Nat2Z.id.
Qed.

Lemma get_item_inr {A : Type} (l : list A) (i : nat) (x : A) :
  l !! i = Some x → get_item l (Z.of_nat i) = inr x.
Proof.
  intros Hx. unfold get_item. rewrite np_index_inr by by eapply lookup_lt_Some.
  simpl. by apply subscript_inr.
Qed.

Lemma set_item_inr {A : Type} (l : list A) (i : nat) (x : A) :
  (i < length l)%nat → set_item l (Z.of_nat i) x = inr (<[i := x]> l).
Proof. intros Hi. unfold set_item. by rewrite np_index_inr. Qed.

Lemma get_entry_inr {F : Type} (W : matrix F) (r c : nat) (v : F) :
  entry W r c = Some v → get_entry W (Z.of_nat r) (Z.of_nat c) = inr v.
Proof.
  unfold entry, get_entry. destruct (W !! r) as [row|] eqn:Hrow; simpl; [|done].
  intros Hv. rewrite (get_item_inr _ _ _ Hrow). simpl. by apply get_item_inr.
Qed.

Lemma square_entry {F : Type} (n : nat) (W : matrix F) (r c : nat) :
  square n W → (r < n)%nat → (c < n)%nat → is_Some (entry W r c).
Proof.
  intros [Hlen Hrows] Hr Hc. unfold entry.
  destruct (lookup_lt_is_Some_2 W r) as [row Hrow]; [lia|].
  rewrite Hrow. simpl. apply lookup_lt_is_Some_2.
  rewrite Forall_lookup in Hrows. rewrite (Hrows _ _ Hrow). lia.
Qed.

Lemma entry_lt {F : Type} (n : nat) (W : matrix F) (r c : nat) (v : F) :
  square n W → entry W r c = Some v → (r < n)%nat ∧ (c < n)%nat.
Proof.
  intros [Hlen Hrows] Hv. unfold entry in Hv.
  destruct (W !! r) as [row|] eqn:Hrow; simpl in Hv; [|done].
  rewrite Forall_lookup in Hrows. specialize (Hrows _ _ Hrow).
  apply lookup_lt_Some in Hrow, Hv. lia.
Qed.

Lemma set_entry_inr {F : Type} (n : nat) (W : matrix F) (r c : nat) (v : F) :
  square n W → (r < n)%nat → (c < n)%nat →
  ∃ W', set_entry W (Z.of_nat r) (Z.of_nat c) v = inr W'
    ∧ square n W'
    ∧ entry W' r c = Some v
    ∧ ∀ r' c', (r', c') ≠ (r, c) → entry W' r' c' = entry W r' c'.
Proof.
  intros [Hlen Hrows] Hr Hc.
  destruct (lookup_lt_is_Some_2 W r) as [row Hrow]; [lia|].
  assert (Hrowlen : length row = n).
  { rewrite Forall_lookup in Hrows. by apply (Hrows r). }
  exists (<[r := <[c := v]> row]> W). split_and!.
  - unfold set_entry. rewrite (get_item_inr _ _ _ Hrow). simpl.
    rewrite set_item_inr by lia. simpl. apply set_item_inr. lia.
  - split; [by rewrite length_insert|].
    apply Forall_insert; [done|]. by rewrite length_insert.
  - unfold entry. rewrite list_lookup_insert_eq by lia. simpl.
    apply list_lookup_insert_eq. lia.
  - intros r' c' Hne. unfold entry.
    destruct (decide (r' = r)) as [Heq|Hr'].
    + subst r'. rewrite list_lookup_insert_eq by lia. rewrite Hrow. simpl.
      apply list_lookup_insert_ne. congruence.
    + by rewrite list_lookup_insert_ne by done.
Qed.

Lemma np_zeros_inr {F : Type} `{Scalar F} (n : Z) :
  0 ≤ n →
  ∃ W : matrix F, np_zeros n n = inr W ∧ square (Z.to_nat n) W
    ∧ ∀ r c, (r < Z.to_nat n)%nat → (c < Z.to_nat n)%nat → entry W r c = Some zero.
Proof.
  intros Hn. unfold np_zeros. rewrite bool_decide_eq_false_2 by lia.
  eexists. split_and!; [done | |].
  - split; [by rewrite length_replicate|].
    apply Forall_replicate. by rewrite length_replicate.
  - intros r c Hr Hc. unfold entry.
    rewrite lookup_replicate_2 by done. simpl. by apply lookup_replicate_2.
Qed.

(** ** The codec on a constructed instance *)

Section CodecFacts.
Context {F : Type} `{Scalar F}.
Variable self : EI_subspace_RNN F.
Hypothesis Hok : topology_ok self.

Lemma N_positive : 0 < N self.
Proof. destruct Hok. lia. Qed.

Lemma active_lookup (ind : nat) :
  (ind < Z.to_nat (N_weights self))%nat → is_Some (w_ind self !! ind).
Proof. intros Hind. apply lookup_lt_is_Some_2. destruct Hok. lia. Qed.

Lemma unravel_lookup (ind : nat) (x : Z) :
  w_ind self !! ind = Some x →
  0 ≤ x < N self * N self
  ∧ w_ind_unravel self !! ind = Some (x `div` N self, x `mod` N self).
Proof.
  intros Hx. destruct Hok as [_ _ _ _ _ _ _ _ Hunr _ _ _].
  destruct (Forall2_lookup_l _ _ _ _ _ Hunr Hx) as (rc & Hrc & Hrange & ->). done.
Qed.

Lemma position_bounds (x : Z) :
  0 ≤ x < N self * N self →
  Z.of_nat (row_of self x) = x `div` N self ∧ Z.of_nat (col_of self x) = x `mod` N self
  ∧ (row_of self x < Z.to_nat (N self))%nat ∧ (col_of self x < Z.to_nat (N self))%nat.
Proof.
  intros Hx. pose proof N_positive as HN. unfold row_of, col_of.
  assert (0 ≤ x `div` N self < N self).
  { split; [apply Z.div_pos; lia | apply Z.div_lt_upper_bound; lia]. }
  assert (0 ≤ x `mod` N self < N self) by (apply Z.mod_pos_bound; lia).
  lia.
Qed.

Lemma position_inj (x y : Z) :
  0 ≤ x < N self * N self → 0 ≤ y < N self * N self →
  (row_of self x, col_of self x) = (row_of self y, col_of self y) → x = y.
Proof.
  intros Hx Hy Heq. injection Heq as Hr Hc. pose proof N_positive as HN.
  destruct (position_bounds x Hx) as (Hrx & Hcx & _).
  destruct (position_bounds y Hy) as (Hry & Hcy & _).
  rewrite (Z.div_mod x (N self)), (Z.div_mod y (N self)) by lia.
  rewrite <- Hrx, <- Hcx, <- Hry, <- Hcy, Hr, Hc. done.
Qed.

(** Membership in a sign class is the column test, for every index the
    loops visit. *)
Lemma class_membership (ind : nat) (x : Z) :
  (ind < Z.to_nat (N_weights self))%nat → w_ind self !! ind = Some x →
  (x ∈ w_ind_pos self ↔ x `mod` N self ≤ N_e self - 1)
  ∧ (x ∈ w_ind_neg self ↔ N_e self ≤ x `mod` N self).
Proof.
  intros Hind Hx. destruct Hok as [_ _ _ _ _ _ _ _ _ -> -> _].
  assert (Hin : x ∈ take (Z.to_nat (N_weights self)) (w_ind self)).
  { apply elem_of_take. eauto. }
  rewrite !list_elem_of_filter. split; (split; [by intros [? _] | by intros ?]).
Qed.

Lemma flat_position (x : Z) (r c : nat) :
  0 ≤ x < N self * N self →
  (row_of self x, col_of self x) = (r, c) → x = N self * Z.of_nat r + Z.of_nat c.
Proof.
  intros Hx Heq. injection Heq as <- <-. pose proof N_positive as HN.
  destruct (position_bounds x Hx) as (-> & -> & _). apply Z.div_mod. lia.
Qed.

Lemma position_flat (r c : nat) :
  (r < Z.to_nat (N self))%nat → (c < Z.to_nat (N self))%nat →
  0 ≤ N self * Z.of_nat r + Z.of_nat c < N self * N self
  ∧ row_of self (N self * Z.of_nat r + Z.of_nat c) = r
  ∧ col_of self (N self * Z.of_nat r + Z.of_nat c) = c.
Proof.
  intros Hr Hc. pose proof N_positive as HN. unfold row_of, col_of.
  split; [nia|].
  assert (Hd : (N self * Z.of_nat r + Z.of_nat c) `div` N self = Z.of_nat r).
  { rewrite (Z.mul_comm (N self)), Z.div_add_l, Z.div_small by lia. lia. }
  assert (Hm : (N self * Z.of_nat r + Z.of_nat c) `mod` N self = Z.of_nat c).
  { rewrite Z.add_comm, (Z.mul_comm (N self)), Z.mod_add by lia. apply Z.mod_small. lia. }
  rewrite Hd, Hm. lia.
Qed.

(** A position none of the visited indices unravels to. *)
Lemma inactive_position (r c : nat) :
  N self * Z.of_nat r + Z.of_nat c ∉ active_indices self →
  ∀ ind x, (ind < Z.to_nat (N_weights self))%nat → w_ind self !! ind = Some x →
    (row_of self x, col_of self x) ≠ (r, c).
Proof.
  intros Hfree ind x Hind Hx Hpos. apply Hfree.
  apply flat_position in Hpos; [|by apply (unravel_lookup ind)].
  subst x. apply elem_of_take. eauto.
Qed.

Lemma active_position (x : Z) :
  x ∈ active_indices self →
  ∃ ind, (ind < Z.to_nat (N_weights self))%nat ∧ w_ind self !! ind = Some x.
Proof. intros Hx. apply elem_of_take in Hx as (ind & Hx & Hind). eauto. Qed.

Lemma extract_step_encoded (W : matrix F) (k : nat) (w : list F) :
  square (Z.to_nat (N self)) W →
  (k < Z.to_nat (N_weights self))%nat → encoded self W k w →
  ∃ w', extract_step self W k w = inr w' ∧ encoded self W (S k) w'.
Proof.
  intros Hsq Hk (Hlen & Hread).
  destruct (active_lookup k Hk) as [x Hx].
  destruct (unravel_lookup k x Hx) as [Hrange Hunr].
  destruct (position_bounds x Hrange) as (Hr & Hc & Hrlt & Hclt).
  destruct (class_membership k x Hk Hx) as [Hpos Hneg].
  destruct (square_entry _ W _ _ Hsq Hrlt Hclt) as [v Hv].
  exists (<[k := dale_sign self x v]> w). split.
  - unfold extract_step.
    rewrite (proj2 (subscript_inr _ _ _) Hx). simpl.
    rewrite (proj2 (subscript_inr _ _ _) Hunr). simpl.
    rewrite <- Hr, <- Hc, (get_entry_inr _ _ _ _ Hv). simpl.
    unfold dale_sign.
    destruct (decide (x `mod` N self ≤ N_e self - 1)) as [Hexc|Hinh].
    + rewrite (bool_decide_eq_true_2 (x ∈ w_ind_pos self)) by by apply Hpos.
      rewrite (bool_decide_eq_true_2 (x `mod` N self ≤ N_e self - 1)) by done.
      apply set_item_inr. lia.
    + rewrite (bool_decide_eq_false_2 (x ∈ w_ind_pos self)) by by rewrite Hpos.
      rewrite (bool_decide_eq_true_2 (x ∈ w_ind_neg self)) by (apply Hneg; lia).
      rewrite (bool_decide_eq_false_2 (x `mod` N self ≤ N_e self - 1)) by done.
      apply set_item_inr. lia.
  - split; [by rewrite length_insert|].
    intros ind y Hind Hy. destruct (decide (ind = k)) as [->|Hne].
    + simplify_eq. exists v. split; [done|]. apply list_lookup_insert_eq. lia.
    + rewrite list_lookup_insert_ne by done. apply Hread; [lia | done].
Qed.

(** On a matrix of shape [(N, N)] the encoding loop runs to its end. *)
Lemma get_nonzero_weight_vector_encoded (W : matrix F) :
  0 ≤ N_weights self →
  square (Z.to_nat (N self)) W →
  ∃ w, get_nonzero_weight_vector self W = inr w
       ∧ encoded self W (Z.to_nat (N_weights self)) w.
Proof.
  intros Hnw Hsq. unfold get_nonzero_weight_vector, np_zeros_column.
  rewrite bool_decide_eq_false_2 by lia. simpl. rewrite range_nat.
  apply (for_each_range_inv (encoded self W)).
  - split; [by rewrite length_replicate | intros; lia].
  - intros k st. by apply extract_step_encoded.
Qed.

Variable w : list F.
Hypothesis Hw : Z.of_nat (length w) = N_weights self.

Lemma build_step_decoded (k : nat) (W : matrix F) :
  (k < Z.to_nat (N_weights self))%nat → decoded self w k W →
  ∃ W', build_step self w k W = inr W' ∧ decoded self w (S k) W'.
Proof.
  intros Hk (Hsq & Hwritten & Hblank).
  destruct (active_lookup k Hk) as [x Hx].
  destruct (lookup_lt_is_Some_2 w k) as [v Hv]; [lia|].
  destruct (unravel_lookup k x Hx) as [Hrange Hunr].
  destruct (position_bounds x Hrange) as (Hr & Hc & Hrlt & Hclt).
  destruct (class_membership k x Hk Hx) as [Hpos Hneg].
  destruct (set_entry_inr _ W _ _ (dale_sign self x v) Hsq Hrlt Hclt)
    as (W' & Hset & Hsq' & Hnew & Hold).
  exists W'. split.
  - unfold build_step.
    rewrite (proj2 (subscript_inr _ _ _) Hx). simpl.
    rewrite (proj2 (subscript_inr _ _ _) Hv), (proj2 (subscript_inr _ _ _) Hunr). simpl.
    rewrite <- Hr, <- Hc. unfold dale_sign in Hset.
    destruct (decide (x `mod` N self ≤ N_e self - 1)) as [Hexc|Hinh].
    + rewrite bool_decide_eq_true_2 in Hset by done.
      by rewrite (bool_decide_eq_true_2 (x ∈ w_ind_pos self)) by by apply Hpos.
    + rewrite bool_decide_eq_false_2 in Hset by done.
      rewrite (bool_decide_eq_false_2 (x ∈ w_ind_pos self)) by by rewrite Hpos.
      by rewrite (bool_decide_eq_true_2 (x ∈ w_ind_neg self)) by (apply Hneg; lia).
  - split_and!; [done | |].
    + intros ind y u Hind Hy Hu. destruct (decide (ind = k)) as [->|Hne].
      * by simplify_eq.
      * rewrite Hold; [apply (Hwritten ind); [lia | done | done]|].
        intros Hsame. apply position_inj in Hsame;
          [|by apply (unravel_lookup ind) | done].
        subst y. destruct Hok as [_ _ _ _ _ _ Hnodup _ _ _ _ _].
        by pose proof (NoDup_lookup _ _ _ _ Hnodup Hy Hx).
    + intros r c Hrn Hcn Hfree. rewrite Hold.
      * apply Hblank; [done | done |]. intros ind y Hind. apply Hfree. lia.
      * intros Hsame. by apply (Hfree k x); [lia | |].
Qed.

(** On a vector of the right length the decoding loop runs to its end and
    writes, at the position of every visited index, the signed value. *)
Lemma build_full_weight_matrix_decoded :
  ∃ W, build_full_weight_matrix self w = inr W
       ∧ decoded self w (Z.to_nat (N_weights self)) W.
Proof.
  pose proof N_positive as HN.
  destruct (np_zeros_inr (F := F) (N self)) as (W0 & HW0 & Hsq & Hzero); [lia|].
  unfold build_full_weight_matrix. rewrite HW0. simpl.
  rewrite bool_decide_eq_false_2 by lia. rewrite range_nat.
  apply (for_each_range_inv (decoded self w)); [|intros k st; apply build_step_decoded].
  split_and!; [done | intros; lia |].
  intros r c Hr Hc _. by apply Hzero.
Qed.

End CodecFacts.

(** ** binary64 obeys the sign laws *)

Ltac float_cases x :=
  destruct x as [[]|[]| |[] ? ?]; unfold SFeqb, SFleb, SFltb, SFcompare; simpl;
  rewrite ?Z.compare_refl, ?Pos.compare_cont_refl; simpl.

#[global] Instance binary64_laws : DaleLaws spec_float.
Proof.
  split; unfold numeq, le, lt, zero, opp, binary64_scalar.
  - by intros [[]|[]| |[] ? ?].
  - done.
  - intros x; float_cases x; done.
  - intros x; float_cases x; done.
  - intros x; float_cases x; done.
  - intros x; float_cases x; intros [?|?]; done.
  - intros x; float_cases x; done.
  - intros x; float_cases x; intros ? Hne; try done; by destruct Hne.
  - intros x; float_cases x; done.
  - intros x; float_cases x; done.
  - intros x; float_cases x; (by left) || (by right).
Qed.

Lemma sparse_pair_constructed (integers : Z → Z → Z → Z → list Z) (seed : Z) :
  __init__ integers 1 1 float_0_25 [] seed = inr sparse_pair.
Proof.
  unfold __init__.
  assert (Hnw : compute_N_weights float_0_25 (1 + 1) = inr 1) by (vm_compute; reflexivity).
  rewrite Hnw. simpl bind. rewrite draw_while_done by lia. reflexivity.
Qed.

Lemma build_full_weight_matrix_bad_length {F : Type} `{Scalar F}
  (self : EI_subspace_RNN F) (w : list F) :
  topology_ok self → Z.of_nat (length w) ≠ N_weights self →
  build_full_weight_matrix self w = inl WeightsLengthMismatch.
Proof.
  intros Hok Hne. pose proof (N_positive self Hok) as HN.
  destruct (np_zeros_inr (F := F) (N self)) as (W0 & HW0 & _); [lia|].
  unfold build_full_weight_matrix. rewrite HW0. simpl.
  by rewrite bool_decide_eq_true_2.
Qed.

(** ** The codec's contracts *)

(** C8.  On every constructed instance [build_full_weight_matrix] raises the
    length exception exactly when the vector's length differs from
    [N_weights], as its first step; on every vector of that length, whatever
    its values, it returns a matrix of shape [(N, N)]. *)
Theorem build_full_weight_matrix_length_check {F : Type} `{Scalar F}
  (integers : Z → Z → Z → Z → list Z) (N_e0 N_i0 : Z) (sparsity0 : spec_float)
  (J0 : matrix F) (seed : Z) (self : EI_subspace_RNN F) (w : list F) :
  0 < N_e0 → 0 < N_i0 →
  __init__ integers N_e0 N_i0 sparsity0 J0 seed = inr self →
  (Z.of_nat (length w) ≠ N_weights self →
     build_full_weight_matrix self w = inl WeightsLengthMismatch)
  ∧ (Z.of_nat (length w) = N_weights self →
     ∃ W, build_full_weight_matrix self w = inr W ∧ square (Z.to_nat (N self)) W)
  ∧ (build_full_weight_matrix self w = inl WeightsLengthMismatch
     ↔ Z.of_nat (length w) ≠ N_weights self).
Proof.
  intros He Hi Hinit.
  destruct (__init___ok _ _ _ _ _ _ _ He Hi Hinit) as (Hok & _).
  assert (Hbad : Z.of_nat (length w) ≠ N_weights self →
    build_full_weight_matrix self w = inl WeightsLengthMismatch).
  { by apply build_full_weight_matrix_bad_length. }
  assert (Hgood : Z.of_nat (length w) = N_weights self →
    ∃ W, build_full_weight_matrix self w = inr W ∧ square (Z.to_nat (N self)) W).
  { intros Hlen. destruct (build_full_weight_matrix_decoded self Hok w Hlen)
      as (W & HW & Hsq & _). eauto. }
  split_and!; [done | done |]. split; [|done].
  intros Herr Hlen. destruct (Hgood Hlen) as (W & HW & _). congruence.
Qed.

Lemma build_full_weight_matrix_length_check_witness :
  ∃ self : EI_subspace_RNN spec_float,
    __init__ counting_integers 1 2 float_0_75 [] 5 = inr self
    ∧ build_full_weight_matrix self [float_1_0; float_1_0]
      = inl WeightsLengthMismatch
    ∧ ∃ W, build_full_weight_matrix self (replicate 6 float_0_25) = inr W.
Proof.
  eexists. split; [vm_compute; reflexivity|].
  pose proof (λ w, build_full_weight_matrix_length_check (F := spec_float)
    counting_integers 1 2 float_0_75 [] 5 _ w
    ltac:(lia) ltac:(lia) ltac:(vm_compute; reflexivity)) as Hcheck.
  split.
  - apply (Hcheck [float_1_0; float_1_0]). vm_compute. discriminate.
  - destruct (Hcheck (replicate 6 float_0_25)) as (_ & Hgood & _).
    destruct Hgood as (W & HW & _); [vm_compute; reflexivity|]. eauto.
Defined.

(** C10, as amended.  On every constructed instance each index the loops
    visit (the first [N_weights] of [w_ind], which is all of [w_ind] when
    [N <= N_weights]) is in exactly one of [w_ind_pos] and [w_ind_neg], by
    its column; so [build_full_weight_matrix] never raises the
    indices-beyond-shape exception. *)
Theorem sign_classes_partition {F : Type} `{Scalar F}
  (integers : Z → Z → Z → Z → list Z) (N_e0 N_i0 : Z) (sparsity0 : spec_float)
  (J0 : matrix F) (seed : Z) (self : EI_subspace_RNN F) :
  0 < N_e0 → 0 < N_i0 →
  __init__ integers N_e0 N_i0 sparsity0 J0 seed = inr self →
  (∀ x, x ∈ active_indices self →
     (x ∈ w_ind_pos self ∧ (x ∉ w_ind_neg self) ∧ x `mod` N self ≤ N_e self - 1)
     ∨ ((x ∉ w_ind_pos self) ∧ x ∈ w_ind_neg self ∧ N_e self ≤ x `mod` N self))
  ∧ (N self ≤ N_weights self → active_indices self = w_ind self)
  ∧ ∀ w : list F, build_full_weight_matrix self w ≠ inl IndicesBeyondShape.
Proof.
  intros He Hi Hinit.
  destruct (__init___ok _ _ _ _ _ _ _ He Hi Hinit) as (Hok & _).
  split_and!.
  - intros x Hx. apply (active_position self) in Hx as (ind & Hind & Hx).
    destruct (class_membership self Hok ind x Hind Hx) as [Hpos Hneg].
    rewrite Hpos, Hneg. lia.
  - intros Hle. apply take_ge. destruct Hok. lia.
  - intros w Herr.
    destruct (decide (Z.of_nat (length w) = N_weights self)) as [Hlen|Hlen].
    + destruct (build_full_weight_matrix_decoded self Hok w Hlen) as (W & HW & _).
      congruence.
    + by rewrite build_full_weight_matrix_bad_length in Herr.
Qed.

Lemma sign_classes_partition_witness :
  ∃ self : EI_subspace_RNN spec_float,
    __init__ counting_integers 4 2 float_1_0 [] 0 = inr self
    ∧ active_indices self = w_ind self
    ∧ build_full_weight_matrix self [] ≠ inl IndicesBeyondShape.
Proof.
  eexists. split; [vm_compute; reflexivity|].
  pose proof (sign_classes_partition (F := spec_float) counting_integers 4 2 float_1_0 [] 0 _
    ltac:(lia) ltac:(lia) ltac:(vm_compute; reflexivity)) as (_ & Hall & Hsafe).
  split; [|apply Hsafe]. apply Hall. vm_compute. discriminate.
Defined.

(** C10 as stated fails on [w_ind] as a whole: with [N_e = N_i = 1] and
    [sparsity = 0.25] the index 3 of [w_ind] is in neither class. *)
Lemma sign_classes_partition_counterexample :
  ∃ self : EI_subspace_RNN spec_float,
    (∀ (integers : Z → Z → Z → Z → list Z) (seed : Z),
       __init__ integers 1 1 float_0_25 [] seed = inr self)
    ∧ 3 ∈ w_ind self ∧ (3 ∉ w_ind_pos self) ∧ (3 ∉ w_ind_neg self).
Proof.
  exists sparse_pair. split_and!.
  - apply sparse_pair_constructed.
  - simpl. by apply (bool_decide_unpack _).
  - simpl. by apply (bool_decide_unpack _).
  - simpl. by apply (bool_decide_unpack _).
Qed.

(** What the decoded matrix holds at a position: the signed value of the
    visited index that unravels to it, or [zero] when there is none. *)
Lemma decoded_entry {F : Type} `{Scalar F} (self : EI_subspace_RNN F) (w : list F)
  (W : matrix F) (r c : nat) (u : F) :
  topology_ok self → Z.of_nat (length w) = N_weights self →
  decoded self w (Z.to_nat (N_weights self)) W →
  entry W r c = Some u →
  ((N self * Z.of_nat r + Z.of_nat c ∉ active_indices self) ∧ u = zero)
  ∨ (∃ ind v, (ind < Z.to_nat (N_weights self))%nat
       ∧ w_ind self !! ind = Some (N self * Z.of_nat r + Z.of_nat c)
       ∧ w !! ind = Some v
       ∧ u = dale_sign self (N self * Z.of_nat r + Z.of_nat c) v).
Proof.
  intros Hok Hlen (Hsq & Hwritten & Hblank) Hu.
  destruct (entry_lt _ _ _ _ _ Hsq Hu) as [Hr Hc].
  destruct (position_flat self Hok r c Hr Hc) as (Hrange & Hrow & Hcol).
  destruct (decide (N self * Z.of_nat r + Z.of_nat c ∈ active_indices self)) as [Hin|Hout].
  - right. destruct (active_position self _ Hin) as (ind & Hind & Hx).
    destruct (lookup_lt_is_Some_2 w ind) as [v Hv]; [lia|].
    exists ind, v. split_and!; [done | done | done |].
    specialize (Hwritten ind _ v Hind Hx Hv). rewrite Hrow, Hcol in Hwritten. congruence.
  - left. split; [done|].
    rewrite Hblank in Hu; [congruence | done | done |].
    by apply inactive_position.
Qed.

(** C3.  On every constructed instance and every entrywise non-negative
    vector of length [N_weights], the decoded matrix obeys Dale's law: an
    entry that is not zero is positive exactly in the columns below [N_e] and
    negative exactly in the columns from [N_e] on. *)
Theorem decode_obeys_Dale {F : Type} `{DaleLaws F}
  (integers : Z → Z → Z → Z → list Z) (N_e0 N_i0 : Z) (sparsity0 : spec_float)
  (J0 : matrix F) (seed : Z) (self : EI_subspace_RNN F) (w : list F) :
  0 < N_e0 → 0 < N_i0 →
  __init__ integers N_e0 N_i0 sparsity0 J0 seed = inr self →
  Z.of_nat (length w) = N_weights self →
  Forall (le zero) w →
  ∃ W, build_full_weight_matrix self w = inr W
    ∧ ∀ r c v, entry W r c = Some v → ¬ numeq v zero →
        (lt zero v ↔ Z.of_nat c < N_e0) ∧ (lt v zero ↔ N_e0 ≤ Z.of_nat c).
Proof.
  intros He Hi Hinit Hlen Hnonneg.
  destruct (__init___ok _ _ _ _ _ _ _ He Hi Hinit) as (Hok & HNe & _).
  destruct (build_full_weight_matrix_decoded self Hok w Hlen) as (W & HW & Hdec).
  exists W. split; [done|]. intros r c u Hu Hnz.
  destruct (entry_lt _ _ _ _ _ (proj1 Hdec) Hu) as [Hr Hc].
  destruct (position_flat self Hok r c Hr Hc) as (Hrange & _ & Hcol).
  destruct (position_bounds self Hok _ Hrange) as (_ & Hmod & _).
  rewrite Hcol in Hmod.
  destruct (decoded_entry self w W r c u Hok Hlen Hdec Hu)
    as [[_ ->]|(ind & v & _ & _ & Hv & ->)].
  { destruct Hnz. apply numeq_zero_zero. }
  rewrite Forall_lookup in Hnonneg. specialize (Hnonneg _ _ Hv).
  unfold dale_sign in Hnz |- *. case_bool_decide as Hexc.
  - assert (Hpos : lt zero v) by by apply lt_zero_nonzero.
    split; split.
    + intros _. lia.
    + by intros _.
    + intros Hneg. destruct (lt_zero_asym _ Hpos Hneg).
    + intros Hge. lia.
  - assert (Hpos : lt zero v).
    { apply lt_zero_nonzero; [done|]. intros Hz. by apply Hnz, numeq_zero_opp. }
    pose proof (lt_zero_opp _ Hpos) as Hneg.
    split; split.
    + intros Hp. destruct (lt_zero_asym _ Hp Hneg).
    + intros Hlt. lia.
    + intros _. lia.
    + by intros _.
Qed.

Lemma decode_obeys_Dale_witness :
  ∃ self : EI_subspace_RNN spec_float,
    __init__ counting_integers 1 2 float_0_75 [] 5 = inr self
    ∧ ∃ W, build_full_weight_matrix self (replicate 6 float_0_25) = inr W
        ∧ ∀ r c v, entry W r c = Some v → ¬ numeq v zero →
            (lt zero v ↔ Z.of_nat c < 1) ∧ (lt v zero ↔ 1 ≤ Z.of_nat c).
Proof.
  eexists. split; [vm_compute; reflexivity|].
  apply (decode_obeys_Dale (F := spec_float) counting_integers 1 2 float_0_75 [] 5 _
    (replicate 6 float_0_25)); [lia | lia | vm_compute; reflexivity | vm_compute; reflexivity |].
  apply Forall_replicate. vm_compute. reflexivity.
Defined.

(** ** A positive sparsity gives a non-negative [N_weights] *)

Lemma binary_round_aux_sign (s : bool) (m e : Z) (l : location) :
  match binary_round_aux prec emax s m e l with
  | S754_zero s' | S754_infinity s' | S754_finite s' _ _ => s' = s
  | S754_nan => True
  end.
Proof.
  unfold binary_round_aux.
  destruct (shr_fexp prec emax m e l) as [mrs e'].
  destruct (shr_fexp prec emax _ e' loc_Exact) as [mrs' e''].
  destruct (shr_m mrs'); [done | | done].
  by destruct (e'' <=? emax - prec).
Qed.

Lemma int_of_float_nonneg (x : spec_float) (n : Z) :
  match x with
  | S754_zero s | S754_infinity s | S754_finite s _ _ => s = false
  | S754_nan => True
  end →
  int_of_float x = inr n → 0 ≤ n.
Proof.
  destruct x as [s|s| |s m e]; simpl; unfold ret, raise; intros Hs Hn; simplify_eq; [done|].
  apply Z.shiftl_nonneg. lia.
Qed.

Lemma compute_N_weights_nonneg (sp : spec_float) (n nw : Z) :
  SFltb (S754_zero false) sp = true →
  compute_N_weights sp n = inr nw → 0 ≤ nw.
Proof.
  intros Hpos Hnw. unfold compute_N_weights in Hnw.
  apply bind_inr in Hnw as (n2 & Hn2 & Hnw).
  apply int_of_float_nonneg in Hnw; [done|].
  assert (Hn2s : match n2 with
    | S754_zero s | S754_infinity s | S754_finite s _ _ => s = false
    | S754_nan => True end).
  { unfold float_of_int in Hn2. assert (Hsq : 0 ≤ n ^ 2) by nia.
    destruct (n ^ 2) as [|p|p]; [| |lia].
    - simpl in Hn2. by injection Hn2 as <-.
    - unfold binary_normalize, binary_round in Hn2.
      destruct (shl_align p 0 _) as [mz ez].
      pose proof (binary_round_aux_sign false (Z.pos mz) ez loc_Exact) as Hsign.
      destruct (binary_round_aux prec emax false (Z.pos mz) ez loc_Exact);
        unfold ret, raise in Hn2; by simplify_eq. }
  destruct sp as [[]|[]| |[] m e]; try discriminate Hpos;
    destruct n2 as [s2|s2| |s2 m2 e2]; simpl in Hn2s |- *; subst; try done.
  apply (binary_round_aux_sign false).
Qed.

(** ** The round trip *)

Lemma dale_sign_involutive {F : Type} `{DaleLaws F} (self : EI_subspace_RNN F)
  (x : Z) (v : F) :
  dale_sign self x (dale_sign self x v) = v.
Proof. unfold dale_sign. case_bool_decide; [done | apply opp_involutive]. Qed.

(** C2, as amended.  On an instance constructed with a positive sparsity,
    take a matrix of shape [(N, N)] that is zero at every position no visited
    index (the first [N_weights] of [w_ind]) unravels to, and whose non-zero
    entries are non-negative in the columns below [N_e] and non-positive in
    the others.  Then [get_nonzero_weight_vector] returns an entrywise
    non-negative vector of length [N_weights], and [build_full_weight_matrix]
    of that vector returns a matrix equal to the first, entry by entry, under
    numpy's [==]. *)
Theorem codec_round_trip {F : Type} `{DaleLaws F}
  (integers : Z → Z → Z → Z → list Z) (N_e0 N_i0 : Z) (sparsity0 : spec_float)
  (J0 : matrix F) (seed : Z) (self : EI_subspace_RNN F) (W : matrix F) :
  0 < N_e0 → 0 < N_i0 → SFltb (S754_zero false) sparsity0 = true →
  __init__ integers N_e0 N_i0 sparsity0 J0 seed = inr self →
  square (Z.to_nat (N self)) W →
  (∀ r c v, entry W r c = Some v →
     (N self * Z.of_nat r + Z.of_nat c ∉ active_indices self) → numeq v zero) →
  (∀ r c v, entry W r c = Some v → ¬ numeq v zero →
     (Z.of_nat c < N_e0 → le zero v) ∧ (N_e0 ≤ Z.of_nat c → le v zero)) →
  ∃ w W', get_nonzero_weight_vector self W = inr w
    ∧ Z.of_nat (length w) = N_weights self
    ∧ Forall (le zero) w
    ∧ build_full_weight_matrix self w = inr W'
    ∧ square (Z.to_nat (N self)) W'
    ∧ ∀ r c v, entry W r c = Some v → ∃ v', entry W' r c = Some v' ∧ numeq v' v.
Proof.
  intros He Hi Hsp Hinit Hsq Hsupport Hsigns.
  destruct (__init___ok _ _ _ _ _ _ _ He Hi Hinit) as (Hok & HNe & _ & Hsp0 & _).
  assert (Hnw : 0 ≤ N_weights self).
  { eapply compute_N_weights_nonneg; [|apply (ok_N_weights _ Hok)]. by rewrite Hsp0. }
  assert (Hsign : ∀ r c v, entry W r c = Some v →
    (Z.of_nat c < N_e0 → le zero v) ∧ (N_e0 ≤ Z.of_nat c → le v zero)).
  { intros r c v Hv. destruct (numeq_zero_decided v) as [Hz|Hnz].
    - destruct (numeq_zero_le v Hz). by split.
    - by apply (Hsigns r). }
  destruct (get_nonzero_weight_vector_encoded self Hok W Hnw Hsq) as (w & Hget & Hlenw & Hread).
  assert (Hlen : Z.of_nat (length w) = N_weights self) by lia.
  destruct (build_full_weight_matrix_decoded self Hok w Hlen) as (W' & HW' & Hdec).
  exists w, W'. split_and!; [done | done | | done | apply Hdec |].
  - apply Forall_lookup. intros ind u Hu.
    assert (Hind : (ind < Z.to_nat (N_weights self))%nat).
    { apply lookup_lt_Some in Hu. lia. }
    destruct (active_lookup self Hok ind Hind) as [x Hx].
    destruct (Hread ind x Hind Hx) as (v & Hv & Hu').
    destruct (unravel_lookup self Hok ind x Hx) as [Hrange _].
    destruct (position_bounds self Hok x Hrange) as (_ & Hcol & _).
    destruct (Hsign _ _ _ Hv) as [Hexc Hinh].
    rewrite Hu' in Hu. injection Hu as <-. unfold dale_sign. case_bool_decide.
    + apply Hexc. lia.
    + apply le_zero_opp, Hinh. lia.
  - intros r c v Hv.
    destruct (entry_lt _ _ _ _ _ Hsq Hv) as [Hr Hc].
    destruct (square_entry _ W' r c (proj1 Hdec) Hr Hc) as [v' Hv'].
    exists v'. split; [done|].
    destruct (decoded_entry self w W' r c v' Hok Hlen Hdec Hv')
      as [[Hout ->]|(ind & u & Hind & Hx & Hu & ->)].
    + apply numeq_zero_sym. by apply (Hsupport r c).
    + destruct (Hread ind _ Hind Hx) as (v0 & Hv0 & Hu0).
      destruct (position_flat self Hok r c Hr Hc) as (_ & Hrow & Hcol).
      rewrite Hrow, Hcol in Hv0. simplify_eq.
      rewrite dale_sign_involutive. apply numeq_refl_signed.
      destruct (Hsign _ _ _ Hv) as [Hexc Hinh].
      destruct (decide (Z.of_nat c < N_e self)); [left; apply Hexc | right; apply Hinh]; lia.
Qed.

Lemma codec_round_trip_witness :
  ∃ self : EI_subspace_RNN spec_float,
    __init__ counting_integers 1 2 float_0_75 [] 5 = inr self
    ∧ ∃ w W', get_nonzero_weight_vector self W_triple = inr w
        ∧ Z.of_nat (length w) = N_weights self
        ∧ Forall (le zero) w
        ∧ build_full_weight_matrix self w = inr W'
        ∧ square (Z.to_nat (N self)) W'
        ∧ ∀ r c v, entry W_triple r c = Some v → ∃ v', entry W' r c = Some v' ∧ numeq v' v.
Proof.
  eexists. split; [vm_compute; reflexivity|].
  apply (codec_round_trip (F := spec_float) counting_integers 1 2 float_0_75 [] 5 _ W_triple);
    [lia | lia | vm_compute; reflexivity | vm_compute; reflexivity | | |].
  - split; [reflexivity|]. repeat constructor.
  - intros [|[|[|r]]] [|[|[|c]]] v Hv Hout; vm_compute in Hv; simplify_eq;
      try reflexivity; destruct Hout; apply (bool_decide_unpack _); vm_compute; exact I.
  - intros [|[|[|r]]] [|[|[|c]]] v Hv Hnz; vm_compute in Hv; simplify_eq;
      (split; intros Hc; first [lia | reflexivity | by destruct Hnz]).
Defined.

(** C2 as stated fails when the matrix is supported on [w_ind] as a whole.
    For [sparse_pair], [W_pair] is zero outside the positions of [w_ind] and
    carries Dale's signs, the encoding is [[1.0]], and decoding it leaves
    [0.0] at position [(1, 1)] where [W_pair] holds [-1.0]. *)
Lemma codec_round_trip_counterexample :
  (∀ (integers : Z → Z → Z → Z → list Z) (seed : Z),
     __init__ integers 1 1 float_0_25 [] seed = inr sparse_pair)
  ∧ square (Z.to_nat (N sparse_pair)) W_pair
  ∧ (∀ r c v, entry W_pair r c = Some v →
       (N sparse_pair * Z.of_nat r + Z.of_nat c ∉ w_ind sparse_pair) → numeq v zero)
  ∧ (∀ r c v, entry W_pair r c = Some v → ¬ numeq v zero →
       (Z.of_nat c < 1 → le zero v) ∧ (1 ≤ Z.of_nat c → le v zero))
  ∧ get_nonzero_weight_vector sparse_pair W_pair = inr [float_1_0]
  ∧ build_full_weight_matrix sparse_pair [float_1_0]
    = inr [[float_1_0; zero]; [zero; zero]]
  ∧ entry W_pair 1 1 = Some (SFopp float_1_0)
  ∧ ¬ numeq zero (SFopp float_1_0).
Proof.
  split_and!.
  - apply sparse_pair_constructed.
  - split; [reflexivity|]. repeat constructor.
  - intros [|[|r]] [|[|c]] v Hv Hout; vm_compute in Hv; simplify_eq;
      try reflexivity; destruct Hout; apply (bool_decide_unpack _); vm_compute; exact I.
  - intros [|[|r]] [|[|c]] v Hv Hnz; vm_compute in Hv; simplify_eq;
      (split; intros Hc; first [lia | reflexivity | by destruct Hnz]).
  - vm_compute. reflexivity.
  - vm_compute. reflexivity.
  - reflexivity.
  - vm_compute. discriminate.
Qed.

(** ** Subscripts that are list positions *)

Lemma np_index_nat (len i : nat) (k : nat) :
  np_index len (Z.of_nat i) = inr k ↔ (i < len)%nat ∧ k = i.
Proof.
  unfold np_index. case_bool_decide as Hin.
  - unfold ret. rewrite Nat2Z.id. split; [intros [= <-]; lia | by intros [_ ->]].
  - rewrite bool_decide_eq_false_2 by lia. unfold raise. split; [done | lia].
Qed.

Lemma get_item_nat {A : Type} (l : list A) (i : nat) (x : A) :
  get_item l (Z.of_nat i) = inr x ↔ l !! i = Some x.
Proof.
  split; [|apply get_item_inr].
  unfold get_item. intros Hget. apply bind_inr in Hget as (k & Hk & Hx).
  apply np_index_nat in Hk as [_ ->]. by apply subscript_inr.
Qed.

Lemma set_item_nat {A : Type} (l : list A) (i : nat) (x : A) (l' : list A) :
  set_item l (Z.of_nat i) x = inr l' ↔ (i < length l)%nat ∧ l' = <[i := x]> l.
Proof.
  split.
  - unfold set_item. intros Hset. apply bind_inr in Hset as (k & Hk & Hl').
    apply np_index_nat in Hk as [Hi ->]. by injection Hl' as <-.
  - intros [Hi ->]. by apply set_item_inr.
Qed.

Lemma for_each_fmap {I I' S : Type} (g : I → I') (l : list I) (body : I' → S → result S)
  (s : S) :
  for_each (g <$> l) body s = for_each l (λ i, body (g i)) s.
Proof.
  revert s. induction l as [|i l IH]; intros s; simpl; [done|].
  destruct (body (g i) s); simpl; [done | apply IH].
Qed.

Lemma range_up_nat (a n : nat) :
  range_up (Z.of_nat a) (Z.of_nat (a + n)) = Z.of_nat <$> seq a n.
Proof.
  unfold range_up. apply list_eq. intros i. rewrite list_lookup_fmap.
  destruct (decide (i < n)%nat) as [Hi|Hi].
  - rewrite lookup_seqZ_lt by lia. rewrite lookup_seq_lt by done. simpl; f_equal; lia.
  - rewrite lookup_seqZ_ge by lia. by rewrite lookup_seq_ge by lia.
Qed.


(** A run of an ascending loop, forwards: an invariant that every
    successful turn keeps holds at the end of a successful run. *)
Lemma for_each_seq_sound {S : Type} (P : nat → S → Prop) (a n : nat)
  (body : nat → S → result S) (s s' : S) :
  P a s →
  (∀ k st st', (a ≤ k < a + n)%nat → P k st → body k st = inr st' → P (Datatypes.S k) st') →
  for_each (seq a n) body s = inr s' → P (a + n)%nat s'.
Proof.
  revert a s. induction n as [|n IH]; intros a s Ha Hstep; simpl.
  - intros [= <-]. by rewrite Nat.add_0_r.
  - intros Hrun. apply bind_inr in Hrun as (s1 & Hs1 & Hrun).
    rewrite <- Nat.add_succ_comm. apply (IH (Datatypes.S a) s1); [| |done].
    + apply (Hstep a s); [lia | done | done].
    + intros k st st' Hk. apply Hstep. lia.
Qed.

(** And the run succeeds when every turn does from a state of the invariant. *)
Lemma for_each_seq_total {S : Type} (P : nat → S → Prop) (a n : nat)
  (body : nat → S → result S) (s : S) :
  P a s →
  (∀ k st, (a ≤ k < a + n)%nat → P k st → ∃ st', body k st = inr st' ∧ P (Datatypes.S k) st') →
  ∃ s', for_each (seq a n) body s = inr s' ∧ P (a + n)%nat s'.
Proof.
  revert a s. induction n as [|n IH]; intros a s Ha Hstep; simpl.
  - exists s. by rewrite Nat.add_0_r.
  - destruct (Hstep a s) as (s1 & Hs1 & HP1); [lia | done |].
    rewrite Hs1. simpl. rewrite <- Nat.add_succ_comm.
    apply (IH (Datatypes.S a) s1); [done|].
    intros k st Hk. apply Hstep. lia.
Qed.

(** ** The Kalman filter *)

Section KalmanFacts.
Context {F : Type} `{Scalar F}.

Variable matmul : matrix F → matrix F → matrix F.
Variable madd : matrix F → matrix F → matrix F.
Variable msub : matrix F → matrix F → matrix F.
Variable transpose : matrix F → matrix F.
Variable inv : matrix F → result (matrix F).
Variable build_dynamics_matrix_A : matrix F → matrix F → matrix F.
Variable np_diag_scaled_ones : F → Z → matrix F.

Infix "×" := matmul (at level 40, left associativity).
Infix "⊞" := madd (at level 50, left associativity).
Infix "⊟" := msub (at level 50, left associativity).

Lemma filter_update_inr (C_ d R : matrix F) (y : list (matrix F)) (t : nat)
  (st st' : filter_arrays F) :
  filter_update matmul madd msub transpose inv C_ d R y (Z.of_nat t) st = inr st' ↔
  ∃ y_t mu_prior_t V_prior_t V_t mu_t,
    y !! t = Some y_t ∧ mu_prior st !! t = Some mu_prior_t
    ∧ V_prior st !! t = Some V_prior_t
    ∧ (t < length (V st))%nat ∧ (t < length (mu st))%nat
    ∧ information_update matmul madd msub transpose inv C_ d R
        y_t mu_prior_t V_prior_t V_t mu_t
    ∧ st' = {| mu := <[t := mu_t]> (mu st); mu_prior := mu_prior st;
               V := <[t := V_t]> (V st); V_prior := V_prior st |}.
Proof.
  unfold filter_update, information_update. split.
  - intros Hrun.
    apply bind_inr in Hrun as (R_inv & HR & Hrun).
    apply bind_inr in Hrun as (Vp & HVp & Hrun). apply get_item_nat in HVp.
    apply bind_inr in Hrun as (Vp_inv & HVpi & Hrun).
    apply bind_inr in Hrun as (V_t & HVt & Hrun).
    apply bind_inr in Hrun as (V' & HV' & Hrun). apply set_item_nat in HV' as [HtV ->].
    apply bind_inr in Hrun as (V_t' & HVt' & Hrun). apply get_item_nat in HVt'.
    rewrite list_lookup_insert_eq in HVt' by done. injection HVt' as <-.
    rewrite HR in Hrun. simpl in Hrun.
    apply bind_inr in Hrun as (y_t & Hy & Hrun). apply get_item_nat in Hy.
    apply bind_inr in Hrun as (Vp' & HVp' & Hrun). apply get_item_nat in HVp'.
    rewrite HVp in HVp'. injection HVp' as <-. rewrite HVpi in Hrun. simpl in Hrun.
    apply bind_inr in Hrun as (mp & Hmp & Hrun). apply get_item_nat in Hmp.
    apply bind_inr in Hrun as (mu' & Hmu' & Hrun). apply set_item_nat in Hmu' as [Htmu ->].
    injection Hrun as <-.
    exists y_t, mp, Vp, V_t, (V_t × (transpose C_ × R_inv × (y_t ⊟ d) ⊞ Vp_inv × mp)).
    split_and!; try done. by exists R_inv, Vp_inv.
  - intros (y_t & mp & Vp & V_t & mu_t & Hy & Hmp & HVp & HtV & Htmu & Hinfo & ->).
    destruct Hinfo as (R_inv & Vp_inv & HR & HVpi & HVt & ->).
    rewrite HR. simpl. rewrite (get_item_inr _ _ _ HVp). simpl. rewrite HVpi. simpl.
    rewrite HVt. simpl. rewrite set_item_inr by done. simpl.
    rewrite (get_item_inr (<[t:=V_t]> (V st)) t V_t) by by apply list_lookup_insert_eq.
    simpl. rewrite (get_item_inr _ _ _ Hy). simpl. rewrite (get_item_inr _ _ _ Hmp). simpl.
    by rewrite set_item_inr by done.
Qed.

Lemma filter_predict_inr (A Q : matrix F) (b : drive F) (t_s : Z) (t : nat)
  (st st' : filter_arrays F) :
  filter_predict matmul madd transpose A Q b t_s (Z.of_nat (S t)) st = inr st' ↔
  ∃ mu_t V_t,
    mu st !! t = Some mu_t ∧ V st !! t = Some V_t
    ∧ (S t < length (mu_prior st))%nat ∧ (S t < length (V_prior st))%nat
    ∧ st' = {| mu := mu st;
               mu_prior := <[S t := A × mu_t
                   ⊞ drive_at b (bool_decide (t_s ≤ Z.of_nat (S t) - 1))]> (mu_prior st);
               V := V st;
               V_prior := <[S t := A × V_t × transpose A ⊞ Q]> (V_prior st) |}.
Proof.
  unfold filter_predict.
  replace (Z.of_nat (S t) - 1) with (Z.of_nat t) by lia. split.
  - intros Hrun.
    apply bind_inr in Hrun as (mu_t & Hmu & Hrun). apply get_item_nat in Hmu.
    apply bind_inr in Hrun as (mp' & Hmp' & Hrun). apply set_item_nat in Hmp' as [Htm ->].
    apply bind_inr in Hrun as (V_t & HV & Hrun). apply get_item_nat in HV.
    apply bind_inr in Hrun as (Vp' & HVp' & Hrun). apply set_item_nat in HVp' as [HtV ->].
    injection Hrun as <-. by exists mu_t, V_t.
  - intros (mu_t & V_t & Hmu & HV & Htm & HtV & ->).
    rewrite (get_item_inr _ _ _ Hmu). simpl. rewrite set_item_inr by done. simpl.
    rewrite (get_item_inr _ _ _ HV). simpl. by rewrite set_item_inr by done.
Qed.

Section FilterLoop.
Variables (A Q : matrix F) (b : drive F) (mu0 Q0 C_ d R : matrix F).
Variable y : list (matrix F).

(** One turn of the loop of lines 253-260. *)
Lemma filter_turn_inr (j : nat) (st st' : filter_arrays F) :
  (let* st1 := filter_predict matmul madd transpose A Q b
                 (Z.of_nat (length y) `div` 2) (Z.of_nat (S j)) st in
   filter_update matmul madd msub transpose inv C_ d R y (Z.of_nat (S j)) st1) = inr st' ↔
  ∃ mu_t V_t y_next V_next mu_next,
    mu st !! j = Some mu_t ∧ V st !! j = Some V_t ∧ y !! S j = Some y_next
    ∧ (S j < length (mu_prior st))%nat ∧ (S j < length (V_prior st))%nat
    ∧ (S j < length (V st))%nat ∧ (S j < length (mu st))%nat
    ∧ information_update matmul madd msub transpose inv C_ d R y_next
        (A × mu_t ⊞ drive_at b (tau (length y) (j + 1)))
        (A × V_t × transpose A ⊞ Q) V_next mu_next
    ∧ st' = {| mu := <[S j := mu_next]> (mu st);
               mu_prior := <[S j := A × mu_t ⊞ drive_at b (tau (length y) (j + 1))]>
                             (mu_prior st);
               V := <[S j := V_next]> (V st);
               V_prior := <[S j := A × V_t × transpose A ⊞ Q]> (V_prior st) |}.
Proof.
  unfold tau. replace (Z.of_nat (j + 1)) with (Z.of_nat (S j)) by lia.
  rewrite bind_inr. split.
  - intros (st1 & Hpred & Hupd).
    apply filter_predict_inr in Hpred as (mu_t & V_t & Hmu & HV & Hlm & HlV & ->).
    apply filter_update_inr in Hupd
      as (y_n & mp & Vp & V_n & mu_n & Hy & Hmp & HVp & HlV' & Hlm' & Hinfo & ->).
    simpl in *. rewrite list_lookup_insert_eq in Hmp, HVp by done.
    injection Hmp as <-. injection HVp as <-.
    exists mu_t, V_t, y_n, V_n, mu_n. by split_and!.
  - intros (mu_t & V_t & y_n & V_n & mu_n & Hmu & HV & Hy & Hlm & HlV & HlV' & Hlm' & Hinfo & ->).
    eexists. split.
    + apply filter_predict_inr. exists mu_t, V_t. by split_and!.
    + apply filter_update_inr. eexists y_n, _, _, V_n, mu_n. simpl.
      rewrite !list_lookup_insert_eq by done. by split_and!.
Qed.

Lemma filter_turn_sound (k : nat) (st st' : filter_arrays F) :
  (1 ≤ k)%nat →
  filter_recursion_upto matmul madd msub transpose inv k A Q b mu0 Q0 C_ d R y st →
  (let* st1 := filter_predict matmul madd transpose A Q b
                 (Z.of_nat (length y) `div` 2) (Z.of_nat k) st in
   filter_update matmul madd msub transpose inv C_ d R y (Z.of_nat k) st1) = inr st' →
  filter_recursion_upto matmul madd msub transpose inv (S k) A Q b mu0 Q0 C_ d R y st'.
Proof.
  intros Hk (Lmu & Lmp & LV & LVp & Hm0 & HV0 & Hpred & Hupd) Hturn.
  destruct k as [|j]; [lia|].
  apply filter_turn_inr in Hturn
    as (mu_t & V_t & y_n & V_n & mu_n & Hmu & HV & Hy & Hlm & HlV & HlV' & Hlm' & Hinfo & ->).
  unfold filter_recursion_upto. simpl. rewrite !length_insert.
  split_and!; try done.
  - by rewrite list_lookup_insert_ne by done.
  - by rewrite list_lookup_insert_ne by done.
  - intros t Ht. destruct (decide (t = j)) as [->|Hne].
    + exists mu_t, V_t. rewrite !list_lookup_insert_ne by lia.
      replace (j + 1)%nat with (S j) by lia.
      rewrite !list_lookup_insert_eq by done. by replace (S j) with (j + 1)%nat by lia.
    + destruct (Hpred t) as (mu_t' & V_t' & ? & ? & ? & ?); [lia|].
      exists mu_t', V_t'. by rewrite !list_lookup_insert_ne by lia.
  - intros t Ht. destruct (decide (t = S j)) as [->|Hne].
    + eexists y_n, _, _, V_n, mu_n. rewrite !list_lookup_insert_eq by done. by split_and!.
    + destruct (Hupd t) as (y_t & mp & Vp & V_t' & mu_t' & ? & ? & ? & ? & ? & ?); [lia|].
      exists y_t, mp, Vp, V_t', mu_t'. rewrite !list_lookup_insert_ne by done. by split_and!.
Qed.

Lemma filter_turn_complete (k : nat) (st target : filter_arrays F) :
  (1 ≤ k < length y)%nat →
  filter_recursion matmul madd msub transpose inv A Q b mu0 Q0 C_ d R y target →
  filter_arrays_agree (length y) k st target →
  ∃ st',
    (let* st1 := filter_predict matmul madd transpose A Q b
                   (Z.of_nat (length y) `div` 2) (Z.of_nat k) st in
     filter_update matmul madd msub transpose inv C_ d R y (Z.of_nat k) st1) = inr st'
    ∧ filter_arrays_agree (length y) (S k) st' target.
Proof.
  intros Hk (Tmu & Tmp & TV & TVp & Tm0 & TV0 & Tpred & Tupd) (Lmu & Lmp & LV & LVp & Hagree).
  destruct k as [|j]; [lia|].
  destruct (Tpred j) as (mu_t & V_t & Hmu & HV & Hmp & HVp); [lia|].
  destruct (Tupd (S j)) as (y_n & mp & Vp & V_n & mu_n & Hy & Hmp' & HVp' & HVn & Hmun & Hinfo);
    [lia|].
  replace (j + 1)%nat with (S j) in Hmp, HVp by lia.
  rewrite Hmp in Hmp'. injection Hmp' as <-. rewrite HVp in HVp'. injection HVp' as <-.
  destruct (Hagree j) as (Amu & _ & AV & _); [lia|].
  eexists. split.
  - apply filter_turn_inr. exists mu_t, V_t, y_n, V_n, mu_n.
    replace (j + 1)%nat with (S j) by lia.
    split_and!; [congruence | congruence | done | lia | lia | lia | lia | done | done].
  - unfold filter_arrays_agree. simpl. rewrite !length_insert.
    split_and!; try done. intros t Ht. destruct (decide (t = S j)) as [->|Hne].
    + rewrite !list_lookup_insert_eq by lia.
      replace (j + 1)%nat with (S j) by lia. by rewrite Hmun, Hmp, HVn, HVp.
    + rewrite !list_lookup_insert_ne by done. apply Hagree. lia.
Qed.

End FilterLoop.

Lemma np_zeros_blocks_inr (T rows cols : Z) :
  0 ≤ T → 0 ≤ rows → 0 ≤ cols →
  ∃ blocks : list (matrix F), np_zeros_blocks T rows cols = inr blocks
    ∧ length blocks = Z.to_nat T.
Proof.
  intros HT Hr Hc. unfold np_zeros_blocks. rewrite bool_decide_eq_false_2 by lia.
  eexists. split; [done|]. by rewrite length_replicate.
Qed.

Lemma filter_arrays_agree_eq (T : nat) (f g : filter_arrays F) :
  filter_arrays_agree T T f g →
  length (mu g) = T → length (mu_prior g) = T → length (V g) = T → length (V_prior g) = T →
  f = g.
Proof.
  intros (Lmu & Lmp & LV & LVp & Hagree) Gmu Gmp GV GVp.
  assert (Heq : ∀ l l' : list (matrix F), length l = T → length l' = T →
    (∀ t, (t < T)%nat → l !! t = l' !! t) → l = l').
  { intros l l' Hl Hl' Hsame. apply list_eq. intros t.
    destruct (decide (t < T)%nat); [by apply Hsame|].
    by rewrite !lookup_ge_None_2 by lia. }
  destruct f, g. simpl in *. f_equal; apply Heq; try done; intros t Ht; by apply Hagree.
Qed.

(** C4.  On a constructed instance and a weight vector of length
    [N_weights], [Kalman_filter_E_step] returns the arrays [f] exactly when
    they satisfy the filter's recursion with every inverse defined: all four
    have one block per observation, [mu_prior[0] = mu0] and [V_prior[0] = Q0]
    (no prediction at the first step), for [1 <= t < T]
    [mu_prior[t] = A mu[t-1] + b[tau(t)]] with [tau(t) = 1] iff
    [t - 1 >= floor(T / 2)] and [V_prior[t] = A V[t-1] A^T + Q], and at every
    [t] the information-form update.  In particular it returns whenever such
    arrays exist, and never on an empty trial. *)
Theorem Kalman_filter_E_step_recursion (integers : Z → Z → Z → Z → list Z)
  (N_e0 N_i0 : Z) (sparsity0 : spec_float) (J0 : matrix F) (seed : Z)
  (self : EI_subspace_RNN F) (y : list (matrix F)) (w : list F) (b : drive F) (s : F)
  (mu0 Q0 C_ d R : matrix F) :
  0 < N_e0 → 0 < N_i0 →
  __init__ integers N_e0 N_i0 sparsity0 J0 seed = inr self →
  Z.of_nat (length w) = N_weights self →
  ∃ W, build_full_weight_matrix self w = inr W
    ∧ ∀ f : filter_arrays F,
        Kalman_filter_E_step matmul madd msub transpose inv build_dynamics_matrix_A
          np_diag_scaled_ones self y w b s mu0 Q0 C_ d R = inr f
        ↔ filter_recursion matmul madd msub transpose inv
            (build_dynamics_matrix_A W (J self))
            (build_dynamics_covariance matmul transpose np_diag_scaled_ones self s)
            b mu0 Q0 C_ d R y f.
Proof.
  intros He Hi Hinit Hlen.
  destruct (__init___ok _ _ _ _ _ _ _ He Hi Hinit) as (Hok & _).
  destruct (build_full_weight_matrix_decoded self Hok w Hlen) as (W & HW & _).
  exists W. split; [done|]. intros f.
  pose proof (ok_K _ Hok) as HK.
  destruct (np_zeros_blocks_inr (Z.of_nat (length y)) (K self) 1) as (z1 & Hz1 & Lz1);
    [lia | lia | lia |].
  destruct (np_zeros_blocks_inr (Z.of_nat (length y)) (K self) (K self)) as (zK & HzK & LzK);
    [lia | lia | lia |].
  rewrite Nat2Z.id in Lz1, LzK.
  unfold Kalman_filter_E_step. rewrite HW. simpl. rewrite Hz1. simpl. rewrite HzK. simpl.
  set (A := build_dynamics_matrix_A W (J self)).
  set (Q := build_dynamics_covariance matmul transpose np_diag_scaled_ones self s).
  destruct (decide (length y = 0%nat)) as [Hempty|Hne].
  { split.
    - intros Hrun. apply bind_inr in Hrun as (mp & Hmp & _).
      apply (set_item_nat _ 0) in Hmp as [Hlt _]. lia.
    - intros (_ & Lmp & _ & _ & Hm0 & _). apply lookup_lt_Some in Hm0. lia. }
  rewrite (set_item_inr z1 0) by lia. simpl. rewrite (set_item_inr zK 0) by lia. simpl.
  assert (Hrange : range_up 1 (Z.of_nat (length y)) = Z.of_nat <$> seq 1 (length y - 1)).
  { rewrite <- (range_up_nat 1 (length y - 1)). f_equal; lia. }
  split.
  - intros Hrun. apply bind_inr in Hrun as (st0 & Hst0 & Hrun).
    apply (filter_update_inr _ _ _ _ 0) in Hst0
      as (y_0 & mp & Vp & V_0 & mu_0 & Hy & Hmp & HVp & _ & _ & Hinfo & ->).
    simpl in Hmp, HVp. rewrite list_lookup_insert_eq in Hmp, HVp by lia.
    injection Hmp as <-. injection HVp as <-.
    rewrite Hrange, for_each_fmap in Hrun.
    apply (for_each_seq_sound
      (λ k st, filter_recursion_upto matmul madd msub transpose inv k A Q b mu0 Q0 C_ d R y st))
      in Hrun.
    + by replace (1 + (length y - 1))%nat with (length y) in Hrun by lia.
    + unfold filter_recursion_upto. simpl. rewrite !length_insert.
      split_and!; try done; try (apply list_lookup_insert_eq; lia).
      * intros t Ht. lia.
      * intros t Ht. assert (t = 0%nat) as -> by lia.
        eexists y_0, _, _, V_0, mu_0. rewrite !list_lookup_insert_eq by lia. by split_and!.
    + intros k st st' Hk. apply filter_turn_sound. lia.
  - intros Hrec. pose proof Hrec as (Tmu & Tmp & TV & TVp & Tm0 & TV0 & Tpred & Tupd).
    destruct (Tupd 0%nat) as (y_0 & mp & Vp & V_0 & mu_0 & Hy & Hmp & HVp & HV0 & Hmu0 & Hinfo);
      [lia|].
    rewrite Tm0 in Hmp. injection Hmp as <-. rewrite TV0 in HVp. injection HVp as <-.
    pose (st0 := {| mu := <[0%nat := mu_0]> z1; mu_prior := <[0%nat := mu0]> z1;
                    V := <[0%nat := V_0]> zK; V_prior := <[0%nat := Q0]> zK |}).
    assert (Hst0 : filter_update matmul madd msub transpose inv C_ d R y 0
      {| mu := z1; mu_prior := <[0%nat := mu0]> z1; V := zK; V_prior := <[0%nat := Q0]> zK |}
      = inr st0).
    { apply (filter_update_inr _ _ _ _ 0). eexists y_0, _, _, V_0, mu_0. simpl.
      rewrite !list_lookup_insert_eq by lia. split_and!; try done; lia. }
    rewrite Hst0. simpl. rewrite Hrange, for_each_fmap.
    destruct (for_each_seq_total (λ k st, filter_arrays_agree (length y) k st f)
      1 (length y - 1)
      (λ i st, let* st1 := filter_predict matmul madd transpose A Q b
                   (Z.of_nat (length y) `div` 2) (Z.of_nat i) st in
               filter_update matmul madd msub transpose inv C_ d R y (Z.of_nat i) st1)
      st0) as (st' & Hrun & Hagree).
    + unfold filter_arrays_agree, st0. simpl. rewrite !length_insert.
      split_and!; try done. intros t Ht. assert (t = 0%nat) as -> by lia.
      rewrite !list_lookup_insert_eq by lia. by rewrite Hmu0, Tm0, HV0, TV0.
    + intros k st Hk Hag. apply (filter_turn_complete A Q b mu0 Q0 C_ d R y k st f);
        [lia | done | done].
    + rewrite Hrun. f_equal.
      replace (1 + (length y - 1))%nat with (length y) in Hagree by lia.
      by apply (filter_arrays_agree_eq (length y)).
Qed.

(** ** The Kalman smoother *)





End KalmanFacts.

(** ** The weight objectives in exact arithmetic *)

Section ObjectiveFacts.
Context {F : Type} `{ExactLaws F}.

Add Ring exact_scalars : exact_ring.

Variable inv : matrix F → result (matrix F).
Variable pinv : matrix F → matrix F.
Variable build_dynamics_matrix_A : matrix F → matrix F → matrix F.

Infix "×" := np_matmul (at level 40, left associativity).

Lemma dot_zero_l (u v : list F) : Forall (λ x, x = zero) u → dot u v = zero.
Proof.
  intros Hu. revert v. induction Hu as [|x u -> _ IH]; intros v; [done|].
  destruct v as [|y v]; [done|]. unfold dot in *. simpl. rewrite IH. ring.
Qed.

Lemma matmul_single_row (r : list F) (Y : matrix F) :
  [r] × Y = [dot r <$> np_transpose Y].
Proof. done. Qed.

Lemma transpose_ones_column (n : Z) :
  0 < n → np_transpose (np_ones (F := F) n 1) = [column (np_ones n 1) 0].
Proof.
  intros Hn. unfold np_transpose, np_ones.
  destruct (Z.to_nat n) as [|k] eqn:Hk; [lia|]. done.
Qed.

(** The row-sum term is a 1 x 1 array, and it vanishes with [beta]. *)
Lemma beta_term_entry (self : EI_subspace_RNN F) (W : matrix F) (beta : F) :
  0 < N self →
  ∃ e, beta_term self W beta = [[e]] ∧ (beta = zero → e = zero).
Proof.
  intros HN. unfold beta_term. rewrite (transpose_ones_column _ HN).
  unfold np_scale. simpl fmap. rewrite !matmul_single_row.
  rewrite (transpose_ones_column _ HN). simpl fmap.
  eexists. split; [done|]. intros ->.
  apply dot_zero_l, Forall_fmap, Forall_true. intros col. simpl.
  apply dot_zero_l, Forall_fmap, Forall_true. intros col'. simpl.
  apply dot_zero_l, Forall_fmap, Forall_true. intros x. simpl. ring.
Qed.

(** C7, as amended.  In exact arithmetic (scalars of a commutative ring),
    on a constructed instance: whenever the M-step objective is defined at
    [(alpha, beta)], it is defined at [(0, 0)] too, the initializer's
    objective is defined at [zeta = 0], [gamma = 0], and the difference of the
    first two is the third, for any [A_target]: the alpha and beta penalties
    of the two objectives are the same expressions.  In float64 the
    difference is the third only up to rounding. *)
Theorem penalty_terms_agree (integers : Z → Z → Z → Z → list Z)
  (N_e0 N_i0 : Z) (sparsity0 : spec_float) (J0 : matrix F) (seed : Z)
  (self : EI_subspace_RNN F) (w : list F) (s : F) (b : drive F)
  (m cov cov_next : list (list (matrix F))) (alpha beta : F) (A_target : matrix F)
  (x : F) :
  0 < N_e0 → 0 < N_i0 →
  __init__ integers N_e0 N_i0 sparsity0 J0 seed = inr self →
  loss_weights_M_step inv pinv build_dynamics_matrix_A self w s b m cov cov_next alpha beta
  = inr x →
  ∃ y z,
    loss_weights_M_step inv pinv build_dynamics_matrix_A self w s b m cov cov_next zero zero
    = inr y
    ∧ loss_weights_target_LDS pinv build_dynamics_matrix_A self w A_target
        zero alpha beta zero = inr z
    ∧ fsub x y = z.
Proof.
  intros He Hi Hinit Hx.
  destruct (__init___ok _ _ _ _ _ _ _ He Hi Hinit) as (Hok & _).
  pose proof (N_positive self Hok) as HN.
  unfold loss_weights_M_step in Hx |- *.
  apply bind_inr in Hx as (W & HW & Hx).
  apply bind_inr in Hx as (stats & Hstats & Hx).
  apply bind_inr in Hx as (J_aux & HJ & Hx).
  assert (Hlen : Z.of_nat (length w) = N_weights self).
  { destruct (decide (Z.of_nat (length w) = N_weights self)) as [|Hne]; [done|].
    by rewrite build_full_weight_matrix_bad_length in HW. }
  destruct (beta_term_entry self W beta HN) as (e & He' & _).
  destruct (beta_term_entry self W zero HN) as (e0 & He0 & Hzero).
  rewrite (Hzero eq_refl) in He0.
  rewrite He' in Hx. simpl in Hx. injection Hx as <-.
  rewrite HW. simpl. rewrite Hstats. simpl. rewrite HJ. simpl.
  unfold loss_weights_target_LDS, reshape_column.
  rewrite bool_decide_eq_true_2 by done. simpl. rewrite HW. simpl.
  rewrite He0, He'. simpl.
  eexists _, _. split_and!; [done | done |].
  unfold alpha_term. ring.
Qed.

End ObjectiveFacts.

(** ** Rationals are exact *)

#[global] Instance rational_exact : ExactLaws Qc.
Proof. split. exact Qcrt. Qed.

(** ** Runs on concrete data *)

Lemma Kalman_filter_E_step_recursion_witness :
  ∃ self : EI_subspace_RNN spec_float,
    __init__ counting_integers 1 2 float_0_75 J_float 5 = inr self
    ∧ ∃ W, build_full_weight_matrix self (replicate 6 float_0_25) = inr W
      ∧ ∃ f,
          Kalman_filter_E_step np_matmul np_add np_subtract np_transpose
            (inv_1x1 float_is_zero) reduce_to_latent_dynamics diag_scaled_ones
            self y_float (replicate 6 float_0_25) b_float float_1_0
            [[float_0_25]] [[float_1_0]] [[float_1_0]] [[float_0_25]] [[float_1_0]] = inr f
          ∧ filter_recursion np_matmul np_add np_subtract np_transpose
              (inv_1x1 float_is_zero) (reduce_to_latent_dynamics W (J self))
              (build_dynamics_covariance np_matmul np_transpose diag_scaled_ones
                 self float_1_0)
              b_float [[float_0_25]] [[float_1_0]] [[float_1_0]] [[float_0_25]]
              [[float_1_0]] y_float f.
Proof.
  eexists. split; [vm_compute; reflexivity|].
  destruct (Kalman_filter_E_step_recursion np_matmul np_add np_subtract np_transpose
    (inv_1x1 float_is_zero) reduce_to_latent_dynamics diag_scaled_ones
    counting_integers 1 2 float_0_75 J_float 5 _ y_float (replicate 6 float_0_25)
    b_float float_1_0 [[float_0_25]] [[float_1_0]] [[float_1_0]] [[float_0_25]]
    [[float_1_0]] ltac:(lia) ltac:(lia) ltac:(vm_compute; reflexivity)
    ltac:(vm_compute; reflexivity)) as (W & HW & Hiff).
  exists W. split; [exact HW|].
  eexists. split; [vm_compute; reflexivity|].
  apply Hiff. vm_compute. reflexivity.
Defined.


Lemma penalty_terms_agree_witness :
  ∃ (self : EI_subspace_RNN Qc) (x : Qc),
    __init__ counting_integers 1 1 float_1_0 J_rational 0 = inr self
    ∧ loss_weights_M_step (inv_1x1 rational_is_zero) np_transpose reduce_to_latent_dynamics
        self (replicate 4 1%Qc) 1%Qc b_rational m_rational cov_rational cov_next_rational
        (Q2Qc 3) (Q2Qc 5) = inr x
    ∧ ∃ y z,
        loss_weights_M_step (inv_1x1 rational_is_zero) np_transpose
          reduce_to_latent_dynamics self (replicate 4 1%Qc) 1%Qc b_rational m_rational
          cov_rational cov_next_rational zero zero = inr y
        ∧ loss_weights_target_LDS np_transpose reduce_to_latent_dynamics self
            (replicate 4 1%Qc) [[Q2Qc 7]] zero (Q2Qc 3) (Q2Qc 5) zero = inr z
        ∧ fsub x y = z.
Proof.
  eexists _, _. split; [vm_compute; reflexivity|].
  match goal with |- ?P ∧ _ => assert (Hx : P) by (vm_compute; reflexivity) end.
  split; [exact Hx|].
  exact (penalty_terms_agree (inv_1x1 rational_is_zero) np_transpose
    reduce_to_latent_dynamics counting_integers 1 1 float_1_0 J_rational 0 _
    (replicate 4 1%Qc) 1%Qc b_rational m_rational cov_rational cov_next_rational
    (Q2Qc 3) (Q2Qc 5) [[Q2Qc 7]] _ ltac:(lia) ltac:(lia) ltac:(vm_compute; reflexivity) Hx).
Defined.

(** C7 as stated fails in float64.  For the 1 + 2 network with unit
    weights, [s = 2 ** -60] and [alpha = beta = 1], the likelihood term is
    [2 ** 58] and the penalties add up to 3: the M-step objective is
    [2 ** 58] with and without the penalties (3 is below half a unit in the
    last place), their difference is 0, and the initializer's objective is
    3. *)
Lemma penalty_terms_agree_counterexample :
  ∃ x y z,
    loss_weights_M_step (inv_1x1 float_is_zero) np_transpose reduce_to_latent_dynamics
      dense_triple (replicate 6 float_1_0) float_2_pow_minus_60 b_float
      m_float cov_float cov_next_float float_1_0 float_1_0 = inr x
    ∧ loss_weights_M_step (inv_1x1 float_is_zero) np_transpose reduce_to_latent_dynamics
        dense_triple (replicate 6 float_1_0) float_2_pow_minus_60 b_float
        m_float cov_float cov_next_float zero zero = inr y
    ∧ loss_weights_target_LDS np_transpose reduce_to_latent_dynamics
        dense_triple (replicate 6 float_1_0) [[float_0_25]]
        zero float_1_0 float_1_0 zero = inr z
    ∧ x = y ∧ fsub x y = zero ∧ z = float_3_0 ∧ ¬ numeq (fsub x y) z.
Proof.
  eexists _, _, _. split_and!; try (vm_compute; reflexivity).
  vm_compute. discriminate.
Qed.

(** ** The EM loop *)


Section EMFacts.
Context {F : Type} `{Scalar F}.

Variable matmul : matrix F → matrix F → matrix F.
Variable madd : matrix F → matrix F → matrix F.
Variable msub : matrix F → matrix F → matrix F.
Variable transpose : matrix F → matrix F.
Variable inv : matrix F → result (matrix F).
Variable build_dynamics_matrix_A : matrix F → matrix F → matrix F.
Variable np_diag_scaled_ones : F → Z → matrix F.
Variable closed_form_M_step :
  EI_subspace_RNN F → list (list (matrix F)) → list F → e_statistics F
  → result (closed_forms F).
Variable check_loss_weights :
  EI_subspace_RNN F → list F → drive F → F → e_statistics F → result (F * F * F).
Variable loss_weights_M_step :
  EI_subspace_RNN F → list F → F → drive F → e_statistics F → F → F → result F.
Variable gradient_weights_M_step :
  EI_subspace_RNN F → list F → F → drive F → e_statistics F → F → F → result (list F).
Variable minimize :
  (list F → result F) → list F → (list F → result (list F)) → list (F * option F)
  → result (list F).

Variable self : EI_subspace_RNN F.
Variable y : list (list (matrix F)).
Variable init_w : list F.
Variables alpha beta : F.

Local Abbreviation iteration :=
  (EM_iteration matmul madd msub transpose inv build_dynamics_matrix_A np_diag_scaled_ones
     closed_form_M_step check_loss_weights loss_weights_M_step gradient_weights_M_step
     minimize self y init_w alpha beta).

Local Abbreviation iterations :=
  (EM_iterations matmul madd msub transpose inv build_dynamics_matrix_A np_diag_scaled_ones
     closed_form_M_step check_loss_weights loss_weights_M_step gradient_weights_M_step
     minimize self y init_w alpha beta).

Lemma EM_iteration_row (wp : list F * closed_forms F)
  (next : list F * closed_forms F * list F) :
  iteration wp = inr next → length next.2 = 3%nat.
Proof.
  unfold EM_iteration. intros Hit.
  apply bind_inr in Hit as (stats & _ & Hit). apply bind_inr in Hit as (p & _ & Hit).
  apply bind_inr in Hit as (w & _ & Hit). apply bind_inr in Hit as (l & _ & Hit).
  by injection Hit as <-.
Qed.

Lemma EM_iterations_rows (n : nat) (wp : list F * closed_forms F)
  (r : list F * closed_forms F * matrix F) :
  iterations n wp = inr r → length r.2 = n ∧ Forall (λ row, length row = 3%nat) r.2.
Proof.
  revert wp r. induction n as [|n IH]; intros wp r; simpl.
  - intros [= <-]. by split.
  - intros Hrun. apply bind_inr in Hrun as (next & Hnext & Hrun).
    apply bind_inr in Hrun as (rest & Hrest & [= <-]).
    apply IH in Hrest as [Hlen Hrows]. simpl. split; [by rewrite Hlen|].
    constructor; [by apply (EM_iteration_row wp) | done].
Qed.

(** The loop of lines 513-539 from iteration [a] on, against the fixed
    number of iterations: the rows it writes are theirs, in order. *)
Lemma EM_loop (n a : nat) (wp : list F * closed_forms F) (L : matrix F) :
  (a + n < length L)%nat →
  for_each (seq a n)
    (λ iter st,
       let* next := iteration st.1 in
       let* loss_W := set_item st.2 (Z.of_nat iter + 1) next.2 in
       ret (next.1, loss_W))
    (wp, L)
  = let* r := iterations n wp in
    ret (r.1, take (S a) L ++ r.2 ++ drop (S a + n) L).
Proof.
  revert a wp L. induction n as [|n IH]; intros a wp L Hlen; simpl.
  - rewrite Nat.add_0_r. by rewrite take_drop.
  - destruct (iteration wp) as [e|next] eqn:Hnext; simpl; [done|].
    replace (Z.of_nat a + 1) with (Z.of_nat (S a)) by lia.
    rewrite set_item_inr by lia. simpl. rewrite IH by (rewrite length_insert; lia).
    destruct (iterations n next.1) as [e|rest]; simpl; [done|].
    unfold ret. do 2 f_equal.
    rewrite (take_S_r _ (S a) next.2) by (apply list_lookup_insert_eq; lia).
    rewrite take_insert_ge by lia. rewrite drop_insert_lt by lia.
    rewrite <- app_assoc. simpl. do 2 f_equal.
    by replace (S (a + S n)) with (S (S (a + n))) by lia.
Qed.

Local Abbreviation fit :=
  (fit_EM matmul madd msub transpose inv build_dynamics_matrix_A np_diag_scaled_ones
     closed_form_M_step check_loss_weights loss_weights_M_step gradient_weights_M_step
     minimize self y init_w).

Local Abbreviation first_E_step :=
  (E_step matmul madd msub transpose inv build_dynamics_matrix_A np_diag_scaled_ones
     self y init_w).

(** [fit_EM] as the initial E-step and loss triple followed by the
    iterations. *)
Lemma fit_EM_iterations (init : closed_forms F) (max_iter : Z) :
  0 ≤ max_iter →
  fit init alpha beta max_iter
  = (let* stats := first_E_step init in
     let* l := check_loss_weights self init_w (cf_b init) (cf_s init) stats in
     let* r := iterations (Z.to_nat max_iter) (init_w, init) in
     ret (loss_row l :: r.2, r.1.1, r.1.2)).
Proof.
  intros Hmax.
  unfold fit_EM. destruct (first_E_step init) as [e|stats]; simpl; [done|].
  unfold np_zeros. rewrite bool_decide_eq_false_2 by lia. simpl.
  destruct (check_loss_weights self init_w (cf_b init) (cf_s init) stats) as [e|l];
    simpl; [done|].
  replace (Z.to_nat (max_iter + 1)) with (S (Z.to_nat max_iter)) by lia.
  change 0 with (Z.of_nat 0). rewrite set_item_inr by (simpl; lia). simpl.
  unfold range. rewrite EM_loop by (simpl; rewrite length_replicate; lia). simpl.
  destruct (iterations (Z.to_nat max_iter) (init_w, init)) as [e|r] eqn:Hr;
    simpl; [done|].
  apply EM_iterations_rows in Hr as [Hlen _].
  rewrite drop_ge by (rewrite length_replicate; lia).
  by rewrite app_nil_r.
Qed.



(** C6. For every [max_iter ≥ 0], [fit_EM] is the E-step and loss triple
    at the initial parameters followed by exactly [max_iter] EM iterations,
    each starting from the weights and parameters the one before ended
    with: nothing in the loop looks at a loss, so there is no early stop
    and no retry (an exception of an iteration ends the whole call).  The
    trace it returns has [max_iter + 1] rows of three entries; row 0 is the
    loss triple at the initial parameters and row [i + 1] the triple
    evaluated after the M-step of iteration [i]. *)
Theorem fit_EM_fixed_budget (init : closed_forms F) (max_iter : Z) :
  0 ≤ max_iter →
  fit init alpha beta max_iter
  = (let* stats := first_E_step init in
     let* l := check_loss_weights self init_w (cf_b init) (cf_s init) stats in
     let* r := iterations (Z.to_nat max_iter) (init_w, init) in
     ret (loss_row l :: r.2, r.1.1, r.1.2))
  ∧ ∀ loss_W w p,
      fit init alpha beta max_iter = inr (loss_W, w, p) →
      Z.of_nat (length loss_W) = max_iter + 1
      ∧ Forall (λ row, length row = 3%nat) loss_W
      ∧ ∃ stats l r,
          first_E_step init = inr stats
          ∧ check_loss_weights self init_w (cf_b init) (cf_s init) stats = inr l
          ∧ iterations (Z.to_nat max_iter) (init_w, init) = inr r
          ∧ loss_W !! 0%nat = Some (loss_row l)
          ∧ (∀ i : nat, (i < Z.to_nat max_iter)%nat → loss_W !! S i = r.2 !! i)
          ∧ w = r.1.1 ∧ p = r.1.2.
Proof.
  intros Hmax. split; [by apply fit_EM_iterations|].
  intros loss_W w p Hfit. rewrite fit_EM_iterations in Hfit by done.
  apply bind_inr in Hfit as (stats & Hstats & Hfit).
  apply bind_inr in Hfit as (l & Hl & Hfit).
  apply bind_inr in Hfit as (r & Hr & Hfit).
  injection Hfit as <- <- <-.
  pose proof (EM_iterations_rows _ _ _ Hr) as [Hlen Hrows].
  split_and!.
  - simpl. lia.
  - by constructor.
  - exists stats, l, r. by split_and!.
Qed.

End EMFacts.

(** ** Signs through the pipeline *)

Lemma dense_triple_constructed :
  __init__ counting_integers 1 2 float_0_75 J_float 5 = inr dense_triple.
Proof. vm_compute. reflexivity. Qed.





Lemma SFabs_not_negative (x : spec_float) : ¬ lt (SFabs x) zero.
Proof. by destruct x as [[]|[]| |[] m e]. Qed.





Section PipelineFacts.

Variable pinv : matrix spec_float → matrix spec_float.
Variable check_loss_weights_LDS :
  EI_subspace_RNN spec_float → list spec_float → matrix spec_float
  → result (spec_float * spec_float * spec_float).
Variable loss_weights_target_LDS :
  EI_subspace_RNN spec_float → list spec_float → matrix spec_float
  → spec_float → spec_float → spec_float → spec_float → result spec_float.
Variable gradient_weights_target_LDS :
  EI_subspace_RNN spec_float → list spec_float → matrix spec_float
  → spec_float → spec_float → spec_float → spec_float → result (list spec_float).
Variable minimize :
  (list spec_float → result spec_float) → list spec_float
  → (list spec_float → result (list spec_float))
  → list (spec_float * option spec_float) → result (list spec_float).

(** Stage 2: a turn ends with [np.abs] and a decoding. *)
Lemma projection_step_inr (self : EI_subspace_RNN spec_float)
  (JpJ W0 : matrix spec_float) (w : list spec_float) (W : matrix spec_float) :
  projection_step self JpJ W0 = inr (w, W) →
  never_negative w ∧ build_full_weight_matrix self w = inr W.
Proof.
  unfold projection_step. intros Hstep.
  apply bind_inr in Hstep as (n & _ & Hstep).
  apply bind_inr in Hstep as (v & _ & Hstep).
  apply bind_inr in Hstep as (W' & HW & [= <- <-]).
  split; [|done]. apply Forall_fmap, Forall_forall. intros x _.
  apply SFabs_not_negative.
Qed.

Lemma alternating_projection_inr (self : EI_subspace_RNN spec_float) (R : spec_float)
  (w : list spec_float) (W : matrix spec_float) :
  alternating_projection pinv self R = inr (w, W) →
  never_negative w ∧ build_full_weight_matrix self w = inr W.
Proof.
  unfold alternating_projection. intros Hrun.
  apply bind_inr in Hrun as (w0 & _ & Hrun).
  apply bind_inr in Hrun as (W0 & _ & Hrun).
  change 50 with (Z.of_nat 50) in Hrun. rewrite range_S, for_each_app in Hrun.
  apply bind_inr in Hrun as (st & _ & Hrun). simpl in Hrun.
  apply bind_inr in Hrun as (last & Hlast & [= ->]).
  by apply projection_step_inr in Hlast.
Qed.




End PipelineFacts.





(** Two iterations on one trial of two observations: a trace of three
    rows. *)
Lemma fit_EM_fixed_budget_witness :
  ∃ loss_W w p,
    fit_EM np_matmul np_add np_subtract np_transpose (inv_1x1 float_is_zero)
      reduce_to_latent_dynamics diag_scaled_ones M_step_float check_loss_float
      loss_float gradient_float minimize_by_clipping dense_triple [y_float]
      (replicate 6 float_0_25) parameters_float float_1_0 float_1_0 2
    = inr (loss_W, w, p)
    ∧ length loss_W = 3%nat
    ∧ Forall (λ row, length row = 3%nat) loss_W.
Proof.
  destruct (fit_EM_fixed_budget np_matmul np_add np_subtract np_transpose
    (inv_1x1 float_is_zero) reduce_to_latent_dynamics diag_scaled_ones M_step_float
    check_loss_float loss_float gradient_float minimize_by_clipping dense_triple
    [y_float] (replicate 6 float_0_25) float_1_0 float_1_0 parameters_float 2
    ltac:(lia)) as [_ Hshape].
  assert (∃ r,
    fit_EM np_matmul np_add np_subtract np_transpose (inv_1x1 float_is_zero)
      reduce_to_latent_dynamics diag_scaled_ones M_step_float check_loss_float
      loss_float gradient_float minimize_by_clipping dense_triple [y_float]
      (replicate 6 float_0_25) parameters_float float_1_0 float_1_0 2 = inr r)
    as [[[loss_W w] p] Hrun] by (eexists; vm_compute; reflexivity).
  exists loss_W, w, p. split; [exact Hrun|].
  apply Hshape in Hrun as (Hlen & Hrows & _). split; [lia | done].
Defined.

(** * Further properties of the code *)

(** ** The codec *)

Lemma build_full_weight_matrix_inr_length {F : Type} `{Scalar F}
  (self : EI_subspace_RNN F) (w : list F) (W : matrix F) :
  build_full_weight_matrix self w = inr W → Z.of_nat (length w) = N_weights self.
Proof.
  unfold build_full_weight_matrix. intros HW.
  apply bind_inr in HW as (W0 & _ & HW).
  case_bool_decide as Hlen; [discriminate|].
  destruct (decide (Z.of_nat (length w) = N_weights self)); [done | by destruct Hlen].
Qed.

(** X1.  Encoding undoes decoding: on every constructed instance and for
    every vector [w] of length [N_weights], whatever the signs of its
    entries, [get_nonzero_weight_vector] of [build_full_weight_matrix(w)]
    is [w] again, entry for entry. *)
Theorem encode_decode_identity {F : Type} `{DaleLaws F}
  (integers : Z → Z → Z → Z → list Z) (N_e0 N_i0 : Z) (sparsity0 : spec_float)
  (J0 : matrix F) (seed : Z) (self : EI_subspace_RNN F) (w : list F) :
  0 < N_e0 → 0 < N_i0 →
  __init__ integers N_e0 N_i0 sparsity0 J0 seed = inr self →
  Z.of_nat (length w) = N_weights self →
  ∃ W, build_full_weight_matrix self w = inr W
    ∧ get_nonzero_weight_vector self W = inr w.
Proof.
  intros He Hi Hinit Hlen.
  destruct (__init___ok _ _ _ _ _ _ _ He Hi Hinit) as (Hok & _).
  destruct (build_full_weight_matrix_decoded self Hok w Hlen)
    as (W & HW & Hsq & Hwritten & _).
  destruct (get_nonzero_weight_vector_encoded self Hok W) as (w' & Hget & Hlen' & Hread);
    [lia | done |].
  exists W. split; [done|]. rewrite Hget. f_equal.
  apply list_eq. intros ind.
  destruct (decide (ind < Z.to_nat (N_weights self))%nat) as [Hind|Hind].
  - destruct (active_lookup self Hok ind Hind) as [x Hx].
    destruct (lookup_lt_is_Some_2 w ind) as [v Hv]; [lia|].
    destruct (Hread ind x Hind Hx) as (v0 & Hv0 & ->).
    rewrite (Hwritten ind x v Hind Hx Hv) in Hv0. injection Hv0 as <-.
    by rewrite dale_sign_involutive.
  - by rewrite !lookup_ge_None_2 by lia.
Qed.

Lemma encode_decode_identity_witness :
  ∃ self : EI_subspace_RNN spec_float,
    __init__ counting_integers 1 2 float_0_75 [] 5 = inr self
    ∧ ∃ W, build_full_weight_matrix self (replicate 6 (SFopp float_0_25)) = inr W
        ∧ get_nonzero_weight_vector self W = inr (replicate 6 (SFopp float_0_25)).
Proof.
  eexists. split; [vm_compute; reflexivity|].
  apply (encode_decode_identity (F := spec_float) counting_integers 1 2 float_0_75 [] 5 _
    (replicate 6 (SFopp float_0_25))); [lia | lia | vm_compute; reflexivity | vm_compute; reflexivity].
Defined.

(** X2.  Decoding an encoding keeps the visited positions and clears the
    rest: on every constructed instance with [N_weights >= 0] and for every
    matrix [W] of shape [(N, N)], whatever its entries,
    [build_full_weight_matrix(get_nonzero_weight_vector(W))] holds the entry
    of [W] at every position one of the first [N_weights] indices unravels
    to, and zero at every other position.  No entry of [W] outside the
    topology is reported or kept. *)
Theorem decode_encode_projection {F : Type} `{DaleLaws F}
  (integers : Z → Z → Z → Z → list Z) (N_e0 N_i0 : Z) (sparsity0 : spec_float)
  (J0 : matrix F) (seed : Z) (self : EI_subspace_RNN F) (W : matrix F) :
  0 < N_e0 → 0 < N_i0 →
  __init__ integers N_e0 N_i0 sparsity0 J0 seed = inr self →
  0 ≤ N_weights self →
  square (Z.to_nat (N self)) W →
  ∃ w W', get_nonzero_weight_vector self W = inr w
    ∧ build_full_weight_matrix self w = inr W'
    ∧ square (Z.to_nat (N self)) W'
    ∧ ∀ r c, (r < Z.to_nat (N self))%nat → (c < Z.to_nat (N self))%nat →
        entry W' r c
        = if bool_decide (N self * Z.of_nat r + Z.of_nat c ∈ active_indices self)
          then entry W r c else Some zero.
Proof.
  intros He Hi Hinit Hnw Hsq.
  destruct (__init___ok _ _ _ _ _ _ _ He Hi Hinit) as (Hok & _).
  destruct (get_nonzero_weight_vector_encoded self Hok W Hnw Hsq) as (w & Hget & Hlenw & Hread).
  assert (Hlen : Z.of_nat (length w) = N_weights self) by lia.
  destruct (build_full_weight_matrix_decoded self Hok w Hlen) as (W' & HW' & Hdec).
  exists w, W'. split_and!; [done | done | apply Hdec |].
  intros r c Hr Hc.
  destruct (square_entry _ W' r c (proj1 Hdec) Hr Hc) as [u Hu].
  destruct (position_flat self Hok r c Hr Hc) as (_ & Hrow & Hcol).
  destruct (decoded_entry self w W' r c u Hok Hlen Hdec Hu)
    as [[Hout ->]|(ind & v & Hind & Hx & Hv & ->)].
  - by rewrite bool_decide_eq_false_2.
  - rewrite bool_decide_eq_true_2
      by (apply elem_of_take; exists ind; split; [done | lia]).
    destruct (Hread ind _ Hind Hx) as (v0 & Hv0 & Hw).
    rewrite Hrow, Hcol in Hv0. rewrite Hu, Hv0. f_equal.
    rewrite Hw in Hv. injection Hv as <-. apply dale_sign_involutive.
Qed.

Lemma decode_encode_projection_witness :
  ∃ w W', get_nonzero_weight_vector dense_triple (replicate 3 (replicate 3 float_1_0)) = inr w
    ∧ build_full_weight_matrix dense_triple w = inr W'
    ∧ entry W' 0 1 = Some zero ∧ entry W' 1 2 = Some float_1_0.
Proof.
  destruct (decode_encode_projection (F := spec_float) counting_integers 1 2 float_0_75
    J_float 5 dense_triple (replicate 3 (replicate 3 float_1_0)))
    as (w & W' & Hw & HW' & _ & Hentries);
    [lia | lia | exact dense_triple_constructed | vm_compute; discriminate
     | split; [reflexivity | repeat constructor] |].
  exists w, W'. split_and!; [done | done | |].
  - rewrite (Hentries 0%nat 1%nat) by (vm_compute; lia). reflexivity.
  - rewrite (Hentries 1%nat 2%nat) by (vm_compute; lia). reflexivity.
Defined.

(** ** The constructor *)

Lemma NoDup_bounded_length (l : list Z) (n : Z) :
  NoDup l → (∀ x, x ∈ l → 0 ≤ x < n) → Z.of_nat (length l) ≤ Z.max 0 n.
Proof.
  intros Hnd Hrange.
  assert (Hsub : l ⊆+ seqZ 0 n).
  { apply NoDup_submseteq; [done|]. intros x Hx. apply elem_of_seqZ.
    specialize (Hrange x Hx). lia. }
  apply submseteq_length in Hsub. rewrite length_seqZ in Hsub. lia.
Qed.

(** X3.  A constructed instance never has more weights than the matrix has
    entries: [N_weights <= N * N].  When [int(sparsity * N ** 2)] exceeds
    [N * N] (a sparsity above 1) the constructor raises, whatever the
    stream. *)
Theorem constructor_capacity {F : Type} (integers : Z → Z → Z → Z → list Z)
  (N_e0 N_i0 : Z) (sparsity0 : spec_float) (J0 : matrix F) (seed : Z) :
  0 < N_e0 → 0 < N_i0 →
  (∀ self, __init__ integers N_e0 N_i0 sparsity0 J0 seed = inr self →
     N_weights self ≤ N self * N self)
  ∧ (∀ nw, compute_N_weights sparsity0 (N_e0 + N_i0) = inr nw →
       (N_e0 + N_i0) * (N_e0 + N_i0) < nw →
       ∃ e, __init__ integers N_e0 N_i0 sparsity0 J0 seed = inl e).
Proof.
  intros He Hi.
  assert (Hcap : ∀ self, __init__ integers N_e0 N_i0 sparsity0 J0 seed = inr self →
    N_weights self ≤ N self * N self).
  { intros self Hinit.
    destruct (__init___ok _ _ _ _ _ _ _ He Hi Hinit) as (Hok & _).
    pose proof (N_positive self Hok) as HN.
    pose proof (NoDup_bounded_length (w_ind self) (N self * N self) (ok_NoDup _ Hok)) as Hlen.
    pose proof (ok_length _ Hok) as Hmax.
    assert (Hrange : ∀ x, x ∈ w_ind self → 0 ≤ x < N self * N self).
    { intros x Hx. apply list_elem_of_lookup in Hx as [i Hx].
      by destruct (Forall2_lookup_l _ _ _ _ _ (ok_unravel _ Hok) Hx) as (rc & _ & Hr & _). }
    specialize (Hlen Hrange). nia. }
  split; [done|].
  intros nw Hnw Hlt.
  destruct (__init__ integers N_e0 N_i0 sparsity0 J0 seed) as [e|self] eqn:Hinit; [by exists e|].
  destruct (__init___ok _ _ _ _ _ _ _ He Hi Hinit) as (Hok & HNe & HNi & Hsp & _).
  pose proof (ok_N_weights _ Hok) as Hnw'. pose proof (ok_N _ Hok) as HN.
  rewrite Hsp, HN, HNe, HNi, Hnw in Hnw'. injection Hnw' as Hnw'.
  specialize (Hcap self eq_refl). rewrite HN, HNe, HNi in Hcap. lia.
Qed.

Lemma constructor_capacity_witness :
  (∃ self : EI_subspace_RNN unit,
     __init__ counting_integers 4 2 float_1_0 [] 0 = inr self ∧ N_weights self ≤ 36)
  ∧ ∃ e, __init__ (F := unit) counting_integers 1 1 (S754_finite false 4503599627370496 (-51))
           [] 0 = inl e.
Proof.
  destruct (constructor_capacity (F := unit) counting_integers 4 2 float_1_0 [] 0
    ltac:(lia) ltac:(lia)) as [Hcap _].
  destruct (constructor_capacity (F := unit) counting_integers 1 1
    (S754_finite false 4503599627370496 (-51)) [] 0 ltac:(lia) ltac:(lia)) as [_ Hraise].
  split.
  - eexists. split; [vm_compute; reflexivity|].
    apply (Hcap _ ltac:(vm_compute; reflexivity)).
  - apply (Hraise 8); [vm_compute; reflexivity | lia].
Defined.

Lemma fresh_values_cons_new (r : Z) (rand w : list Z) :
  r ∉ w → size (fresh_values (r :: rand) w) = S (size (fresh_values rand (w ++ [r]))).
Proof.
  intros Hr. unfold fresh_values.
  assert (list_to_set (r :: rand) ∖ list_to_set w
          = ({[r]} : gset Z) ∪ (list_to_set rand ∖ list_to_set (w ++ [r]))) as ->.
  { apply set_eq. intros x.
    rewrite elem_of_union, !elem_of_difference, !elem_of_list_to_set, elem_of_singleton,
      elem_of_cons, elem_of_app, list_elem_of_singleton.
    destruct (decide (x = r)) as [->|]; tauto. }
  rewrite size_union, size_singleton; [done|].
  intros x Hx [_ Hout]%elem_of_difference. apply elem_of_singleton in Hx as ->.
  apply Hout. rewrite elem_of_list_to_set, elem_of_app, list_elem_of_singleton. by right.
Qed.

Lemma fresh_values_cons_old (r : Z) (rand w : list Z) :
  r ∈ w → fresh_values (r :: rand) w = fresh_values rand w.
Proof.
  intros Hr. unfold fresh_values. apply set_eq. intros x.
  rewrite !elem_of_difference, !elem_of_list_to_set, elem_of_cons.
  destruct (decide (x = r)) as [->|]; tauto.
Qed.

(** The while loop of lines 36-42: it ends normally exactly when the rest of
    the drawn array holds enough distinct values that are not in the list
    yet, and with IndexError otherwise. *)
Lemma draw_while_fresh (rand w : list Z) (count target : Z) :
  (count + Z.of_nat (size (fresh_values rand w)) < target →
     draw_while rand w count target = inl IndexError)
  ∧ (target ≤ count + Z.of_nat (size (fresh_values rand w)) →
     ∃ w', draw_while rand w count target = inr w').
Proof.
  revert w count. induction rand as [|r rand IH]; intros w count.
  - assert (size (fresh_values [] w) = 0%nat) as ->.
    { apply size_empty_iff, elem_of_equiv_empty. unfold fresh_values.
      intros x [Hx _]%elem_of_difference.
      apply elem_of_list_to_set in Hx. by apply elem_of_nil in Hx. }
    simpl. split; intros Hc.
    + by rewrite bool_decide_eq_true_2 by lia.
    + rewrite bool_decide_eq_false_2 by lia. by eexists.
  - simpl. destruct (decide (count < target)) as [Hlt|Hge].
    + rewrite (bool_decide_eq_true_2 (count < target)) by done.
      destruct (decide (r ∈ w)) as [Hin|Hout].
      * rewrite bool_decide_eq_false_2 by (intros Hn; by apply Hn).
        rewrite fresh_values_cons_old by done. apply IH.
      * rewrite bool_decide_eq_true_2 by done.
        rewrite fresh_values_cons_new by done.
        destruct (IH (w ++ [r]) (count + 1)) as [IH1 IH2].
        split; intros Hc; [apply IH1 | apply IH2]; lia.
    + rewrite (bool_decide_eq_false_2 (count < target)) by done.
      split; intros Hc; [lia | by eexists].
Qed.

Lemma map_result_total {A B : Type} (f : A → result B) (l : list A) :
  Forall (λ x, ∃ y, f x = inr y) l → ∃ ys, map_result f l = inr ys.
Proof.
  induction 1 as [|x l [y Hy] _ [ys Hys]]; simpl; [by eexists|].
  rewrite Hy. simpl. rewrite Hys. simpl. by eexists.
Qed.

(** X4.  The constructor draws [2 * N_weights + N] values once and never
    again.  If they hold fewer than [N_weights - N] distinct values off the
    diagonal, the constructor raises IndexError; if they hold at least that
    many and all lie in [[0, N * N)], it returns. *)
Theorem constructor_needs_fresh_values {F : Type} (integers : Z → Z → Z → Z → list Z)
  (N_e0 N_i0 : Z) (sparsity0 : spec_float) (J0 : matrix F) (seed nw : Z) :
  0 < N_e0 → 0 < N_i0 →
  compute_N_weights sparsity0 (N_e0 + N_i0) = inr nw →
  let N := N_e0 + N_i0 in
  let rand := integers seed 0 (N * N) (2 * nw + N) in
  let fresh := Z.of_nat (size (fresh_values rand (diagonal_indices N))) in
  (fresh < nw - N → __init__ integers N_e0 N_i0 sparsity0 J0 seed = inl IndexError)
  ∧ (nw - N ≤ fresh → 0 ≤ nw → (∀ x, x ∈ rand → 0 ≤ x < N * N) →
     ∃ self, __init__ integers N_e0 N_i0 sparsity0 J0 seed = inr self).
Proof.
  intros He Hi Hnw N rand fresh.
  destruct (draw_while_fresh rand (diagonal_indices N) 0 (nw - N)) as [Hfail Hdone].
  unfold __init__. cbv zeta. rewrite Hnw. simpl. fold N. fold rand. split.
  - intros Hfew. rewrite Hfail by (fold fresh; lia). done.
  - intros Hmany Hpos Hrange.
    destruct Hdone as [w Hw]; [fold fresh; lia|]. rewrite Hw. simpl.
    destruct (draw_while_inr _ _ _ _ _ Hw) as (extra & -> & Hlen & _ & Hextra).
    assert (Hall : ∀ x, x ∈ diagonal_indices N ++ extra → 0 ≤ x < N * N).
    { intros x [Hx|Hx]%elem_of_app.
      - apply elem_of_diagonal_indices in Hx as (i & Hi' & ->). nia.
      - apply Hrange. by apply Hextra. }
    destruct (map_result_total (unravel_index N N) (diagonal_indices N ++ extra))
      as [unr Hunr].
    { apply Forall_forall. intros x Hx. unfold unravel_index.
      rewrite bool_decide_eq_true_2 by by apply Hall. by eexists. }
    rewrite Hunr. simpl.
    pose proof (proj1 (map_result_inr _ _ _) Hunr) as Hpairs.
    pose proof (Forall2_length _ _ _ Hpairs) as Hlens.
    rewrite length_app, length_diagonal_indices in Hlens.
    destruct (for_each_range_inv (λ _ _, True) (Z.to_nat nw)
      (classify_step N_e0 (diagonal_indices N ++ extra) unr) ([], [])) as (classes & Hcl & _);
      [done | | rewrite Z2Nat.id in Hcl by done; rewrite Hcl; simpl; by eexists].
    intros k st Hk _. unfold classify_step.
    destruct (lookup_lt_is_Some_2 unr k) as [rc Hrc]; [lia|].
    destruct (lookup_lt_is_Some_2 (diagonal_indices N ++ extra) k) as [x Hx].
    { rewrite length_app, length_diagonal_indices. lia. }
    rewrite (proj2 (subscript_inr _ _ _) Hrc). simpl.
    rewrite (proj2 (subscript_inr _ _ _) Hx). simpl.
    repeat case_bool_decide; by eexists.
Qed.

Lemma counting_integers_range (seed low high size x : Z) :
  low < high → x ∈ counting_integers seed low high size → low ≤ x < high.
Proof.
  intros Hlt (k & -> & _)%list_elem_of_fmap.
  pose proof (Z.mod_pos_bound (seed + k) (high - low)). lia.
Qed.

Lemma constructor_needs_fresh_values_witness :
  __init__ (F := unit) (constant_integers 0) 1 2 float_0_75 [] 5 = inl IndexError
  ∧ ∃ self : EI_subspace_RNN unit, __init__ counting_integers 1 2 float_0_75 [] 5 = inr self.
Proof.
  split.
  - apply (constructor_needs_fresh_values (F := unit) (constant_integers 0) 1 2 float_0_75
      [] 5 6 ltac:(lia) ltac:(lia) ltac:(vm_compute; reflexivity)).
    vm_compute. reflexivity.
  - apply (constructor_needs_fresh_values (F := unit) counting_integers 1 2 float_0_75
      [] 5 6 ltac:(lia) ltac:(lia) ltac:(vm_compute; reflexivity)).
    + vm_compute. discriminate.
    + lia.
    + intros x Hx. by apply counting_integers_range in Hx.
Defined.

(** ** Exceptions and edge cases of the E-step and the EM loop *)

Section EdgeFacts.
Context {F : Type} `{Scalar F}.

Variable matmul : matrix F → matrix F → matrix F.
Variable madd : matrix F → matrix F → matrix F.
Variable msub : matrix F → matrix F → matrix F.
Variable transpose : matrix F → matrix F.
Variable inv : matrix F → result (matrix F).
Variable build_dynamics_matrix_A : matrix F → matrix F → matrix F.
Variable np_diag_scaled_ones : F → Z → matrix F.
Variable closed_form_M_step :
  EI_subspace_RNN F → list (list (matrix F)) → list F → e_statistics F
  → result (closed_forms F).
Variable check_loss_weights :
  EI_subspace_RNN F → list F → drive F → F → e_statistics F → result (F * F * F).
Variable loss_weights_M_step :
  EI_subspace_RNN F → list F → F → drive F → e_statistics F → F → F → result F.
Variable gradient_weights_M_step :
  EI_subspace_RNN F → list F → F → drive F → e_statistics F → F → F → result (list F).
Variable minimize :
  (list F → result F) → list F → (list F → result (list F)) → list (F * option F)
  → result (list F).

Local Abbreviation filter :=
  (Kalman_filter_E_step matmul madd msub transpose inv build_dynamics_matrix_A
     np_diag_scaled_ones).

Local Abbreviation smoother := (Kalman_smoother_E_step matmul madd msub transpose inv).

Local Abbreviation fit :=
  (fit_EM matmul madd msub transpose inv build_dynamics_matrix_A np_diag_scaled_ones
     closed_form_M_step check_loss_weights loss_weights_M_step gradient_weights_M_step
     minimize).

Local Abbreviation first_E_step :=
  (E_step matmul madd msub transpose inv build_dynamics_matrix_A np_diag_scaled_ones).

Lemma np_zeros_blocks_empty (rows cols : Z) :
  0 ≤ rows → 0 ≤ cols → np_zeros_blocks (F := F) 0 rows cols = inr [].
Proof.
  intros Hr Hc. unfold np_zeros_blocks. by rewrite bool_decide_eq_false_2 by lia.
Qed.

Lemma np_zeros_blocks_negative (T rows cols : Z) :
  T < 0 → np_zeros_blocks (F := F) T rows cols = inl ValueError.
Proof.
  intros HT. unfold np_zeros_blocks. by rewrite bool_decide_eq_true_2 by lia.
Qed.

(** X5.  A weight vector of the wrong length stops the E-step and the EM
    loop before they look at the data: on every constructed instance,
    [Kalman_filter_E_step] and [fit_EM] raise the codec's length exception
    for every trial, every parameter set and every iteration budget. *)
Theorem wrong_length_raises_first (integers : Z → Z → Z → Z → list Z)
  (N_e0 N_i0 : Z) (sparsity0 : spec_float) (J0 : matrix F) (seed : Z)
  (self : EI_subspace_RNN F) (w : list F) :
  0 < N_e0 → 0 < N_i0 →
  __init__ integers N_e0 N_i0 sparsity0 J0 seed = inr self →
  Z.of_nat (length w) ≠ N_weights self →
  (∀ y b s mu0 Q0 C_ d R,
     filter self y w b s mu0 Q0 C_ d R = inl WeightsLengthMismatch)
  ∧ (∀ y init alpha beta max_iter,
       fit self y w init alpha beta max_iter = inl WeightsLengthMismatch).
Proof.
  intros He Hi Hinit Hlen.
  destruct (__init___ok _ _ _ _ _ _ _ He Hi Hinit) as (Hok & _).
  pose proof (build_full_weight_matrix_bad_length self w Hok Hlen) as Hbad.
  split.
  - intros. unfold Kalman_filter_E_step. by rewrite Hbad.
  - intros. unfold fit_EM, E_step. by rewrite Hbad.
Qed.

(** X7.  An empty trial is an error, not an empty result: on a constructed
    instance and a weight vector of the right length the filter raises
    IndexError for a trial of no observations (at [mu_prior[0] = mu0]), and
    the smoother raises ValueError for filter arrays of no blocks (at
    [np.zeros((T - 1, K, K))]). *)
Theorem empty_trial_raises (integers : Z → Z → Z → Z → list Z)
  (N_e0 N_i0 : Z) (sparsity0 : spec_float) (J0 : matrix F) (seed : Z)
  (self : EI_subspace_RNN F) (w : list F) :
  0 < N_e0 → 0 < N_i0 →
  __init__ integers N_e0 N_i0 sparsity0 J0 seed = inr self →
  Z.of_nat (length w) = N_weights self →
  (∀ b s mu0 Q0 C_ d R, filter self [] w b s mu0 Q0 C_ d R = inl IndexError)
  ∧ (∀ A f, mu f = [] → smoother self A f = inl ValueError).
Proof.
  intros He Hi Hinit Hlen.
  destruct (__init___ok _ _ _ _ _ _ _ He Hi Hinit) as (Hok & _).
  destruct (build_full_weight_matrix_decoded self Hok w Hlen) as (W & HW & _).
  pose proof (ok_K _ Hok) as HK.
  split.
  - intros. unfold Kalman_filter_E_step. rewrite HW. simpl.
    by rewrite !np_zeros_blocks_empty by lia.
  - intros A f Hmu. unfold Kalman_smoother_E_step. rewrite Hmu. cbv zeta.
    change (Z.of_nat (length (@nil (matrix F)))) with 0.
    rewrite (np_zeros_blocks_negative (0 - 1)) by lia.
    by rewrite !np_zeros_blocks_empty by lia.
Qed.

(** X8.  The iteration budget at its edges, once the first E-step has
    succeeded: below -1 [fit_EM] raises ValueError (a trace of negative
    length); at -1 it raises IndexError (the trace has no row 0 for the
    initial loss); at 0 it returns the initial weights and parameters
    unchanged, with the initial loss as the only row of the trace. *)
Theorem fit_EM_edge_budgets (self : EI_subspace_RNN F) (y : list (list (matrix F)))
  (init_w : list F) (init : closed_forms F) (alpha beta : F) (stats : e_statistics F) :
  first_E_step self y init_w init = inr stats →
  (∀ max_iter, max_iter < -1 →
     fit self y init_w init alpha beta max_iter = inl ValueError)
  ∧ (∀ l, check_loss_weights self init_w (cf_b init) (cf_s init) stats = inr l →
       fit self y init_w init alpha beta (-1) = inl IndexError
       ∧ fit self y init_w init alpha beta 0 = inr ([loss_row l], init_w, init)).
Proof.
  intros HE. split.
  - intros max_iter Hneg. unfold fit_EM. rewrite HE. simpl.
    unfold np_zeros. by rewrite bool_decide_eq_true_2 by lia.
  - intros l Hl. unfold fit_EM. rewrite HE. simpl. rewrite Hl. done.
Qed.

End EdgeFacts.

Lemma wrong_length_raises_first_witness :
  Kalman_filter_E_step np_matmul np_add np_subtract np_transpose (inv_1x1 float_is_zero)
    reduce_to_latent_dynamics diag_scaled_ones dense_triple y_float
    (replicate 5 float_0_25) b_float float_1_0 [[float_0_25]] [[float_1_0]] [[float_1_0]]
    [[float_0_25]] [[float_1_0]] = inl WeightsLengthMismatch
  ∧ fit_EM np_matmul np_add np_subtract np_transpose (inv_1x1 float_is_zero)
      reduce_to_latent_dynamics diag_scaled_ones M_step_float check_loss_float
      loss_float gradient_float minimize_by_clipping dense_triple [y_float]
      (replicate 5 float_0_25) parameters_float float_1_0 float_1_0 300
    = inl WeightsLengthMismatch.
Proof.
  destruct (wrong_length_raises_first np_matmul np_add np_subtract np_transpose
    (inv_1x1 float_is_zero) reduce_to_latent_dynamics diag_scaled_ones M_step_float
    check_loss_float loss_float gradient_float minimize_by_clipping
    counting_integers 1 2 float_0_75 J_float 5 dense_triple (replicate 5 float_0_25)
    ltac:(lia) ltac:(lia) dense_triple_constructed ltac:(vm_compute; discriminate))
    as [Hfilter Hfit].
  split; [apply Hfilter | apply Hfit].
Defined.

Lemma empty_trial_raises_witness :
  Kalman_filter_E_step np_matmul np_add np_subtract np_transpose (inv_1x1 float_is_zero)
    reduce_to_latent_dynamics diag_scaled_ones dense_triple []
    (replicate 6 float_0_25) b_float float_1_0 [[float_0_25]] [[float_1_0]] [[float_1_0]]
    [[float_0_25]] [[float_1_0]] = inl IndexError
  ∧ Kalman_smoother_E_step np_matmul np_add np_subtract np_transpose
      (inv_1x1 float_is_zero) dense_triple [[float_0_75]]
      {| mu := []; mu_prior := []; V := []; V_prior := [] |} = inl ValueError.
Proof.
  destruct (empty_trial_raises np_matmul np_add np_subtract np_transpose
    (inv_1x1 float_is_zero) reduce_to_latent_dynamics diag_scaled_ones
    counting_integers 1 2 float_0_75 J_float 5 dense_triple (replicate 6 float_0_25)
    ltac:(lia) ltac:(lia) dense_triple_constructed ltac:(vm_compute; reflexivity))
    as [Hfilter Hsmoother].
  split; [apply Hfilter | by apply Hsmoother].
Defined.

Lemma fit_EM_edge_budgets_witness :
  ∃ stats,
    E_step np_matmul np_add np_subtract np_transpose (inv_1x1 float_is_zero)
      reduce_to_latent_dynamics diag_scaled_ones dense_triple [y_float]
      (replicate 6 float_0_25) parameters_float = inr stats
    ∧ fit_EM np_matmul np_add np_subtract np_transpose (inv_1x1 float_is_zero)
        reduce_to_latent_dynamics diag_scaled_ones M_step_float check_loss_float
        loss_float gradient_float minimize_by_clipping dense_triple [y_float]
        (replicate 6 float_0_25) parameters_float float_1_0 float_1_0 (-2)
      = inl ValueError
    ∧ fit_EM np_matmul np_add np_subtract np_transpose (inv_1x1 float_is_zero)
        reduce_to_latent_dynamics diag_scaled_ones M_step_float check_loss_float
        loss_float gradient_float minimize_by_clipping dense_triple [y_float]
        (replicate 6 float_0_25) parameters_float float_1_0 float_1_0 (-1)
      = inl IndexError.
Proof.
  assert (∃ stats,
    E_step np_matmul np_add np_subtract np_transpose (inv_1x1 float_is_zero)
      reduce_to_latent_dynamics diag_scaled_ones dense_triple [y_float]
      (replicate 6 float_0_25) parameters_float = inr stats)
    as [stats Hstats] by (eexists; vm_compute; reflexivity).
  exists stats. split; [exact Hstats|].
  destruct (fit_EM_edge_budgets np_matmul np_add np_subtract np_transpose
    (inv_1x1 float_is_zero) reduce_to_latent_dynamics diag_scaled_ones M_step_float
    check_loss_float loss_float gradient_float minimize_by_clipping dense_triple
    [y_float] (replicate 6 float_0_25) parameters_float float_1_0 float_1_0 stats Hstats)
    as [Hbelow Hedge].
  split; [apply Hbelow; lia|].
  by destruct (Hedge (float_1_0, zero, zero) eq_refl) as [Hminus _].
Defined.

(** ** The initializer *)

Lemma not_negative_opp (v : spec_float) : ¬ lt v zero → ¬ lt zero (SFopp v).
Proof. by destruct v as [[]|[]| |[] m e]. Qed.

Lemma generate_stable_weights_inr (self : EI_subspace_RNN spec_float) (R : spec_float)
  (w : list spec_float) :
  generate_stable_weights self R = inr w → 0 ≤ N_weights self.
Proof.
  unfold generate_stable_weights. intros Hw.
  apply bind_inr in Hw as (z & Hz & _). unfold np_zeros_column in Hz.
  case_bool_decide; [discriminate | lia].
Qed.

Lemma broadcast_row_length {F : Type} (n : Z) (w row : list F) :
  0 ≤ n → broadcast_row n w = inr row → Z.of_nat (length row) = n.
Proof.
  unfold broadcast_row. intros Hn Hrow. case_bool_decide; [by injection Hrow as <-|].
  destruct w as [|x [|x' w]]; try discriminate Hrow. injection Hrow as <-.
  rewrite length_replicate. lia.
Qed.

Section InitializerFacts.

Variable pinv : matrix spec_float → matrix spec_float.
Variable check_loss_weights_LDS :
  EI_subspace_RNN spec_float → list spec_float → matrix spec_float
  → result (spec_float * spec_float * spec_float).
Variable loss_weights_target_LDS :
  EI_subspace_RNN spec_float → list spec_float → matrix spec_float
  → spec_float → spec_float → spec_float → spec_float → result spec_float.
Variable gradient_weights_target_LDS :
  EI_subspace_RNN spec_float → list spec_float → matrix spec_float
  → spec_float → spec_float → spec_float → spec_float → result (list spec_float).
Variable minimize :
  (list spec_float → result spec_float) → list spec_float
  → (list spec_float → result (list spec_float))
  → list (spec_float * option spec_float) → result (list spec_float).

Local Abbreviation initializer :=
  (generate_or_initialize_weights_from_dynamics_LDS pinv check_loss_weights_LDS
     loss_weights_target_LDS gradient_weights_target_LDS minimize).

Local Abbreviation stage :=
  (refinement_step check_loss_weights_LDS loss_weights_target_LDS
     gradient_weights_target_LDS minimize).

(** X9.  An empty list of refinement stages is an error: whenever the
    alternating projection succeeds,
    [generate_or_initialize_weights_from_dynamics_LDS] with
    [zeta_alpha_beta_gamma_list = []] raises UnboundLocalError, because [w]
    is only assigned inside the refinement loop. *)
Theorem initializer_needs_a_stage (self : EI_subspace_RNN spec_float)
  (A_target : matrix spec_float) (R : spec_float)
  (projected : list spec_float * matrix spec_float) :
  alternating_projection pinv self R = inr projected →
  initializer self A_target R [] = inl UnboundLocalError.
Proof.
  intros Hproj. unfold generate_or_initialize_weights_from_dynamics_LDS.
  rewrite Hproj. simpl.
  unfold alternating_projection in Hproj.
  apply bind_inr in Hproj as (w0 & Hw0 & _).
  apply generate_stable_weights_inr in Hw0.
  unfold np_zeros. by rewrite bool_decide_eq_false_2 by lia.
Qed.

(** What the refinement loop keeps, after [k] turns over [n] stages. *)
Lemma refinement_loop_shapes (self : EI_subspace_RNN spec_float)
  (A_target : matrix spec_float)
  (quadruples : list (spec_float * spec_float * spec_float * spec_float))
  (w0 : list spec_float) (n : nat)
  (st st' : list spec_float * option (list spec_float) * matrix spec_float
            * matrix spec_float) :
  0 ≤ N_weights self →
  length st.2 = n → Forall (λ row, Z.of_nat (length row) = N_weights self) st.2 →
  length st.1.2 = S n → Forall (λ row, length row = 3%nat) st.1.2 →
  st.1.1.2 = None →
  for_each (seq 0 n) (stage self A_target quadruples w0) st = inr st' →
  length st'.2 = n ∧ Forall (λ row, Z.of_nat (length row) = N_weights self) st'.2
  ∧ length st'.1.2 = S n ∧ Forall (λ row, length row = 3%nat) st'.1.2
  ∧ (n = 0%nat → st'.1.1.2 = None)
  ∧ ((0 < n)%nat →
       ∃ w row, st'.1.1.2 = Some w ∧ broadcast_row (N_weights self) w = inr row
                ∧ st'.2 !! (n - 1)%nat = Some row).
Proof.
  intros Hnw Hall Hrows Htrace Htriples Hnone Hloop.
  apply (for_each_seq_sound
    (λ k s, length s.2 = n ∧ Forall (λ row, Z.of_nat (length row) = N_weights self) s.2
            ∧ length s.1.2 = S n ∧ Forall (λ row, length row = 3%nat) s.1.2
            ∧ (k = 0%nat → s.1.1.2 = None)
            ∧ ((0 < k)%nat →
                 ∃ w row, s.1.1.2 = Some w ∧ broadcast_row (N_weights self) w = inr row
                          ∧ s.2 !! (k - 1)%nat = Some row))
    0 n) in Hloop; [done | by split_and!; [..| lia] |].
  clear st st' Hall Hrows Htrace Htriples Hnone Hloop.
  intros k [[[w_old w_last] loss_W] w_all] st' Hk (Hall & Hrows & Htrace & Htriples & _) Hstep.
  unfold refinement_step in Hstep. simpl in *.
  apply bind_inr in Hstep as (q & _ & Hstep). destruct q as [[[zeta alpha] beta] gamma].
  apply bind_inr in Hstep as (l & _ & Hstep).
  apply bind_inr in Hstep as (loss_W' & Hloss & Hstep).
  apply bind_inr in Hstep as (w & _ & Hstep).
  apply bind_inr in Hstep as (row & Hrow & Hstep).
  apply bind_inr in Hstep as (w_all' & Hset & [= <-]). simpl.
  apply set_item_nat in Hset as [Hlt ->]. apply set_item_nat in Hloss as [_ ->].
  rewrite !length_insert.
  split_and!; [done | | done | | lia |].
  - apply Forall_insert; [done|]. by apply (broadcast_row_length _ w).
  - by apply Forall_insert.
  - intros _. exists w, row. split_and!; [done | done |].
    simpl. rewrite Nat.sub_0_r. by apply list_lookup_insert_eq.
Qed.

(** X10.  What the initializer returns, whenever it returns: there was at
    least one refinement stage; [w_all] has one row of [N_weights] entries
    per stage and [loss_W] one row of three entries per stage and one more;
    the last row of [w_all] is the vector [W] is decoded from. *)
Theorem initializer_outputs (self : EI_subspace_RNN spec_float)
  (A_target : matrix spec_float) (R : spec_float)
  (zeta_alpha_beta_gamma_list : list (spec_float * spec_float * spec_float * spec_float))
  (W0 W loss_W w_all : matrix spec_float) :
  initializer self A_target R zeta_alpha_beta_gamma_list = inr (W0, W, loss_W, w_all) →
  let n := length zeta_alpha_beta_gamma_list in
  (0 < n)%nat
  ∧ length w_all = n ∧ Forall (λ row, Z.of_nat (length row) = N_weights self) w_all
  ∧ length loss_W = S n ∧ Forall (λ row, length row = 3%nat) loss_W
  ∧ ∃ w, last w_all = Some w ∧ build_full_weight_matrix self w = inr W.
Proof.
  intros Hrun n. unfold generate_or_initialize_weights_from_dynamics_LDS in Hrun.
  apply bind_inr in Hrun as ([w0 W0'] & Hproj & Hrun). simpl in Hrun.
  assert (Hnw : 0 ≤ N_weights self).
  { unfold alternating_projection in Hproj.
    apply bind_inr in Hproj as (w & Hw & _). by apply generate_stable_weights_inr in Hw. }
  apply bind_inr in Hrun as (zeros & Hzeros & Hrun).
  apply bind_inr in Hrun as (trace & Htrace & Hrun).
  apply bind_inr in Hrun as (st & Hloop & Hrun).
  unfold np_zeros in Hzeros, Htrace.
  rewrite bool_decide_eq_false_2 in Hzeros by lia.
  rewrite bool_decide_eq_false_2 in Htrace by lia.
  injection Hzeros as <-. injection Htrace as <-.
  unfold range in Hloop. rewrite Nat2Z.id in Hloop. fold n in Hloop.
  apply refinement_loop_shapes in Hloop
    as (Hall & Hrows & Hlen & Htriples & Hnone & Hsome); simpl; try done.
  - destruct (decide (n = 0)%nat) as [Hz|Hpos].
    { rewrite (Hnone Hz) in Hrun. discriminate Hrun. }
    destruct Hsome as (w & row & Hw & Hrow & Hlast); [lia|].
    rewrite Hw in Hrun.
    apply bind_inr in Hrun as (l & _ & Hrun).
    apply bind_inr in Hrun as (trace' & Hset & Hrun).
    apply bind_inr in Hrun as (W' & HW & [= <- <- <- <-]).
    unfold set_item in Hset. apply bind_inr in Hset as (k & _ & [= <-]).
    split_and!; [lia | done | done | by rewrite length_insert | by apply Forall_insert |].
    exists w. split; [|done].
    apply build_full_weight_matrix_inr_length in HW.
    unfold broadcast_row in Hrow. rewrite bool_decide_eq_true_2 in Hrow by done.
    injection Hrow as <-. rewrite last_lookup. rewrite Hall.
    by replace (Nat.pred n) with (n - 1)%nat by lia.
  - by rewrite length_replicate.
  - apply Forall_replicate. rewrite length_replicate. lia.
  - rewrite length_replicate. lia.
  - by apply Forall_replicate.
Qed.

(** X11.  The alternating projection never breaks Dale's law: on a
    constructed instance, after every turn (and so in the [W0] the
    initializer returns) no entry of [W0] in an excitatory column is
    negative and none in an inhibitory column is positive; an entry is zero,
    of the sign of its column, or NaN. *)
Theorem projection_keeps_Dale (integers : Z → Z → Z → Z → list Z)
  (N_e0 N_i0 : Z) (sparsity0 : spec_float) (J0 : matrix spec_float) (seed : Z)
  (self : EI_subspace_RNN spec_float) :
  0 < N_e0 → 0 < N_i0 →
  __init__ integers N_e0 N_i0 sparsity0 J0 seed = inr self →
  (∀ JpJ W0 w W, projection_step self JpJ W0 = inr (w, W) →
     ∀ r c v, entry W r c = Some v →
       (Z.of_nat c < N_e0 → ¬ lt v zero) ∧ (N_e0 ≤ Z.of_nat c → ¬ lt zero v))
  ∧ (∀ R w W, alternating_projection pinv self R = inr (w, W) →
       ∀ r c v, entry W r c = Some v →
         (Z.of_nat c < N_e0 → ¬ lt v zero) ∧ (N_e0 ≤ Z.of_nat c → ¬ lt zero v)).
Proof.
  intros He Hi Hinit.
  destruct (__init___ok _ _ _ _ _ _ _ He Hi Hinit) as (Hok & HNe & _).
  assert (Hdale : ∀ w W, never_negative w → build_full_weight_matrix self w = inr W →
    ∀ r c v, entry W r c = Some v →
      (Z.of_nat c < N_e0 → ¬ lt v zero) ∧ (N_e0 ≤ Z.of_nat c → ¬ lt zero v)).
  { intros w W Hw HW r c u Hu.
    pose proof (build_full_weight_matrix_inr_length _ _ _ HW) as Hlen.
    destruct (build_full_weight_matrix_decoded self Hok w Hlen) as (W' & HW' & Hdec).
    assert (W' = W) as -> by congruence.
    destruct (entry_lt _ _ _ _ _ (proj1 Hdec) Hu) as [Hr Hc].
    destruct (position_flat self Hok r c Hr Hc) as (Hrange & _ & Hcol).
    destruct (position_bounds self Hok _ Hrange) as (_ & Hmod & _).
    rewrite Hcol in Hmod.
    destruct (decoded_entry self w W r c u Hok Hlen Hdec Hu)
      as [[_ ->]|(ind & v & _ & _ & Hv & ->)]; [by split|].
    unfold never_negative in Hw. rewrite Forall_lookup in Hw. specialize (Hw _ _ Hv).
    unfold dale_sign. case_bool_decide as Hexc.
    - split; [done | lia].
    - split; [lia | intros _; by apply not_negative_opp]. }
  split.
  - intros JpJ W0 w W Hstep. apply projection_step_inr in Hstep as [Hw HW].
    by apply (Hdale w).
  - intros R w W Hrun. apply alternating_projection_inr in Hrun as [Hw HW].
    by apply (Hdale w).
Qed.

End InitializerFacts.

Lemma initializer_needs_a_stage_witness :
  (∃ projected, alternating_projection np_transpose dense_triple float_0_85 = inr projected)
  ∧ generate_or_initialize_weights_from_dynamics_LDS np_transpose check_loss_LDS_float
      loss_LDS_float gradient_LDS_float minimize_by_clipping dense_triple
      [[float_0_75]] float_0_85 [] = inl UnboundLocalError.
Proof.
  assert (∃ projected,
    alternating_projection np_transpose dense_triple float_0_85 = inr projected)
    as [projected Hproj] by (eexists; vm_compute; reflexivity).
  split; [by exists projected|].
  exact (initializer_needs_a_stage np_transpose check_loss_LDS_float loss_LDS_float
    gradient_LDS_float minimize_by_clipping dense_triple [[float_0_75]] float_0_85
    projected Hproj).
Defined.

Lemma initializer_outputs_witness :
  ∃ W0 W loss_W w_all,
    generate_or_initialize_weights_from_dynamics_LDS np_transpose check_loss_LDS_float
      loss_LDS_float gradient_LDS_float minimize_by_clipping dense_triple
      [[float_0_75]] float_0_85
      [(float_1_0, float_1_0, float_1_0, zero); (float_1_0, zero, zero, zero)]
    = inr (W0, W, loss_W, w_all)
    ∧ length w_all = 2%nat ∧ length loss_W = 3%nat
    ∧ ∃ w, last w_all = Some w ∧ build_full_weight_matrix dense_triple w = inr W.
Proof.
  assert (∃ r,
    generate_or_initialize_weights_from_dynamics_LDS np_transpose check_loss_LDS_float
      loss_LDS_float gradient_LDS_float minimize_by_clipping dense_triple
      [[float_0_75]] float_0_85
      [(float_1_0, float_1_0, float_1_0, zero); (float_1_0, zero, zero, zero)] = inr r)
    as [[[[W0 W] loss_W] w_all] Hrun] by (eexists; vm_compute; reflexivity).
  exists W0, W, loss_W, w_all. split; [exact Hrun|].
  destruct (initializer_outputs _ _ _ _ _ _ _ _ _ _ _ _ _ Hrun)
    as (_ & Hall & _ & Htrace & _ & Hlast).
  by split_and!.
Defined.

Lemma projection_keeps_Dale_witness :
  ∃ w W,
    alternating_projection np_transpose dense_triple float_0_85 = inr (w, W)
    ∧ ∀ r c v, entry W r c = Some v →
        (Z.of_nat c < 1 → ¬ lt v zero) ∧ (1 ≤ Z.of_nat c → ¬ lt zero v).
Proof.
  assert (∃ p, alternating_projection np_transpose dense_triple float_0_85 = inr p)
    as [[w W] Hproj] by (eexists; vm_compute; reflexivity).
  exists w, W. split; [exact Hproj|].
  destruct (projection_keeps_Dale np_transpose counting_integers 1 2 float_0_75 J_float 5
    dense_triple ltac:(lia) ltac:(lia) dense_triple_constructed) as [_ Hloop].
  exact (Hloop float_0_85 w W Hproj).
Defined.

(** ** The objectives, their gradients and the loss diagnostics *)

Section DiagnosticFacts.
Context {F : Type} `{Arith F}.

Variable inv : matrix F → result (matrix F).
Variable pinv : matrix F → matrix F.
Variable build_dynamics_matrix_A : matrix F → matrix F → matrix F.

Infix "×" := np_matmul (at level 40, left associativity).


Lemma reshape_column_inr (self : EI_subspace_RNN F) (w w' : list F) :
  reshape_column self w = inr w' → w' = w.
Proof. unfold reshape_column. case_bool_decide; by intros [= <-]. Qed.


Lemma row_sum_energy_shape (self : EI_subspace_RNN F) (W : matrix F) :
  0 < N self → ∃ e, row_sum_energy self W = [[e]].
Proof.
  intros HN. unfold row_sum_energy. rewrite (transpose_ones_column _ HN).
  unfold np_scale. simpl fmap. rewrite !matmul_single_row.
  rewrite (transpose_ones_column _ HN). simpl fmap. by eexists.
Qed.

Lemma beta_term_unit (self : EI_subspace_RNN F) (W : matrix F) :
  fmul half one = half → beta_term self W one = row_sum_energy self W.
Proof. intros Hunit. unfold beta_term, row_sum_energy. by rewrite Hunit. Qed.

(** X12.  The rows of the loss traces add up to the objectives at unit
    weights, in the arithmetic of the code itself (all that is used of it is
    [0.5 * 1 = 0.5]): on a constructed instance, when
    [check_loss_weights_LDS] returns [(l1, l2, l3)] the initializer's
    objective at [zeta = alpha = beta = 1] returns
    [l1 + l2 + l3 + 0.5 * gamma * tr(W W^T)], and when [check_loss_weights]
    returns [(l1, l2, l3)] the M-step objective at [alpha = beta = 1]
    returns [l1 + l2 + l3], the sums taken from the left. *)
Theorem objectives_sum_diagnostics (integers : Z → Z → Z → Z → list Z)
  (N_e0 N_i0 : Z) (sparsity0 : spec_float) (J0 : matrix F) (seed : Z)
  (self : EI_subspace_RNN F) (w : list F) :
  fmul half one = half →
  0 < N_e0 → 0 < N_i0 →
  __init__ integers N_e0 N_i0 sparsity0 J0 seed = inr self →
  (∀ A_target l,
     check_loss_weights_LDS pinv build_dynamics_matrix_A self w A_target = inr l →
     ∃ W, build_full_weight_matrix self w = inr W
       ∧ ∀ gamma,
           loss_weights_target_LDS pinv build_dynamics_matrix_A self w A_target
             one one one gamma
           = inr (l.1.1 + l.1.2 + l.2 + half * gamma * np_trace (W × np_transpose W))%A)
  ∧ (∀ s b m cov cov_next l,
       check_loss_weights inv pinv build_dynamics_matrix_A self w b s m cov cov_next
       = inr l →
       loss_weights_M_step inv pinv build_dynamics_matrix_A self w s b m cov cov_next
         one one
       = inr (l.1.1 + l.1.2 + l.2)%A).
Proof.
  intros Hunit He Hi Hinit.
  destruct (__init___ok _ _ _ _ _ _ _ He Hi Hinit) as (Hok & _).
  pose proof (N_positive self Hok) as HN.
  split.
  - intros A_target l Hl. unfold check_loss_weights_LDS in Hl.
    apply bind_inr in Hl as (w' & Hw' & Hl).
    apply bind_inr in Hl as (W & HW & Hl).
    apply bind_inr in Hl as (l3 & Hl3 & [= <-]).
    exists W. pose proof (reshape_column_inr _ _ _ Hw') as ->. split; [done|].
    intros gamma. unfold loss_weights_target_LDS. rewrite Hw'. simpl. rewrite HW. simpl.
    rewrite beta_term_unit by done. unfold alpha_term. rewrite !Hunit.
    destruct (row_sum_energy_shape self W HN) as [e He']. rewrite He' in Hl3 |- *.
    injection Hl3 as <-. done.
  - intros s b m cov cov_next l Hl. unfold check_loss_weights in Hl.
    apply bind_inr in Hl as (w' & Hw' & Hl).
    pose proof (reshape_column_inr _ _ _ Hw') as ->.
    apply bind_inr in Hl as (W & HW & Hl).
    apply bind_inr in Hl as (stats & Hstats & Hl).
    apply bind_inr in Hl as (J_aux & HJ & Hl).
    apply bind_inr in Hl as (l3 & Hl3 & [= <-]).
    unfold loss_weights_M_step. rewrite HW. simpl. rewrite Hstats. simpl. rewrite HJ. simpl.
    rewrite beta_term_unit by done. unfold alpha_term. rewrite !Hunit.
    destruct (row_sum_energy_shape self W HN) as [e He']. rewrite He' in Hl3 |- *.
    injection Hl3 as <-. done.
Qed.

End DiagnosticFacts.

Section ExactDiagnosticFacts.
Context {F : Type} `{ExactLaws F}.

Add Ring exact_scalars_diagnostics : exact_ring.

Variable inv : matrix F → result (matrix F).
Variable pinv : matrix F → matrix F.
Variable build_dynamics_matrix_A : matrix F → matrix F → matrix F.

Infix "×" := np_matmul (at level 40, left associativity).

Lemma dot_scale_l (c : F) (u v : list F) : dot (fmul c <$> u) v = (c * dot u v)%A.
Proof.
  revert v. induction u as [|x u IH]; intros [|y v]; unfold dot in *; simpl; try ring.
  rewrite IH. ring.
Qed.

Lemma scaled_row_matmul (c : F) (r : list F) (Y : matrix F) :
  [fmul c <$> r] × Y = [fmul c <$> (dot r <$> np_transpose Y)].
Proof.
  rewrite matmul_single_row. f_equal. rewrite <- list_fmap_compose.
  apply list_fmap_ext. intros i col _. apply dot_scale_l.
Qed.

Lemma get_entry_singleton (x : F) : get_entry [[x]] 0 0 = inr x.
Proof. reflexivity. Qed.

(** The row-sum term is linear in [beta]. *)
Lemma beta_term_linear (self : EI_subspace_RNN F) (W : matrix F) :
  0 < N self →
  ∃ q, row_sum_energy self W = [[(half * q)%A]]
       ∧ ∀ beta, beta_term self W beta = [[(half * beta * q)%A]].
Proof.
  intros HN. unfold row_sum_energy, beta_term. rewrite (transpose_ones_column _ HN).
  unfold np_scale. simpl fmap. eexists. split; [|intros beta].
  - rewrite !scaled_row_matmul. rewrite (transpose_ones_column _ HN). simpl fmap.
    reflexivity.
  - rewrite !scaled_row_matmul. rewrite (transpose_ones_column _ HN). simpl fmap.
    reflexivity.
Qed.

(** X13.  In exact arithmetic the objectives are the diagnostics weighed:
    on a constructed instance, when [check_loss_weights_LDS] returns
    [(l1, l2, l3)] the initializer's objective returns
    [zeta * l1 + alpha * l2 + beta * l3 + gamma * (0.5 * tr(W W^T))] for all
    weights, and when [check_loss_weights] returns [(l1, l2, l3)] the M-step
    objective returns [l1 + alpha * l2 + beta * l3]. *)
Theorem objectives_weigh_diagnostics (integers : Z → Z → Z → Z → list Z)
  (N_e0 N_i0 : Z) (sparsity0 : spec_float) (J0 : matrix F) (seed : Z)
  (self : EI_subspace_RNN F) (w : list F) :
  0 < N_e0 → 0 < N_i0 →
  __init__ integers N_e0 N_i0 sparsity0 J0 seed = inr self →
  (∀ A_target l,
     check_loss_weights_LDS pinv build_dynamics_matrix_A self w A_target = inr l →
     ∃ W, build_full_weight_matrix self w = inr W
       ∧ ∀ zeta alpha beta gamma,
           loss_weights_target_LDS pinv build_dynamics_matrix_A self w A_target
             zeta alpha beta gamma
           = inr (zeta * l.1.1 + alpha * l.1.2 + beta * l.2
                  + gamma * (half * np_trace (W × np_transpose W)))%A)
  ∧ (∀ s b m cov cov_next l,
       check_loss_weights inv pinv build_dynamics_matrix_A self w b s m cov cov_next
       = inr l →
       ∀ alpha beta,
         loss_weights_M_step inv pinv build_dynamics_matrix_A self w s b m cov cov_next
           alpha beta
         = inr (l.1.1 + alpha * l.1.2 + beta * l.2)%A).
Proof.
  intros He Hi Hinit.
  destruct (__init___ok _ _ _ _ _ _ _ He Hi Hinit) as (Hok & _).
  pose proof (N_positive self Hok) as HN.
  split.
  - intros A_target l Hl. unfold check_loss_weights_LDS in Hl.
    apply bind_inr in Hl as (w' & Hw' & Hl).
    apply bind_inr in Hl as (W & HW & Hl).
    apply bind_inr in Hl as (l3 & Hl3 & [= <-]).
    exists W. pose proof (reshape_column_inr _ _ _ Hw') as ->. split; [done|].
    intros zeta alpha beta gamma.
    unfold loss_weights_target_LDS. rewrite Hw'. simpl. rewrite HW. simpl.
    destruct (beta_term_linear self W HN) as (q & Hq & Hbeta).
    rewrite Hq in Hl3. injection Hl3 as <-. rewrite Hbeta.
    unfold scalar_plus, plus_scalar. simpl fmap. rewrite get_entry_singleton.
    f_equal. unfold alpha_term. ring.
  - intros s b m cov cov_next l Hl alpha beta. unfold check_loss_weights in Hl.
    apply bind_inr in Hl as (w' & Hw' & Hl).
    pose proof (reshape_column_inr _ _ _ Hw') as ->.
    apply bind_inr in Hl as (W & HW & Hl).
    apply bind_inr in Hl as (stats & Hstats & Hl).
    apply bind_inr in Hl as (J_aux & HJ & Hl).
    apply bind_inr in Hl as (l3 & Hl3 & [= <-]).
    unfold loss_weights_M_step. rewrite HW. simpl. rewrite Hstats. simpl. rewrite HJ. simpl.
    destruct (beta_term_linear self W HN) as (q & Hq & Hbeta).
    rewrite Hq in Hl3. injection Hl3 as <-. rewrite Hbeta.
    unfold scalar_plus, plus_scalar. simpl fmap. rewrite get_entry_singleton.
    f_equal. unfold alpha_term. ring.
Qed.

End ExactDiagnosticFacts.

Lemma full_pair_rational_constructed :
  __init__ counting_integers 1 1 float_1_0 J_rational 0 = inr full_pair_rational.
Proof. vm_compute. reflexivity. Qed.


Lemma objectives_sum_diagnostics_witness :
  ∃ l,
    check_loss_weights (inv_1x1 float_is_zero) np_transpose reduce_to_latent_dynamics
      dense_triple (replicate 6 float_0_85) b_float float_0_85 m_float cov_float
      cov_next_float = inr l
    ∧ loss_weights_M_step (inv_1x1 float_is_zero) np_transpose reduce_to_latent_dynamics
        dense_triple (replicate 6 float_0_85) float_0_85 b_float m_float cov_float
        cov_next_float one one
      = inr (l.1.1 + l.1.2 + l.2)%A.
Proof.
  assert (∃ l,
    check_loss_weights (inv_1x1 float_is_zero) np_transpose reduce_to_latent_dynamics
      dense_triple (replicate 6 float_0_85) b_float float_0_85 m_float cov_float
      cov_next_float = inr l) as [l Hl] by (eexists; vm_compute; reflexivity).
  exists l. split; [exact Hl|].
  assert (Hunit : fmul (F := spec_float) half one = half) by (vm_compute; reflexivity).
  destruct (objectives_sum_diagnostics (inv_1x1 float_is_zero) np_transpose
    reduce_to_latent_dynamics counting_integers 1 2 float_0_75 J_float 5 dense_triple
    (replicate 6 float_0_85) Hunit ltac:(lia) ltac:(lia)
    dense_triple_constructed) as [_ Hstep].
  exact (Hstep _ _ _ _ _ _ Hl).
Defined.

Lemma objectives_weigh_diagnostics_witness :
  ∃ l,
    check_loss_weights_LDS np_transpose reduce_to_latent_dynamics full_pair_rational
      (replicate 4 1%Qc) [[Q2Qc 7]] = inr l
    ∧ ∃ W, build_full_weight_matrix full_pair_rational (replicate 4 1%Qc) = inr W
        ∧ loss_weights_target_LDS np_transpose reduce_to_latent_dynamics full_pair_rational
            (replicate 4 1%Qc) [[Q2Qc 7]] (Q2Qc 2) (Q2Qc 3) (Q2Qc 5) (Q2Qc 11)
          = inr (Q2Qc 2 * l.1.1 + Q2Qc 3 * l.1.2 + Q2Qc 5 * l.2
                 + Q2Qc 11 * (half * np_trace (np_matmul W (np_transpose W))))%A.
Proof.
  assert (∃ l,
    check_loss_weights_LDS np_transpose reduce_to_latent_dynamics full_pair_rational
      (replicate 4 1%Qc) [[Q2Qc 7]] = inr l) as [l Hl] by (eexists; vm_compute; reflexivity).
  exists l. split; [exact Hl|].
  destruct (objectives_weigh_diagnostics (inv_1x1 rational_is_zero) np_transpose
    reduce_to_latent_dynamics counting_integers 1 1 float_1_0 J_rational 0
    full_pair_rational (replicate 4 1%Qc) ltac:(lia) ltac:(lia)
    full_pair_rational_constructed) as [Htarget _].
  destruct (Htarget _ _ Hl) as (W & HW & Hsum).
  exists W. split; [exact HW | apply Hsum].
Defined.

(** ** What the smoother reads *)

Lemma for_each_ext {I S : Type} (l : list I) (body body' : I → S → result S) (s : S) :
  (∀ i st, i ∈ l → body i st = body' i st) → for_each l body s = for_each l body' s.
Proof.
  revert s. induction l as [|i l IH]; intros s Hext; simpl; [done|].
  rewrite (Hext i s) by left. destruct (body' i s) as [e|s']; simpl; [done|].
  apply IH. intros j st Hj. apply Hext. by right.
Qed.

Lemma get_item_agree {A : Type} (l l' : list A) (i : Z) :
  length l' = length l → 0 ≤ i → l' !! Z.to_nat i = l !! Z.to_nat i →
  get_item l' i = get_item l i.
Proof.
  intros Hlen Hi Hsame. unfold get_item, np_index. rewrite Hlen.
  case_bool_decide; [|by rewrite bool_decide_eq_false_2 by lia].
  simpl. unfold subscript. by rewrite Hsame.
Qed.

Section SmootherFacts.
Context {F : Type} `{Scalar F}.

Variable matmul : matrix F → matrix F → matrix F.
Variable madd : matrix F → matrix F → matrix F.
Variable msub : matrix F → matrix F → matrix F.
Variable transpose : matrix F → matrix F.
Variable inv : matrix F → result (matrix F).

(** X14.  The smoother never reads the prior of the first step: two sets
    of filter arrays with the same [mu] and [V], and the same [mu_prior] and
    [V_prior] from index 1 on, give the same result (or the same
    exception), whatever [mu_prior[0]] and [V_prior[0]] are. *)
Theorem smoother_ignores_first_prior (self : EI_subspace_RNN F) (A : matrix F)
  (f f' : filter_arrays F) :
  mu f' = mu f → V f' = V f →
  length (mu_prior f') = length (mu_prior f) →
  length (V_prior f') = length (V_prior f) →
  (∀ t, (1 ≤ t)%nat →
     mu_prior f' !! t = mu_prior f !! t ∧ V_prior f' !! t = V_prior f !! t) →
  Kalman_smoother_E_step matmul madd msub transpose inv self A f'
  = Kalman_smoother_E_step matmul madd msub transpose inv self A f.
Proof.
  intros Hmu HV Lmp LVp Hsame. unfold Kalman_smoother_E_step. rewrite Hmu, HV.
  destruct (np_zeros_blocks _ (K self) 1) as [e|m0]; simpl; [done|].
  destruct (np_zeros_blocks _ (K self) (K self)) as [e|cov0]; simpl; [done|].
  destruct (np_zeros_blocks _ (K self) (K self)) as [e|cov_next0]; simpl; [done|].
  destruct (get_item (mu f) (-1)) as [e|mu_last]; simpl; [done|].
  destruct (set_item m0 (-1) mu_last) as [e|m1]; simpl; [done|].
  destruct (get_item (V f) (-1)) as [e|V_last]; simpl; [done|].
  destruct (set_item cov0 (-1) V_last) as [e|cov1]; simpl; [done|].
  apply for_each_ext. intros t st Ht.
  assert (0 ≤ t) as Hpos.
  { unfold range_down in Ht. apply elem_of_reverse, elem_of_seqZ in Ht. lia. }
  unfold smoother_step. rewrite Hmu, HV.
  destruct (Hsame (Z.to_nat (t + 1))) as [Hmp HVp]; [lia|].
  rewrite !(get_item_agree (V_prior f) (V_prior f') (t + 1)) by (done || lia).
  by rewrite !(get_item_agree (mu_prior f) (mu_prior f') (t + 1)) by (done || lia).
Qed.

End SmootherFacts.

Lemma smoother_ignores_first_prior_witness :
  Kalman_smoother_E_step np_matmul np_add np_subtract np_transpose (inv_1x1 float_is_zero)
    sparse_pair [[float_0_75]]
    {| mu := mu f_float; mu_prior := [[[zero]]; [[float_0_75]]];
       V := V f_float; V_prior := [[[zero]]; [[float_0_75]]] |}
  = Kalman_smoother_E_step np_matmul np_add np_subtract np_transpose
      (inv_1x1 float_is_zero) sparse_pair [[float_0_75]] f_float.
Proof.
  apply smoother_ignores_first_prior; try reflexivity.
  intros [|[|t]] Ht; [lia | done | done].
Defined.

(** ** What the encoding reads *)

Lemma get_entry_nat {F : Type} (W : matrix F) (r c : nat) :
  get_entry W (Z.of_nat r) (Z.of_nat c)
  = match entry W r c with Some v => inr v | None => inl IndexError end.
Proof.
  destruct (entry W r c) as [v|] eqn:Hv; [by apply get_entry_inr|].
  unfold entry in Hv. unfold get_entry, get_item.
  destruct (W !! r) as [row|] eqn:Hrow; simpl in Hv.
  - rewrite np_index_inr by by apply lookup_lt_Some in Hrow. simpl.
    rewrite (proj2 (subscript_inr _ _ _) Hrow). simpl.
    apply lookup_ge_None in Hv. unfold np_index.
    by rewrite !bool_decide_eq_false_2 by lia.
  - apply lookup_ge_None in Hrow. unfold np_index.
    by rewrite !bool_decide_eq_false_2 by lia.
Qed.

Section EncodingFacts.
Context {F : Type} `{Scalar F}.
Variable self : EI_subspace_RNN F.
Hypothesis Hok : topology_ok self.

(** One turn of the encoding loop: it reads the entry at the position of
    index [k] and nothing else. *)
Lemma extract_step_reads (G : matrix F) (k : nat) (x : Z) (w : list F) :
  (k < Z.to_nat (N_weights self))%nat → w_ind self !! k = Some x →
  length w = Z.to_nat (N_weights self) →
  extract_step self G k w
  = match entry G (row_of self x) (col_of self x) with
    | Some v => inr (<[k := dale_sign self x v]> w)
    | None => inl IndexError
    end.
Proof.
  intros Hk Hx Hlen.
  destruct (unravel_lookup self Hok k x Hx) as [Hrange Hunr].
  destruct (position_bounds self Hok x Hrange) as (Hr & Hc & _).
  destruct (class_membership self Hok k x Hk Hx) as [Hpos Hneg].
  unfold extract_step.
  rewrite (proj2 (subscript_inr _ _ _) Hx). simpl.
  rewrite (proj2 (subscript_inr _ _ _) Hunr). simpl.
  rewrite <- Hr, <- Hc, get_entry_nat. unfold dale_sign.
  destruct (decide (x `mod` N self ≤ N_e self - 1)) as [Hexc|Hinh].
  - rewrite (bool_decide_eq_true_2 (x ∈ w_ind_pos self)) by by apply Hpos.
    rewrite (bool_decide_eq_true_2 (x `mod` N self ≤ N_e self - 1)) by done.
    destruct (entry G _ _); simpl; [|done]. apply set_item_inr. lia.
  - rewrite (bool_decide_eq_false_2 (x ∈ w_ind_pos self)) by by rewrite Hpos.
    rewrite (bool_decide_eq_true_2 (x ∈ w_ind_neg self)) by (apply Hneg; lia).
    rewrite (bool_decide_eq_false_2 (x `mod` N self ≤ N_e self - 1)) by done.
    destruct (entry G _ _); simpl; [|done]. apply set_item_inr. lia.
Qed.

Lemma encoding_loop_returns (G : matrix F) :
  0 ≤ N_weights self →
  (∀ x, x ∈ active_indices self → is_Some (entry G (row_of self x) (col_of self x))) →
  ∃ w, get_nonzero_weight_vector self G = inr w
       ∧ encoded self G (Z.to_nat (N_weights self)) w.
Proof.
  intros Hnw Hinside. unfold get_nonzero_weight_vector, np_zeros_column.
  rewrite bool_decide_eq_false_2 by lia. simpl. rewrite range_nat.
  apply (for_each_range_inv (encoded self G)).
  - split; [by rewrite length_replicate | intros; lia].
  - intros k st Hk (Hlen & Hread).
    destruct (active_lookup self Hok k Hk) as [x Hx].
    destruct (Hinside x) as [v Hv].
    { apply elem_of_take. exists k. split; [done | lia]. }
    rewrite (extract_step_reads G k x st Hk Hx Hlen), Hv.
    eexists. split; [done|]. split; [by rewrite length_insert|].
    intros ind y Hind Hy. destruct (decide (ind = k)) as [->|Hne].
    + simplify_eq. exists v. split; [done|]. apply list_lookup_insert_eq. lia.
    + rewrite list_lookup_insert_ne by done. apply Hread; [lia | done].
Qed.

Lemma encoding_loop_raises (G : matrix F) (a m : nat) (w : list F) (k : nat) (x : Z) :
  (a + m ≤ Z.to_nat (N_weights self))%nat → length w = Z.to_nat (N_weights self) →
  (a ≤ k < a + m)%nat → w_ind self !! k = Some x →
  entry G (row_of self x) (col_of self x) = None →
  for_each (seq a m) (extract_step self G) w = inl IndexError.
Proof.
  revert a w. induction m as [|m IH]; intros a w Hle Hlen Hk Hx Hnone; [lia|].
  simpl. destruct (active_lookup self Hok a) as [y Hy]; [lia|].
  rewrite (extract_step_reads G a y w) by (done || lia).
  destruct (decide (k = a)) as [->|Hne].
  - simplify_eq. by rewrite Hnone.
  - destruct (entry G (row_of self y) (col_of self y)); simpl; [|done].
    apply IH; [lia | by rewrite length_insert | lia | done | done].
Qed.

End EncodingFacts.

(** X15.  [get_nonzero_weight_vector] reads the entries at the positions of
    the first [N_weights] indices and nothing else.  On a constructed
    instance with [N_weights >= 0] and for an array [G] of any shape: if all
    those positions are inside [G] it returns the vector of their entries,
    negated in the inhibitory columns; if one is outside it raises
    IndexError; and two arrays that agree at those positions give the same
    result, whatever their other entries and shapes. *)
Theorem encoding_reads_visited_positions {F : Type} `{Scalar F}
  (integers : Z → Z → Z → Z → list Z) (N_e0 N_i0 : Z) (sparsity0 : spec_float)
  (J0 : matrix F) (seed : Z) (self : EI_subspace_RNN F) (G : matrix F) :
  0 < N_e0 → 0 < N_i0 →
  __init__ integers N_e0 N_i0 sparsity0 J0 seed = inr self →
  0 ≤ N_weights self →
  ((∀ x, x ∈ active_indices self → is_Some (entry G (row_of self x) (col_of self x))) →
     ∃ w, get_nonzero_weight_vector self G = inr w
       ∧ Z.of_nat (length w) = N_weights self
       ∧ ∀ ind x, (ind < Z.to_nat (N_weights self))%nat → w_ind self !! ind = Some x →
           ∃ v, entry G (row_of self x) (col_of self x) = Some v
                ∧ w !! ind = Some (dale_sign self x v))
  ∧ ((∃ x, x ∈ active_indices self ∧ entry G (row_of self x) (col_of self x) = None) →
       get_nonzero_weight_vector self G = inl IndexError)
  ∧ (∀ G', (∀ x, x ∈ active_indices self →
              entry G' (row_of self x) (col_of self x)
              = entry G (row_of self x) (col_of self x)) →
       get_nonzero_weight_vector self G' = get_nonzero_weight_vector self G).
Proof.
  intros He Hi Hinit Hnw.
  destruct (__init___ok _ _ _ _ _ _ _ He Hi Hinit) as (Hok & _).
  split_and!.
  - intros Hinside.
    destruct (encoding_loop_returns self Hok G Hnw Hinside) as (w & Hw & Hlen & Hread).
    exists w. split_and!; [done | lia | done].
  - intros (x & Hx & Hnone).
    apply (active_position self) in Hx as (k & Hk & Hx).
    unfold get_nonzero_weight_vector, np_zeros_column.
    rewrite bool_decide_eq_false_2 by lia. simpl. unfold range.
    apply (encoding_loop_raises self Hok G 0 _ _ k x);
      [lia | by rewrite length_replicate | lia | done | done].
  - intros G' Hagree. unfold get_nonzero_weight_vector.
    destruct (np_zeros_column (N_weights self)) as [e|w0] eqn:Hw0; simpl; [done|].
    assert (Hlen0 : length w0 = Z.to_nat (N_weights self)).
    { unfold np_zeros_column in Hw0. case_bool_decide; [discriminate|].
      injection Hw0 as <-. by rewrite length_replicate. }
    unfold range.
    assert (Hgen : ∀ (cnt a : nat) (w1 : list F), length w1 = Z.to_nat (N_weights self) →
      (a + cnt ≤ Z.to_nat (N_weights self))%nat →
      for_each (seq a cnt) (extract_step self G') w1
      = for_each (seq a cnt) (extract_step self G) w1).
    { clear w0 Hw0 Hlen0.
      induction cnt as [|cnt IH]; intros a w0 Hlen0 Hle; simpl; [done|].
      destruct (active_lookup self Hok a) as [y Hy]; [lia|].
      rewrite !(extract_step_reads self Hok _ a y w0) by (done || lia).
      rewrite Hagree by (apply elem_of_take; exists a; split; [done | lia]).
      destruct (entry G (row_of self y) (col_of self y)); simpl; [|done].
      apply IH; [by rewrite length_insert | lia]. }
    apply Hgen; [done | lia].
Qed.

Lemma encoding_reads_visited_positions_witness :
  get_nonzero_weight_vector dense_triple [] = inl IndexError
  ∧ ∃ w, get_nonzero_weight_vector dense_triple (replicate 3 (replicate 3 float_1_0)) = inr w
      ∧ Z.of_nat (length w) = 6.
Proof.
  split.
  - destruct (encoding_reads_visited_positions (F := spec_float) counting_integers 1 2
      float_0_75 J_float 5 dense_triple [] ltac:(lia) ltac:(lia) dense_triple_constructed
      ltac:(vm_compute; discriminate)) as (_ & Hraise & _).
    apply Hraise. exists 0. split; [|reflexivity].
    apply (bool_decide_unpack _). vm_compute. exact I.
  - destruct (encoding_reads_visited_positions (F := spec_float) counting_integers 1 2
      float_0_75 J_float 5 dense_triple (replicate 3 (replicate 3 float_1_0))
      ltac:(lia) ltac:(lia) dense_triple_constructed
      ltac:(vm_compute; discriminate)) as (Hreturn & _).
    destruct Hreturn as (w & Hw & Hlen & _); [|by exists w].
    change (active_indices dense_triple) with [0; 4; 8; 5; 6; 7].
    apply Forall_forall.
    repeat (apply Forall_cons; split; [by eexists|]). by apply Forall_nil.
Defined.

(** ** The gradients *)

Section ArrayEntries.
Context {F : Type} `{Arith F}.

Infix "×" := np_matmul (at level 40, left associativity).

Lemma entry_np_add (X Y : matrix F) (r c : nat) :
  entry (np_add X Y) r c
  = a ← entry X r c; b ← entry Y r c; Some (fadd a b).
Proof.
  unfold entry, np_add. rewrite lookup_zip_with.
  destruct (X !! r) as [x|]; simpl; [|done].
  destruct (Y !! r) as [y|]; simpl; [|by destruct (x !! c)].
  rewrite lookup_zip_with. by destruct (x !! c), (y !! c).
Qed.

Lemma entry_np_scale (a : F) (X : matrix F) (r c : nat) :
  entry (np_scale a X) r c = fmul a <$> entry X r c.
Proof.
  unfold entry, np_scale. rewrite list_lookup_fmap.
  destruct (X !! r) as [x|]; simpl; [|done]. by rewrite list_lookup_fmap.
Qed.

Lemma length_np_matmul (X Y : matrix F) : length (X × Y) = length X.
Proof. unfold np_matmul. by rewrite length_fmap. Qed.

Lemma entry_np_matmul_is_Some (X Y : matrix F) (r c : nat) :
  is_Some (entry (X × Y) r c) ↔ (r < length X)%nat ∧ (c < ncols Y)%nat.
Proof.
  unfold entry, np_matmul. rewrite list_lookup_fmap.
  destruct (X !! r) as [x|] eqn:Hx; simpl.
  - rewrite list_lookup_fmap. unfold np_transpose. rewrite list_lookup_fmap.
    apply lookup_lt_Some in Hx.
    destruct (seq 0 (ncols Y) !! c) as [j|] eqn:Hj; simpl.
    + apply lookup_lt_Some in Hj. rewrite length_seq in Hj. split; [done | by eexists].
    + apply lookup_ge_None in Hj. rewrite length_seq in Hj.
      split; [by intros [? ?] | lia].
  - apply lookup_ge_None in Hx. split; [by intros [? ?] | lia].
Qed.

Lemma ncols_transpose_ones (n : Z) :
  0 < n → ncols (np_transpose (np_ones (F := F) n 1)) = Z.to_nat n.
Proof.
  intros Hn. rewrite (transpose_ones_column _ Hn). simpl.
  unfold column, np_ones. by rewrite length_fmap, length_replicate.
Qed.

End ArrayEntries.

Section GradientFacts.
Context {F : Type} `{ExactLaws F}.

Add Ring exact_scalars_gradients : exact_ring.

Variable inv : matrix F → result (matrix F).
Variable pinv : matrix F → matrix F.
Variable build_dynamics_matrix_A : matrix F → matrix F → matrix F.

Infix "×" := np_matmul (at level 40, left associativity).
Infix "⊞" := np_add (at level 50, left associativity).

Lemma np_scale_matmul (a : F) (X Y : matrix F) :
  np_scale a X × Y = np_scale a (X × Y).
Proof.
  unfold np_matmul, np_scale. rewrite <- !list_fmap_compose.
  apply list_fmap_ext. intros i row _. simpl. rewrite <- list_fmap_compose.
  apply list_fmap_ext. intros j col _. apply dot_scale_l.
Qed.

Lemma entry_scale_zero (X : matrix F) (r c : nat) (z : F) :
  entry (np_scale zero X) r c = Some z → z = zero.
Proof.
  rewrite entry_np_scale. destruct (entry X r c) as [x|]; intros [= <-]. ring.
Qed.

(** The penalty gradient, entry by entry. *)
Lemma entry_penalty_gradient (self : EI_subspace_RNN F) (W : matrix F) (alpha beta : F)
  (G : matrix F) (r c : nat) :
  entry (penalty_gradient pinv self W alpha beta G) r c
  = g ← entry G r c;
    a ← entry (np_transpose (J self) × Jpinv_aux pinv self W) r c;
    b ← entry (W × np_ones (N self) 1 × np_transpose (np_ones (N self) 1)) r c;
    Some (g + alpha * a + beta * b)%A.
Proof.
  unfold penalty_gradient. rewrite !np_scale_matmul, !entry_np_add, !entry_np_scale.
  destruct (entry G r c); simpl; [|done].
  destruct (entry (np_transpose (J self) × _) r c); simpl; [|done].
  by destruct (entry (W × _ × _) r c).
Qed.

(** X16.  In exact arithmetic the two gradients carry the same penalty
    terms: on a constructed instance, whenever [gradient_weights_M_step]
    returns at [(alpha, beta)] it returns at [(0, 0)] too,
    [gradient_weights_target_LDS] returns at [zeta = 0], [gamma = 0] for any
    [A_target], all three vectors have [N_weights] entries and, entry by
    entry, the difference of the first two is the third. *)
Theorem penalty_gradients_agree (integers : Z → Z → Z → Z → list Z)
  (N_e0 N_i0 : Z) (sparsity0 : spec_float) (J0 : matrix F) (seed : Z)
  (self : EI_subspace_RNN F) (w : list F) (s : F) (b : drive F)
  (m cov cov_next : list (list (matrix F))) (alpha beta : F) (A_target : matrix F)
  (g1 : list F) :
  0 < N_e0 → 0 < N_i0 →
  __init__ integers N_e0 N_i0 sparsity0 J0 seed = inr self →
  gradient_weights_M_step inv pinv build_dynamics_matrix_A self w s b m cov cov_next
    alpha beta = inr g1 →
  ∃ g2 g3,
    gradient_weights_M_step inv pinv build_dynamics_matrix_A self w s b m cov cov_next
      zero zero = inr g2
    ∧ gradient_weights_target_LDS pinv build_dynamics_matrix_A self w A_target
        zero alpha beta zero = inr g3
    ∧ Z.of_nat (length g1) = N_weights self
    ∧ zip_with fsub g1 g2 = g3.
Proof.
  intros He Hi Hinit Hg1.
  destruct (__init___ok _ _ _ _ _ _ _ He Hi Hinit) as (Hok & _).
  pose proof (N_positive self Hok) as HN.
  unfold gradient_weights_M_step in Hg1 |- *.
  apply bind_inr in Hg1 as (W & HW & Hg1).
  apply bind_inr in Hg1 as (stats & Hstats & Hg1).
  apply bind_inr in Hg1 as (J_aux & HJ & Hg1).
  pose proof (build_full_weight_matrix_inr_length _ _ _ HW) as Hlen.
  assert (Hnw : 0 ≤ N_weights self) by lia.
  destruct (build_full_weight_matrix_decoded self Hok w Hlen) as (W' & HW' & Hsq & _).
  assert (W' = W) as -> by congruence.
  rewrite HW. simpl. rewrite Hstats. simpl. rewrite HJ. simpl.
  unfold gradient_weights_target_LDS, reshape_column.
  rewrite bool_decide_eq_true_2 by done. simpl. rewrite HW. simpl.
  set (L := np_scale (opp one / s)%A (np_transpose (J self)) × J_aux
            × (np_subtract (np_negative stats.2)
                 (build_dynamics_matrix_A W (J self) × stats.1.1)
               ⊞ np_transpose stats.1.2)
            × np_transpose (pinv (J self))) in *.
  set (Z0 := np_scale zero (np_transpose (J self))
             × np_subtract (build_dynamics_matrix_A W (J self)) A_target
             × np_transpose (pinv (J self))).
  set (A := np_transpose (J self) × Jpinv_aux pinv self W).
  set (B := W × np_ones (N self) 1 × np_transpose (np_ones (N self) 1)).
  (* every visited position is inside the first gradient matrix *)
  assert (Hin1 : ∀ x, x ∈ active_indices self →
    ∃ l a b', entry L (row_of self x) (col_of self x) = Some l
      ∧ entry A (row_of self x) (col_of self x) = Some a
      ∧ entry B (row_of self x) (col_of self x) = Some b').
  { intros x Hx.
    destruct (entry (penalty_gradient pinv self W alpha beta L)
                (row_of self x) (col_of self x)) as [v|] eqn:Hv.
    - rewrite entry_penalty_gradient in Hv. fold A B in Hv.
      destruct (entry L _ _) as [l|]; simpl in Hv; [|done].
      destruct (entry A _ _) as [a|]; simpl in Hv; [|done].
      destruct (entry B _ _) as [b'|]; simpl in Hv; [|done]. by exists l, a, b'.
    - apply (active_position self) in Hx as (k & Hk & Hx).
      unfold get_nonzero_weight_vector, np_zeros_column in Hg1.
      rewrite bool_decide_eq_false_2 in Hg1 by lia. simpl in Hg1. unfold range in Hg1.
      rewrite (encoding_loop_raises self Hok _ 0 _ _ k x) in Hg1;
        [done | lia | by rewrite length_replicate | lia | done | done]. }
  assert (HZ0 : ∀ r c l, entry L r c = Some l → entry Z0 r c = Some zero).
  { intros r c l Hl.
    assert (is_Some (entry Z0 r c)) as [z Hz].
    { assert (is_Some (entry L r c)) as HL by by eexists.
      apply entry_np_matmul_is_Some in HL as [Hr Hc].
      apply entry_np_matmul_is_Some. split; [|done].
      rewrite !length_np_matmul in Hr. rewrite !length_np_matmul.
      unfold np_scale in Hr |- *. rewrite length_fmap in Hr. by rewrite length_fmap. }
    rewrite Hz. f_equal. unfold Z0 in Hz. rewrite !np_scale_matmul in Hz.
    by apply entry_scale_zero in Hz. }
  assert (HWin : ∀ r c b', entry B r c = Some b' → is_Some (entry W r c)).
  { intros r c b' Hb.
    assert (is_Some (entry B r c)) as HB by by eexists.
    apply entry_np_matmul_is_Some in HB as [Hr Hc].
    rewrite length_np_matmul in Hr. rewrite ncols_transpose_ones in Hc by done.
    apply (square_entry (Z.to_nat (N self))); [done | | done].
    destruct Hsq as [Hrows _]. lia. }
  (* the three encodings *)
  destruct (encoding_loop_returns self Hok (penalty_gradient pinv self W alpha beta L) Hnw)
    as (g1' & Hg1' & Hlen1 & Hread1).
  { intros x Hx. destruct (Hin1 x Hx) as (l & a & b' & Hl & Ha & Hb).
    rewrite entry_penalty_gradient. fold A B. rewrite Hl, Ha, Hb. by eexists. }
  assert (g1' = g1) as -> by congruence.
  destruct (encoding_loop_returns self Hok (penalty_gradient pinv self W zero zero L) Hnw)
    as (g2 & Hg2 & Hlen2 & Hread2).
  { intros x Hx. destruct (Hin1 x Hx) as (l & a & b' & Hl & Ha & Hb).
    rewrite entry_penalty_gradient. fold A B. rewrite Hl, Ha, Hb. by eexists. }
  destruct (encoding_loop_returns self Hok
    (penalty_gradient pinv self W alpha beta Z0 ⊞ np_scale zero W) Hnw)
    as (g3 & Hg3 & Hlen3 & Hread3).
  { intros x Hx. destruct (Hin1 x Hx) as (l & a & b' & Hl & Ha & Hb).
    destruct (HWin _ _ _ Hb) as [v Hv].
    rewrite entry_np_add, entry_penalty_gradient, entry_np_scale. fold A B.
    rewrite (HZ0 _ _ _ Hl), Ha, Hb, Hv. by eexists. }
  exists g2, g3. split_and!; [done | done | lia |].
  apply list_eq. intros i. rewrite lookup_zip_with.
  destruct (decide (i < Z.to_nat (N_weights self))%nat) as [Hi'|Hi'].
  - destruct (active_lookup self Hok i Hi') as [x Hx].
    destruct (Hin1 x) as (l & a & b' & Hl & Ha & Hb).
    { apply elem_of_take. exists i. split; [done | lia]. }
    destruct (HWin _ _ _ Hb) as [v Hv].
    destruct (Hread1 i x Hi' Hx) as (v1 & Hv1 & ->).
    destruct (Hread2 i x Hi' Hx) as (v2 & Hv2 & ->).
    destruct (Hread3 i x Hi' Hx) as (v3 & Hv3 & ->).
    rewrite entry_penalty_gradient in Hv1, Hv2. fold A B in Hv1, Hv2.
    rewrite Hl, Ha, Hb in Hv1, Hv2. simpl in Hv1, Hv2.
    rewrite entry_np_add, entry_penalty_gradient, entry_np_scale in Hv3. fold A B in Hv3.
    rewrite (HZ0 _ _ _ Hl), Ha, Hb, Hv in Hv3. simpl in Hv3.
    simplify_eq. simpl. f_equal. unfold dale_sign. case_bool_decide; ring.
  - by rewrite !lookup_ge_None_2 by lia.
Qed.

End GradientFacts.

Lemma penalty_gradients_agree_witness :
  ∃ g1 g2 g3,
    gradient_weights_M_step (inv_1x1 rational_is_zero) np_transpose
      reduce_to_latent_dynamics full_pair_rational (replicate 4 1%Qc) 1%Qc b_rational
      m_rational cov_rational cov_next_rational (Q2Qc 3) (Q2Qc 5) = inr g1
    ∧ gradient_weights_M_step (inv_1x1 rational_is_zero) np_transpose
        reduce_to_latent_dynamics full_pair_rational (replicate 4 1%Qc) 1%Qc b_rational
        m_rational cov_rational cov_next_rational zero zero = inr g2
    ∧ gradient_weights_target_LDS np_transpose reduce_to_latent_dynamics
        full_pair_rational (replicate 4 1%Qc) [[Q2Qc 7]] zero (Q2Qc 3) (Q2Qc 5) zero
      = inr g3
    ∧ zip_with fsub g1 g2 = g3.
Proof.
  assert (∃ g1,
    gradient_weights_M_step (inv_1x1 rational_is_zero) np_transpose
      reduce_to_latent_dynamics full_pair_rational (replicate 4 1%Qc) 1%Qc b_rational
      m_rational cov_rational cov_next_rational (Q2Qc 3) (Q2Qc 5) = inr g1)
    as [g1 Hg1] by (eexists; vm_compute; reflexivity).
  destruct (penalty_gradients_agree (inv_1x1 rational_is_zero) np_transpose
    reduce_to_latent_dynamics counting_integers 1 1 float_1_0 J_rational 0
    full_pair_rational (replicate 4 1%Qc) 1%Qc b_rational m_rational cov_rational
    cov_next_rational (Q2Qc 3) (Q2Qc 5) [[Q2Qc 7]] g1 ltac:(lia) ltac:(lia)
    full_pair_rational_constructed Hg1) as (g2 & g3 & Hg2 & Hg3 & _ & Hdiff).
  by exists g1, g2, g3.
Defined.

(** ** The E-step over all trials, and singular covariances *)

Lemma np_zeros_trials_length {F : Type} `{Scalar F} (U T rows cols : Z)
  (z : list (list (matrix F))) :
  np_zeros_trials U T rows cols = inr z → length z = Z.to_nat U.
Proof.
  unfold np_zeros_trials. case_bool_decide; [discriminate|].
  intros [= <-]. by rewrite length_replicate.
Qed.

Section TrialFacts.
Context {F : Type} `{Scalar F}.

Variable matmul : matrix F → matrix F → matrix F.
Variable madd : matrix F → matrix F → matrix F.
Variable msub : matrix F → matrix F → matrix F.
Variable transpose : matrix F → matrix F.
Variable inv : matrix F → result (matrix F).
Variable build_dynamics_matrix_A : matrix F → matrix F → matrix F.
Variable np_diag_scaled_ones : F → Z → matrix F.

Local Abbreviation filter :=
  (Kalman_filter_E_step matmul madd msub transpose inv build_dynamics_matrix_A
     np_diag_scaled_ones).

Local Abbreviation smoother := (Kalman_smoother_E_step matmul madd msub transpose inv).

Local Abbreviation all_trials :=
  (E_step matmul madd msub transpose inv build_dynamics_matrix_A np_diag_scaled_ones).

(** X17.  The E-step treats the trials one by one: whenever it returns, the
    three arrays hold one entry per trial, and the entry of trial [u] is the
    smoother's output on the filter's output on [y[u]] alone, with the same
    weights and parameters for every trial. *)
Theorem E_step_per_trial (self : EI_subspace_RNN F) (y : list (list (matrix F)))
  (w : list F) (p : closed_forms F) (stats : e_statistics F) :
  all_trials self y w p = inr stats →
  ∃ W, build_full_weight_matrix self w = inr W
    ∧ length (s_m stats) = length y
    ∧ length (s_cov stats) = length y
    ∧ length (s_cov_next stats) = length y
    ∧ ∀ u y_u, y !! u = Some y_u →
        ∃ f sm,
          filter self y_u w (cf_b p) (cf_s p) (cf_mu0 p) (cf_Q0 p) (cf_C_ p) (cf_d p)
            (cf_R p) = inr f
          ∧ smoother self (build_dynamics_matrix_A W (J self)) f = inr sm
          ∧ s_m stats !! u = Some (m sm)
          ∧ s_cov stats !! u = Some (cov sm)
          ∧ s_cov_next stats !! u = Some (cov_next sm).
Proof.
  unfold E_step. intros Hrun.
  apply bind_inr in Hrun as (W & HW & Hrun).
  apply bind_inr in Hrun as (m0 & Hm0 & Hrun).
  apply bind_inr in Hrun as (cov0 & Hcov0 & Hrun).
  apply bind_inr in Hrun as (cov_next0 & Hcov_next0 & Hrun).
  apply np_zeros_trials_length in Hm0, Hcov0, Hcov_next0.
  rewrite Nat2Z.id in Hm0, Hcov0, Hcov_next0.
  exists W. split; [done|].
  unfold range in Hrun. rewrite Nat2Z.id in Hrun.
  apply (for_each_seq_sound
    (λ k st, length (s_m st) = length y ∧ length (s_cov st) = length y
             ∧ length (s_cov_next st) = length y
             ∧ ∀ u y_u, (u < k)%nat → y !! u = Some y_u →
                 ∃ f sm,
                   filter self y_u w (cf_b p) (cf_s p) (cf_mu0 p) (cf_Q0 p) (cf_C_ p)
                     (cf_d p) (cf_R p) = inr f
                   ∧ smoother self (build_dynamics_matrix_A W (J self)) f = inr sm
                   ∧ s_m st !! u = Some (m sm)
                   ∧ s_cov st !! u = Some (cov sm)
                   ∧ s_cov_next st !! u = Some (cov_next sm))
    0 (length y)) in Hrun.
  - destruct Hrun as (Lm & Lcov & Lnext & Hall). split_and!; [done..|].
    intros u y_u Hu. apply Hall; [|done]. apply lookup_lt_Some in Hu. lia.
  - simpl. split_and!; [done..|]. intros; lia.
  - clear Hrun. intros k st st' Hk (Lm & Lcov & Lnext & Hall) Hstep.
    unfold E_step_trial in Hstep.
    apply bind_inr in Hstep as (y_k & Hy_k & Hstep).
    apply bind_inr in Hstep as (f & Hf & Hstep).
    apply bind_inr in Hstep as (sm & Hsm & Hstep).
    apply bind_inr in Hstep as (m' & Hm' & Hstep).
    apply bind_inr in Hstep as (cov' & Hcov' & Hstep).
    apply bind_inr in Hstep as (cov_next' & Hcov_next' & [= <-]). simpl.
    apply set_item_nat in Hm' as [_ ->]. apply set_item_nat in Hcov' as [_ ->].
    apply set_item_nat in Hcov_next' as [_ ->]. rewrite !length_insert.
    split_and!; [done..|].
    intros u y_u Hu Hy_u. destruct (decide (u = k)) as [->|Hne].
    + apply subscript_inr in Hy_k. simplify_eq. exists f, sm.
      split_and!; [done | done | ..]; apply list_lookup_insert_eq; lia.
    + destruct (Hall u y_u) as (f' & sm' & Hf' & Hsm' & H1 & H2 & H3); [lia | done |].
      exists f', sm'. by rewrite !list_lookup_insert_ne by done.
Qed.

(** X18.  A singular covariance is fatal at the first update: on a
    constructed instance, for a weight vector of the right length and a
    trial of at least one observation, if [np.linalg.inv] raises on [R], or
    returns on [R] and raises on [Q0], then [Kalman_filter_E_step] raises
    that same exception. *)
Theorem filter_singular_covariance (integers : Z → Z → Z → Z → list Z)
  (N_e0 N_i0 : Z) (sparsity0 : spec_float) (J0 : matrix F) (seed : Z)
  (self : EI_subspace_RNN F) (y : list (matrix F)) (w : list F) (b : drive F) (s : F)
  (mu0 Q0 C_ d R : matrix F) (e : exn) :
  0 < N_e0 → 0 < N_i0 →
  __init__ integers N_e0 N_i0 sparsity0 J0 seed = inr self →
  Z.of_nat (length w) = N_weights self →
  y ≠ [] →
  inv R = inl e ∨ ((∃ R_inv, inv R = inr R_inv) ∧ inv Q0 = inl e) →
  filter self y w b s mu0 Q0 C_ d R = inl e.
Proof.
  intros He Hi Hinit Hlen Hy Hsing.
  destruct (__init___ok _ _ _ _ _ _ _ He Hi Hinit) as (Hok & _).
  destruct (build_full_weight_matrix_decoded self Hok w Hlen) as (W & HW & _).
  pose proof (ok_K _ Hok) as HK.
  assert (HT : (0 < length y)%nat) by (destruct y; [done | simpl; lia]).
  destruct (np_zeros_blocks_inr (F := F) (Z.of_nat (length y)) (K self) 1)
    as (z1 & Hz1 & Lz1); [lia..|].
  destruct (np_zeros_blocks_inr (F := F) (Z.of_nat (length y)) (K self) (K self))
    as (zK & HzK & LzK); [lia..|].
  rewrite Nat2Z.id in Lz1, LzK.
  unfold Kalman_filter_E_step. rewrite HW. simpl. rewrite Hz1. simpl. rewrite HzK. simpl.
  change 0 with (Z.of_nat 0).
  rewrite !set_item_inr by lia. simpl. unfold filter_update.
  destruct Hsing as [HR|[[R_inv HR] HQ0]].
  - by rewrite HR.
  - rewrite HR. simpl.
    rewrite (get_item_inr _ 0 Q0) by (apply list_lookup_insert_eq; lia). simpl.
    by rewrite HQ0.
Qed.

End TrialFacts.

Lemma E_step_per_trial_witness :
  ∃ stats,
    E_step np_matmul np_add np_subtract np_transpose (inv_1x1 float_is_zero)
      reduce_to_latent_dynamics diag_scaled_ones dense_triple [y_float; y_float]
      (replicate 6 float_0_25) parameters_float = inr stats
    ∧ length (s_m stats) = 2%nat
    ∧ s_m stats !! 0%nat = s_m stats !! 1%nat.
Proof.
  assert (∃ stats,
    E_step np_matmul np_add np_subtract np_transpose (inv_1x1 float_is_zero)
      reduce_to_latent_dynamics diag_scaled_ones dense_triple [y_float; y_float]
      (replicate 6 float_0_25) parameters_float = inr stats)
    as [stats Hstats] by (eexists; vm_compute; reflexivity).
  exists stats. split; [exact Hstats|].
  destruct (E_step_per_trial _ _ _ _ _ _ _ _ _ _ _ _ Hstats)
    as (W & _ & Lm & _ & _ & Hall).
  split; [exact Lm|].
  destruct (Hall 0%nat y_float eq_refl) as (f0 & sm0 & Hf0 & Hsm0 & Hm0 & _).
  destruct (Hall 1%nat y_float eq_refl) as (f1 & sm1 & Hf1 & Hsm1 & Hm1 & _).
  rewrite Hm0, Hm1. congruence.
Defined.

Lemma filter_singular_covariance_witness :
  Kalman_filter_E_step np_matmul np_add np_subtract np_transpose (inv_1x1 float_is_zero)
    reduce_to_latent_dynamics diag_scaled_ones dense_triple y_float
    (replicate 6 float_0_25) b_float float_1_0 [[float_0_25]] [[float_1_0]] [[float_1_0]]
    [[float_0_25]] [[zero]] = inl LinAlgError
  ∧ Kalman_filter_E_step np_matmul np_add np_subtract np_transpose (inv_1x1 float_is_zero)
      reduce_to_latent_dynamics diag_scaled_ones dense_triple y_float
      (replicate 6 float_0_25) b_float float_1_0 [[float_0_25]] [[zero]] [[float_1_0]]
      [[float_0_25]] [[float_1_0]] = inl LinAlgError.
Proof.
  split.
  - apply (filter_singular_covariance np_matmul np_add np_subtract np_transpose
      (inv_1x1 float_is_zero) reduce_to_latent_dynamics diag_scaled_ones
      counting_integers 1 2 float_0_75 J_float 5); [lia | lia | exact dense_triple_constructed
      | vm_compute; reflexivity | discriminate | left; reflexivity].
  - apply (filter_singular_covariance np_matmul np_add np_subtract np_transpose
      (inv_1x1 float_is_zero) reduce_to_latent_dynamics diag_scaled_ones
      counting_integers 1 2 float_0_75 J_float 5); [lia | lia | exact dense_triple_constructed
      | vm_compute; reflexivity | discriminate | right].
    split; [eexists; vm_compute; reflexivity | reflexivity].
Defined.

(** ** The covariance of the latent noise *)

Section CovarianceFacts.
Context {F : Type} `{ExactLaws F}.

Add Ring exact_scalars_covariance : exact_ring.

Infix "×" := np_matmul (at level 40, left associativity).

Lemma dot_zero_r (u v : list F) : Forall (λ x, x = zero) v → dot u v = zero.
Proof.
  intros Hv. revert u. induction Hv as [|y v -> _ IH]; intros [|x u]; unfold dot in *;
    simpl; try done.
  rewrite IH. ring.
Qed.

(** A row against a column with a single entry that is not zero. *)
Lemma dot_one_hot (u col : list F) (j : nat) (uj x : F) :
  u !! j = Some uj → col !! j = Some x →
  (∀ i y, i ≠ j → col !! i = Some y → y = zero) →
  dot u col = (uj * x)%A.
Proof.
  revert col j. induction u as [|a u IH]; intros [|c col] j Hu Hc Hzero; try done.
  destruct j as [|j]; simplify_eq/=.
  - unfold dot. simpl. fold (dot u col). rewrite dot_zero_r; [ring|].
    apply Forall_lookup. intros i y Hy. by apply (Hzero (S i)).
  - unfold dot. simpl. fold (dot u col).
    rewrite (IH col j Hu Hc) by (intros i y Hi Hy; apply (Hzero (S i)); [lia | done]).
    rewrite (Hzero 0%nat c) by done. ring.
Qed.

Lemma np_diag_lookup (v : list F) (i : nat) (x : F) :
  v !! i = Some x → np_diag v !! i = Some (<[i := x]> (replicate (length v) zero)).
Proof. intros Hx. unfold np_diag. by rewrite list_lookup_imap, Hx. Qed.

Lemma column_np_diag (v : list F) (j : nat) (x : F) :
  v !! j = Some x →
  column (np_diag v) j !! j = Some x
  ∧ ∀ i y, i ≠ j → column (np_diag v) j !! i = Some y → y = zero.
Proof.
  intros Hx. pose proof (lookup_lt_Some _ _ _ Hx) as Hj. unfold column. split.
  - rewrite list_lookup_fmap, (np_diag_lookup v j x Hx). simpl.
    by rewrite list_lookup_insert_eq by by rewrite length_replicate.
  - intros i y Hne Hy. rewrite list_lookup_fmap in Hy.
    destruct (np_diag v !! i) as [row|] eqn:Hrow; simplify_eq/=.
    unfold np_diag in Hrow. rewrite list_lookup_imap in Hrow.
    destruct (v !! i) as [xi|]; simplify_eq/=.
    rewrite list_lookup_insert_ne by done.
    by rewrite lookup_replicate_2 by done.
Qed.

Lemma ncols_np_diag (v : list F) : ncols (np_diag v) = length v.
Proof.
  destruct v as [|x v]; [done|]. unfold np_diag. simpl.
  by rewrite length_replicate.
Qed.

(** A row times a diagonal matrix: every entry times the diagonal's. *)
Lemma row_times_diagonal (u : list F) (s : F) (n : nat) :
  length u = n →
  (dot u <$> np_transpose (np_diag (fmul s <$> replicate n one)))
  = (λ x, s * x)%A <$> u.
Proof.
  intros Hlen. apply list_eq. intros j. unfold np_transpose.
  rewrite ncols_np_diag, length_fmap, length_replicate, !list_lookup_fmap.
  destruct (decide (j < n)%nat) as [Hj|Hj].
  - rewrite lookup_seq_lt by done. simpl.
    destruct (lookup_lt_is_Some_2 u j) as [uj Huj]; [lia|]. rewrite Huj. simpl. f_equal.
    assert (Hdiag : (fmul s <$> replicate n one) !! j = Some (s * one)%A).
    { by rewrite list_lookup_fmap, lookup_replicate_2. }
    destruct (column_np_diag _ j _ Hdiag) as [Hone Hzero].
    rewrite (dot_one_hot u _ j uj (s * one)%A) by done. ring.
  - rewrite lookup_seq_ge by lia. simpl. by rewrite lookup_ge_None_2 by lia.
Qed.

(** X19.  In exact arithmetic the covariance of the latent noise is the
    network's noise scale times [J J^T]: for [J] with [N] entries in every
    row, [build_dynamics_covariance(s)], computed as
    [J @ np.diag(s * np.ones(N)) @ J.T], equals [s * (J @ J.T)]. *)
Theorem dynamics_covariance_is_scaled_gram (self : EI_subspace_RNN F) (s : F) :
  Forall (λ row, Z.of_nat (length row) = N self) (J self) →
  build_dynamics_covariance np_matmul np_transpose build_network_covariance self s
  = np_scale s (J self × np_transpose (J self)).
Proof.
  intros Hrows. unfold build_dynamics_covariance, build_network_covariance.
  rewrite <- np_scale_matmul. f_equal.
  unfold np_matmul at 1. unfold np_scale.
  apply list_eq. intros i. rewrite !list_lookup_fmap.
  destruct (J self !! i) as [row|] eqn:Hrow; simpl; [|done]. f_equal.
  rewrite Forall_lookup in Hrows. specialize (Hrows i row Hrow).
  rewrite (row_times_diagonal row s) by lia. done.
Qed.

End CovarianceFacts.

Lemma dynamics_covariance_is_scaled_gram_witness :
  build_dynamics_covariance np_matmul np_transpose build_network_covariance
    full_pair_rational (Q2Qc 3)
  = np_scale (Q2Qc 3) (np_matmul J_rational (np_transpose J_rational)).
Proof.
  apply (dynamics_covariance_is_scaled_gram full_pair_rational (Q2Qc 3)).
  repeat constructor.
Defined.
